(** * Agent Studio: discovery, consistency and store properties

    A shallow embedding of the parts of Agent Studio that its specification
    makes claims about:

    - [AppStore]: the zustand store of [store/appStore.ts];
    - [FixConfig]: the bulk fix handler of [components/FixConfigModal.tsx];
    - [ConfigEngine] and [Duplicates]: the consistency engine and the
      duplicate resolver of the backend, which the front end only calls;
    - [Js] and [Frontmatter]: the frontmatter utilities of [lib/api.ts];

    and of the code around them:

    - [Written]: the shapes in which [generateFrontmatter] writes values;
    - [Search] and [GlobalSearch]: the fuzzy search of the store and of the
      search dialog, and the dialog's selection handler;
    - [Keyboard] and [Health]: the hooks [useKeyboardNavigation] and
      [useHealthIssues];
    - [Entities] and [Store]: the entity types of [lib/types.ts] and the
      store's entity, theme and toast actions;
    - [FixSelection]: the selection handlers of the bulk fix dialog.

    Definitions come first, theorems follow. *)

From Stdlib Require Import List String Ascii ZArith NArith Lia Bool Arith.
From Stdlib Require Import Permutation.
Import ListNotations.

(* ========================================================================= *)
(** * Part I: definitions *)
(* ========================================================================= *)

(* ------------------------------------------------------------------------- *)
(** ** The application store ([store/appStore.ts]) *)
(* ------------------------------------------------------------------------- *)

Module AppStore.

(** The entity and collection payloads are opaque to the store actions
    modelled here: they are copied, never inspected. *)
Class Payloads := {
  ProjectInfo : Type;
  SettingsEntity : Type;
  MemoryEntity : Type;
  AgentEntity : Type;
  SkillEntity : Type;
  CommandEntity : Type;
  HookEntity : Type;
  PluginEntity : Type;
  McpServerEntity : Type;
  DuplicateGroup : Type;
  SymlinkInfo : Type;
  DisplayableEntity : Type;
  Toast : Type;
  CommandPaletteSection : Type
}.

(** Payloads for closed examples: every collection holds ids. *)
Definition plain_payloads : Payloads :=
  Build_Payloads string string string string string string string
    string string string string string string string.

Inductive ViewType :=
| dashboard | project | health | settings_view | memory_view | agents_view
| skills_view | commands_view | hooks_view | plugins_view | mcp_view.

Inductive FilterScope := scope_all | scope_global | scope_project.

Inductive ToolType := claude | opencode.

Inductive ToolFilter := tool_all | tool_only (t : ToolType).

Inductive Theme := dark | light.

Section State.
Context {P : Payloads}.

(** [interface AppState], data fields only (the actions are the functions
    below). *)
Record AppState := {
  isLoading : bool;
  lastDiscovery : option Z;
  error : option string;
  globalConfigPath : string;
  homeDirectory : string;
  projects : list ProjectInfo;
  settings : list SettingsEntity;
  memory : list MemoryEntity;
  agents : list AgentEntity;
  skills : list SkillEntity;
  commands : list CommandEntity;
  hooks : list HookEntity;
  plugins : list PluginEntity;
  mcpServers : list McpServerEntity;
  duplicates : list DuplicateGroup;
  symlinks : list SymlinkInfo;
  activeView : ViewType;
  selectedEntity : option DisplayableEntity;
  searchQuery : string;
  filterScope : FilterScope;
  filterProject : option string;
  filterTool : ToolFilter;
  isPanelOpen : bool;
  theme : Theme;
  isGlobalSearchOpen : bool;
  globalSearchQuery : string;
  recentEntityIds : list string;
  toasts : list Toast;
  hasInitiallyAnimated : bool;
  previousItemIds : list string;
  _cachedSections : option (list CommandPaletteSection)
}.

(** One entry of the partial object handed to zustand's [set]. *)
Inductive Field :=
| f_activeView (v : ViewType)
| f_selectedEntity (e : option DisplayableEntity)
| f_isPanelOpen (b : bool)
| f_searchQuery (q : string)
| f_filterScope (s : FilterScope)
| f_filterProject (p : option string)
| f_recentEntityIds (ids : list string)
| f_cachedSections (c : option (list CommandPaletteSection)).

Definition assign (f : Field) (s : AppState) : AppState :=
  match f with
  | f_activeView v =>
      Build_AppState (isLoading s) (lastDiscovery s) (error s)
        (globalConfigPath s) (homeDirectory s) (projects s) (settings s)
        (memory s) (agents s) (skills s) (commands s) (hooks s) (plugins s)
        (mcpServers s) (duplicates s) (symlinks s) v (selectedEntity s)
        (searchQuery s) (filterScope s) (filterProject s) (filterTool s)
        (isPanelOpen s) (theme s) (isGlobalSearchOpen s)
        (globalSearchQuery s) (recentEntityIds s) (toasts s)
        (hasInitiallyAnimated s) (previousItemIds s) (_cachedSections s)
  | f_selectedEntity e =>
      Build_AppState (isLoading s) (lastDiscovery s) (error s)
        (globalConfigPath s) (homeDirectory s) (projects s) (settings s)
        (memory s) (agents s) (skills s) (commands s) (hooks s) (plugins s)
        (mcpServers s) (duplicates s) (symlinks s) (activeView s) e
        (searchQuery s) (filterScope s) (filterProject s) (filterTool s)
        (isPanelOpen s) (theme s) (isGlobalSearchOpen s)
        (globalSearchQuery s) (recentEntityIds s) (toasts s)
        (hasInitiallyAnimated s) (previousItemIds s) (_cachedSections s)
  | f_isPanelOpen b =>
      Build_AppState (isLoading s) (lastDiscovery s) (error s)
        (globalConfigPath s) (homeDirectory s) (projects s) (settings s)
        (memory s) (agents s) (skills s) (commands s) (hooks s) (plugins s)
        (mcpServers s) (duplicates s) (symlinks s) (activeView s)
        (selectedEntity s) (searchQuery s) (filterScope s) (filterProject s)
        (filterTool s) b (theme s) (isGlobalSearchOpen s)
        (globalSearchQuery s) (recentEntityIds s) (toasts s)
        (hasInitiallyAnimated s) (previousItemIds s) (_cachedSections s)
  | f_searchQuery q =>
      Build_AppState (isLoading s) (lastDiscovery s) (error s)
        (globalConfigPath s) (homeDirectory s) (projects s) (settings s)
        (memory s) (agents s) (skills s) (commands s) (hooks s) (plugins s)
        (mcpServers s) (duplicates s) (symlinks s) (activeView s)
        (selectedEntity s) q (filterScope s) (filterProject s)
        (filterTool s) (isPanelOpen s) (theme s) (isGlobalSearchOpen s)
        (globalSearchQuery s) (recentEntityIds s) (toasts s)
        (hasInitiallyAnimated s) (previousItemIds s) (_cachedSections s)
  | f_filterScope fs =>
      Build_AppState (isLoading s) (lastDiscovery s) (error s)
        (globalConfigPath s) (homeDirectory s) (projects s) (settings s)
        (memory s) (agents s) (skills s) (commands s) (hooks s) (plugins s)
        (mcpServers s) (duplicates s) (symlinks s) (activeView s)
        (selectedEntity s) (searchQuery s) fs (filterProject s)
        (filterTool s) (isPanelOpen s) (theme s) (isGlobalSearchOpen s)
        (globalSearchQuery s) (recentEntityIds s) (toasts s)
        (hasInitiallyAnimated s) (previousItemIds s) (_cachedSections s)
  | f_filterProject fp =>
      Build_AppState (isLoading s) (lastDiscovery s) (error s)
        (globalConfigPath s) (homeDirectory s) (projects s) (settings s)
        (memory s) (agents s) (skills s) (commands s) (hooks s) (plugins s)
        (mcpServers s) (duplicates s) (symlinks s) (activeView s)
        (selectedEntity s) (searchQuery s) (filterScope s) fp
        (filterTool s) (isPanelOpen s) (theme s) (isGlobalSearchOpen s)
        (globalSearchQuery s) (recentEntityIds s) (toasts s)
        (hasInitiallyAnimated s) (previousItemIds s) (_cachedSections s)
  | f_recentEntityIds ids =>
      Build_AppState (isLoading s) (lastDiscovery s) (error s)
        (globalConfigPath s) (homeDirectory s) (projects s) (settings s)
        (memory s) (agents s) (skills s) (commands s) (hooks s) (plugins s)
        (mcpServers s) (duplicates s) (symlinks s) (activeView s)
        (selectedEntity s) (searchQuery s) (filterScope s) (filterProject s)
        (filterTool s) (isPanelOpen s) (theme s) (isGlobalSearchOpen s)
        (globalSearchQuery s) ids (toasts s)
        (hasInitiallyAnimated s) (previousItemIds s) (_cachedSections s)
  | f_cachedSections c =>
      Build_AppState (isLoading s) (lastDiscovery s) (error s)
        (globalConfigPath s) (homeDirectory s) (projects s) (settings s)
        (memory s) (agents s) (skills s) (commands s) (hooks s) (plugins s)
        (mcpServers s) (duplicates s) (symlinks s) (activeView s)
        (selectedEntity s) (searchQuery s) (filterScope s) (filterProject s)
        (filterTool s) (isPanelOpen s) (theme s) (isGlobalSearchOpen s)
        (globalSearchQuery s) (recentEntityIds s) (toasts s)
        (hasInitiallyAnimated s) (previousItemIds s) c
  end.

(** zustand's [set(partial)]: a shallow merge, field by field. *)
Definition set (partial : list Field) (s : AppState) : AppState :=
  fold_left (fun acc f => assign f acc) partial s.

(** The browser's [localStorage], restricted to the three keys the store
    uses.  [JSON.stringify] of the id array is kept as the array itself. *)
Record LocalStorage := {
  ls_filterTool : option ToolFilter;
  ls_theme : option Theme;
  ls_recentEntityIds : option (list string)
}.

Definition World : Type := AppState * LocalStorage.

(** [setActiveView]: reset search and filters when changing views. *)
Definition setActiveView (view : ViewType) (w : World) : World :=
  (set [ f_activeView view;
         f_selectedEntity None;
         f_isPanelOpen false;
         f_searchQuery ""%string;
         f_filterScope scope_all;
         f_filterProject None;
         f_cachedSections None ] (fst w),
   snd w).

(** [Array.prototype.slice(0, n)] on an array. *)
Definition slice0 {A} (n : nat) (l : list A) : list A := firstn n l.

(** [addToRecentEntities]: remove if already there, add to the front, keep
    at most five. *)
Definition addToRecentEntities (id : string) (w : World) : World :=
  let recent := recentEntityIds (fst w) in
  let filtered :=
    filter (fun existingId => negb (String.eqb existingId id)) recent in
  let updated := slice0 5 (id :: filtered) in
  (set [ f_recentEntityIds updated ] (fst w),
   {| ls_filterTool := ls_filterTool (snd w);
      ls_theme := ls_theme (snd w);
      ls_recentEntityIds := Some updated |}).

(** The store's initial state, with an empty [localStorage]: the tool filter
    and the theme fall back to their defaults and no id is recent. *)
Definition empty_storage : LocalStorage :=
  {| ls_filterTool := None; ls_theme := None; ls_recentEntityIds := None |}.

Definition initial_state : AppState :=
  {| isLoading := false; lastDiscovery := None; error := None;
     globalConfigPath := ""; homeDirectory := "";
     projects := []; settings := []; memory := []; agents := [];
     skills := []; commands := []; hooks := []; plugins := [];
     mcpServers := []; duplicates := []; symlinks := [];
     activeView := dashboard; selectedEntity := None; searchQuery := "";
     filterScope := scope_all; filterProject := None;
     filterTool := tool_all; isPanelOpen := false; theme := dark;
     isGlobalSearchOpen := false; globalSearchQuery := "";
     recentEntityIds := []; toasts := [];
     hasInitiallyAnimated := false; previousItemIds := [];
     _cachedSections := None |}.

(** A sequence of [addToRecentEntities] calls, first id first. *)
Definition addAllToRecentEntities (ids : list string) (w : World) : World :=
  fold_left (fun acc id => addToRecentEntities id acc) ids w.

Definition recent (w : World) : list string := recentEntityIds (fst w).

End State.
End AppStore.

(* ------------------------------------------------------------------------- *)
(** ** The bulk fix dialog ([components/FixConfigModal.tsx]) *)
(* ------------------------------------------------------------------------- *)

Module FixConfig.

Inductive ConfigStateType :=
| correct | missing_symlink | needs_migration | conflict | empty.

Inductive FixStatus := pending | fixing | success | error.

Record ProjectFixState := {
  path : string;
  name : string;
  configState : ConfigStateType;
  selected : bool;
  status : FixStatus;
  message : option string
}.

(** What a rejected promise carries: an [Error] object with its message, or
    any other value (Tauri rejects with the backend's error string). *)
Inductive Thrown := ErrorObject (msg : string) | OtherValue.

(** Outcome of one [fixProjectConfig(path)] call. *)
Inductive FixResult := Resolved (msg : string) | Rejected (e : Thrown).

(** The backend as the dialog sees it: an outcome for each project path. *)
Definition Backend := string -> FixResult.

Inductive ToastType := toast_success | toast_warning.

(** The two summary messages, with the numbers of their templates. *)
Inductive ToastMessage :=
| Successfully_fixed (successCount : nat)
| Fixed_failed (successCount errorCount : nat).

Record Toast := {
  toast_type : ToastType;
  toast_title : string;
  toast_message : ToastMessage
}.

(** The component's state cells, with a log of what it did to the outside:
    the backend calls, the discovery refreshes and the toasts, oldest
    first. *)
Record Component := {
  projectStates : list ProjectFixState;
  isFixing : bool;
  isDone : bool;
  calls : list string;
  refreshes : nat;
  toasts : list Toast
}.

(** The handler runs in a state monad over the component. *)
Definition M (A : Type) : Type := Component -> A * Component.

Definition ret {A} (a : A) : M A := fun c => (a, c).

Definition bind {A B} (m : M A) (k : A -> M B) : M B :=
  fun c => let (a, c') := m c in k a c'.

Notation "x <- m ;; k" := (bind m (fun x => k))
  (at level 61, m at next level, right associativity).
Notation "m ;; k" := (bind m (fun _ => k))
  (at level 61, right associativity).

(** [for (const x of xs) body]. *)
Fixpoint for_of {A} (xs : list A) (body : A -> M unit) : M unit :=
  match xs with
  | [] => ret tt
  | x :: rest => body x ;; for_of rest body
  end.

(** [setProjectStates(prev => f prev)]: a functional update, applied to the
    state cell as it is when the update runs. *)
Definition setProjectStates
    (f : list ProjectFixState -> list ProjectFixState) : M unit :=
  fun c => (tt, {| projectStates := f (projectStates c);
                   isFixing := isFixing c; isDone := isDone c;
                   calls := calls c; refreshes := refreshes c;
                   toasts := toasts c |}).

Definition setIsFixing (b : bool) : M unit :=
  fun c => (tt, {| projectStates := projectStates c;
                   isFixing := b; isDone := isDone c;
                   calls := calls c; refreshes := refreshes c;
                   toasts := toasts c |}).

Definition setIsDone (b : bool) : M unit :=
  fun c => (tt, {| projectStates := projectStates c;
                   isFixing := isFixing c; isDone := b;
                   calls := calls c; refreshes := refreshes c;
                   toasts := toasts c |}).

(** [await fixProjectConfig(path)], with the rejection as a value. *)
Definition fixProjectConfig (backend : Backend) (p : string) : M FixResult :=
  fun c => (backend p,
            {| projectStates := projectStates c;
               isFixing := isFixing c; isDone := isDone c;
               calls := calls c ++ [p]; refreshes := refreshes c;
               toasts := toasts c |}).

(** [await refreshDiscovery()]: the store's action catches its own errors,
    so it always resolves; it touches the store, not this component. *)
Definition refreshDiscovery : M unit :=
  fun c => (tt, {| projectStates := projectStates c;
                   isFixing := isFixing c; isDone := isDone c;
                   calls := calls c; refreshes := S (refreshes c);
                   toasts := toasts c |}).

Definition addToast (t : Toast) : M unit :=
  fun c => (tt, {| projectStates := projectStates c;
                   isFixing := isFixing c; isDone := isDone c;
                   calls := calls c; refreshes := refreshes c;
                   toasts := toasts c ++ [t] |}).

Definition with_status (st : FixStatus) (p : ProjectFixState)
  : ProjectFixState :=
  {| path := path p; name := name p; configState := configState p;
     selected := selected p; status := st; message := message p |}.

Definition with_status_message (st : FixStatus) (m : string)
    (p : ProjectFixState) : ProjectFixState :=
  {| path := path p; name := name p; configState := configState p;
     selected := selected p; status := st; message := Some m |}.

Definition FixStatus_eqb (a b : FixStatus) : bool :=
  match a, b with
  | pending, pending | fixing, fixing | success, success | error, error =>
      true
  | _, _ => false
  end.

(** [handleFixSelected], as the closure one render creates: [projectStates]
    is that render's value of the state cell, fixed for the whole run of the
    handler, while [setProjectStates] acts on the cell itself. *)
Definition handleFixSelected (backend : Backend)
    (projectStates : list ProjectFixState) : M unit :=
  let toFix := filter selected projectStates in
  if Nat.eqb (List.length toFix) 0 then ret tt else
  setIsFixing true ;;
  for_of toFix (fun project =>
    setProjectStates (map (fun p =>
      if String.eqb (path p) (path project)
      then with_status fixing p else p)) ;;
    r <- fixProjectConfig backend (path project) ;;
    match r with
    | Resolved message =>
        setProjectStates (map (fun p =>
          if String.eqb (path p) (path project)
          then with_status_message success message p else p))
    | Rejected e =>
        let errorMessage :=
          match e with
          | ErrorObject m => m
          | OtherValue => "Unknown error"%string
          end in
        setProjectStates (map (fun p =>
          if String.eqb (path p) (path project)
          then with_status_message error errorMessage p else p))
    end) ;;
  setIsFixing false ;;
  setIsDone true ;;
  refreshDiscovery ;;
  let successCount :=
    List.length
      (filter (fun p => FixStatus_eqb (status p) success) projectStates) in
  let errorCount :=
    List.length
      (filter (fun p => FixStatus_eqb (status p) error) projectStates) in
  if Nat.eqb errorCount 0 then
    addToast {| toast_type := toast_success;
                toast_title := "All configs fixed";
                toast_message := Successfully_fixed successCount |}
  else
    addToast {| toast_type := toast_warning;
                toast_title := "Some fixes failed";
                toast_message := Fixed_failed successCount errorCount |}.

(** The dialog as mounted for [projects]: everything selected and pending. *)
Definition mount (projects : list (string * string * option ConfigStateType))
  : Component :=
  {| projectStates :=
       map (fun p =>
              match p with
              | (p_path, p_name, p_state) =>
                  {| path := p_path; name := p_name;
                     configState :=
                       match p_state with Some st => st | None => empty end;
                     selected := true; status := pending;
                     message := None |}
              end) projects;
     isFixing := false; isDone := false;
     calls := []; refreshes := 0; toasts := [] |}.

(** [toggleProject]. *)
Definition toggleProject (p_path : string) (c : Component) : Component :=
  if isFixing c || isDone c then c else
  snd (setProjectStates (map (fun p =>
         if String.eqb (path p) p_path
         then {| path := path p; name := name p;
                 configState := configState p;
                 selected := negb (selected p);
                 status := status p; message := message p |}
         else p)) c).

(** A click on the fix button: the handler of the current render runs, with
    the state cell's current value in its closure. *)
Definition click_fix (backend : Backend) (c : Component) : Component :=
  snd (handleFixSelected backend (projectStates c) c).

(** What a call settles a row to. *)
Definition settled (backend : Backend) (p : ProjectFixState)
  : ProjectFixState :=
  match backend (path p) with
  | Resolved m => with_status_message success m p
  | Rejected (ErrorObject m) => with_status_message error m p
  | Rejected OtherValue => with_status_message error "Unknown error" p
  end.

(** What one turn of the loop does to the state cell. *)
Definition settle_path (backend : Backend) (q : string)
    (ps : list ProjectFixState)
  : list ProjectFixState :=
  map (fun p => if String.eqb (path p) q then settled backend p else p) ps.

(** The body of the loop of [handleFixSelected], by itself. *)
Definition loop_body (backend : Backend) (project : ProjectFixState)
  : M unit :=
  setProjectStates (map (fun p =>
    if String.eqb (path p) (path project)
    then with_status fixing p else p)) ;;
  r <- fixProjectConfig backend (path project) ;;
  match r with
  | Resolved message =>
      setProjectStates (map (fun p =>
        if String.eqb (path p) (path project)
        then with_status_message success message p else p))
  | Rejected e =>
      let errorMessage :=
        match e with
        | ErrorObject m => m
        | OtherValue => "Unknown error"%string
        end in
      setProjectStates (map (fun p =>
        if String.eqb (path p) (path project)
        then with_status_message error errorMessage p else p))
  end.

(** The summary toast of [handleFixSelected], computed from the rows it is
    handed. *)
Definition summary_toast (ps : list ProjectFixState) : Toast :=
  let successCount :=
    List.length (filter (fun p => FixStatus_eqb (status p) success) ps) in
  let errorCount :=
    List.length (filter (fun p => FixStatus_eqb (status p) error) ps) in
  if Nat.eqb errorCount 0 then
    {| toast_type := toast_success;
       toast_title := "All configs fixed";
       toast_message := Successfully_fixed successCount |}
  else
    {| toast_type := toast_warning;
       toast_title := "Some fixes failed";
       toast_message := Fixed_failed successCount errorCount |}.

Definition succeeded (backend : Backend) (p : ProjectFixState) : bool :=
  match backend (path p) with Resolved _ => true | Rejected _ => false end.

End FixConfig.

(* ------------------------------------------------------------------------- *)
(** ** The consistency engine (backend commands [get_project_config_state]
       and [fix_project_config]) *)
(* ------------------------------------------------------------------------- *)

Module ConfigEngine.

(** [FileStatus], [ConfigStateType] and [ConfigState] of [lib/types.ts]. *)
Inductive FileStatus := file | symlink | missing.

Inductive ConfigStateType :=
| correct | missing_symlink | needs_migration | conflict | empty.

Record ConfigState := {
  agents_md_status : FileStatus;
  claude_md_status : FileStatus;
  claude_md_symlink_target : option string;
  config_state : ConfigStateType;
  can_auto_fix : bool
}.

(** What a path holds on disk. *)
Inductive Node :=
| Absent
| Regular (content : string)
| Link (target : string).

(** The file system, as far as the engine looks at it. *)
Definition FileSystem := string -> Node.

Definition write (fs : FileSystem) (p : string) (n : Node) : FileSystem :=
  fun q => if String.eqb q p then n else fs q.

(** The legacy memory file of a project is its [CLAUDE.md], the universal
    one its [AGENTS.md]. *)
Definition claude_md_path (project : string) : string :=
  (project ++ "/CLAUDE.md")%string.

Definition agents_md_path (project : string) : string :=
  (project ++ "/AGENTS.md")%string.

Definition status_of (n : Node) : FileStatus :=
  match n with
  | Absent => missing
  | Regular _ => file
  | Link _ => symlink
  end.

Definition target_of (n : Node) : option string :=
  match n with
  | Link t => Some t
  | _ => None
  end.

Definition ConfigStateType_eqb (a b : ConfigStateType) : bool :=
  match a, b with
  | correct, correct | missing_symlink, missing_symlink
  | needs_migration, needs_migration | conflict, conflict
  | empty, empty => true
  | _, _ => false
  end.

(** Result of a fix: the wording of the messages is the backend's own. *)
Inductive FixResult :=
| Ok_nothing_to_do
| Ok_fixed (was : ConfigStateType)
| Err_needs_manual_resolution.

Section Engine.

(** Given by the file system: the absolute path a link target stands for,
    seen from the directory of the link. *)
Variable resolve : string -> string -> string.

(** The text of the link the fix writes at the legacy path. *)
Variable link_text : string -> string.

(** The classification of the combinations that the decision table does not
    list. *)
Variable unlisted : FileStatus -> FileStatus -> bool -> ConfigStateType.

(** Modelled from the spec: the backend's classification, which is not part
    of the front-end sources.  This is the decision table of the consistency
    engine, row by row; [link_ok] says whether the legacy link points at the
    universal file. *)
Definition classify (legacy universal : FileStatus) (link_ok : bool)
  : ConfigStateType :=
  match legacy, universal with
  | symlink, file => if link_ok then correct else conflict
  | missing, file => missing_symlink
  | file, missing => needs_migration
  | file, file => conflict
  | missing, missing => empty
  | _, _ => unlisted legacy universal link_ok
  end.

Definition points_at_universal (fs : FileSystem) (project : string) : bool :=
  match fs (claude_md_path project) with
  | Link t => String.eqb (resolve project t) (agents_md_path project)
  | _ => false
  end.

(** Modelled from the spec: the backend command [get_project_config_state],
    which is not part of the front-end sources.  It reports the status of
    the two files, the legacy link's target, the classification, and
    whether an automated fix exists: for every classification except
    [conflict]. *)
Definition get_project_config_state (fs : FileSystem) (project : string)
  : ConfigState :=
  let legacy := fs (claude_md_path project) in
  let universal := fs (agents_md_path project) in
  let cls :=
    classify (status_of legacy) (status_of universal)
      (points_at_universal fs project) in
  {| agents_md_status := status_of universal;
     claude_md_status := status_of legacy;
     claude_md_symlink_target := target_of legacy;
     config_state := cls;
     can_auto_fix := negb (ConfigStateType_eqb cls conflict) |}.

Definition content_of (n : Node) : string :=
  match n with
  | Regular c => c
  | _ => ""%string
  end.

(** Modelled from the spec: the backend command [fix_project_config], which
    is not part of the front-end sources.  Per classification:
    - [missing_symlink]: create the legacy link to the universal file;
    - [needs_migration]: move the legacy content into a new universal file,
      then replace the legacy file with a link to it;
    - [empty]: create an empty universal file, then the legacy link;
    - [conflict]: fail, touching nothing;
    - [correct]: nothing to do. *)
Definition fix_project_config (fs : FileSystem) (project : string)
  : FixResult * FileSystem :=
  let legacy := claude_md_path project in
  let universal := agents_md_path project in
  match config_state (get_project_config_state fs project) with
  | correct => (Ok_nothing_to_do, fs)
  | missing_symlink =>
      (Ok_fixed missing_symlink,
       write fs legacy (Link (link_text project)))
  | needs_migration =>
      let moved := write fs universal (Regular (content_of (fs legacy))) in
      (Ok_fixed needs_migration,
       write moved legacy (Link (link_text project)))
  | empty =>
      let created := write fs universal (Regular ""%string) in
      (Ok_fixed empty, write created legacy (Link (link_text project)))
  | conflict => (Err_needs_manual_resolution, fs)
  end.

End Engine.

(** A file system for closed examples: targets starting with a slash are
    absolute, the others are relative to the link's directory, and the fix
    writes the relative link [AGENTS.md]. *)
Definition resolve_plain (dir target : string) : string :=
  match target with
  | String "/"%char _ => target
  | _ => (dir ++ "/" ++ target)%string
  end.

Definition link_text_plain (_ : string) : string := "AGENTS.md"%string.

Definition unlisted_conflict (_ _ : FileStatus) (_ : bool)
  : ConfigStateType := conflict.

Definition empty_disk : FileSystem := fun _ => Absent.

End ConfigEngine.

(* ------------------------------------------------------------------------- *)
(** ** The duplicate resolver (backend command [find_duplicates]) *)
(* ------------------------------------------------------------------------- *)

Module Duplicates.

(** [EntityType] of [lib/types.ts]. *)
Inductive EntityType :=
| settings | memory | agent | skill | command | hook | plugin | mcp.

(** The scopes the resolver orders, most specific first. *)
Inductive Scope := local_override | project | global.

Definition scope_rank (s : Scope) : nat :=
  match s with
  | local_override => 0
  | project => 1
  | global => 2
  end.

(** The base fields of an entity that the resolver reads. *)
Record Entity := {
  id : string;
  name : string;
  kind : EntityType;
  path : string;
  scope : Scope;
  project_path : option string
}.

(** [DuplicateEntity] and [DuplicateGroup] of [lib/types.ts]. *)
Record DuplicateEntity := {
  d_id : string;
  d_path : string;
  d_scope : Scope;
  d_project_path : option string;
  precedence : nat
}.

Record DuplicateGroup := {
  g_name : string;
  entity_type : EntityType;
  entities : list DuplicateEntity
}.

Definition EntityType_eqb (a b : EntityType) : bool :=
  match a, b with
  | settings, settings | memory, memory | agent, agent | skill, skill
  | command, command | hook, hook | plugin, plugin | mcp, mcp => true
  | _, _ => false
  end.

Definition Key : Type := EntityType * string.

Definition key_of (e : Entity) : Key := (kind e, name e).

Definition Key_eqb (a b : Key) : bool :=
  EntityType_eqb (fst a) (fst b) && String.eqb (snd a) (snd b).

(** Hooks and MCP servers repeat by design and are not grouped. *)
Definition groupable (e : Entity) : bool :=
  match kind e with
  | hook | mcp => false
  | _ => true
  end.

Definition has_key (k : Key) (e : Entity) : bool := Key_eqb (key_of e) k.

Definition at_scope (s : Scope) (e : Entity) : bool :=
  Nat.eqb (scope_rank (scope e)) (scope_rank s).

(** Most specific scope first; within one scope, discovery order. *)
Definition by_precedence (members : list Entity) : list Entity :=
  filter (at_scope local_override) members
  ++ filter (at_scope project) members
  ++ filter (at_scope global) members.

Definition ranked (r : nat) (e : Entity) : DuplicateEntity :=
  {| d_id := id e; d_path := path e; d_scope := scope e;
     d_project_path := project_path e; precedence := r |}.

(** Ranks [from], [from + 1], ... down the list. *)
Fixpoint rank_from (from : nat) (l : list Entity) : list DuplicateEntity :=
  match l with
  | [] => []
  | e :: rest => ranked from e :: rank_from (S from) rest
  end.

(** The keys of a list of entities, each once, in order of first
    appearance. *)
Fixpoint distinct_keys (seen : list Key) (l : list Entity) : list Key :=
  match l with
  | [] => []
  | e :: rest =>
      if existsb (Key_eqb (key_of e)) seen
      then distinct_keys seen rest
      else key_of e :: distinct_keys (key_of e :: seen) rest
  end.

Definition group_for (candidates : list Entity) (k : Key)
  : list DuplicateGroup :=
  let members := filter (has_key k) candidates in
  if Nat.leb 2 (List.length members)
  then [ {| g_name := snd k; entity_type := fst k;
            entities := rank_from 0 (by_precedence members) |} ]
  else [].

(** Modelled from the spec: the backend's duplicate resolver, which is not
    part of the front-end sources.  It groups all entities except hooks and
    MCP servers by (entity kind, logical name) and, for each group of at
    least two, ranks the members: project-local override scope, then
    project scope, then global scope, and discovery order within a
    scope. *)
Definition find_duplicates (discovered : list Entity) : list DuplicateGroup :=
  let candidates := filter groupable discovered in
  flat_map (group_for candidates) (distinct_keys [] candidates).

(** A member of a group without its rank. *)
Definition unranked (d : DuplicateEntity)
  : string * string * Scope * option string :=
  (d_id d, d_path d, d_scope d, d_project_path d).

Definition located (e : Entity) : string * string * Scope * option string :=
  (id e, path e, scope e, project_path e).

Definition group_key (g : DuplicateGroup) : Key := (entity_type g, g_name g).

(** The entities of a discovery that a group with key [k] is about. *)
Definition sharing (k : Key) (discovered : list Entity) : list Entity :=
  filter (has_key k) (filter groupable discovered).

End Duplicates.

(* ------------------------------------------------------------------------- *)
(** ** JavaScript strings, as the frontmatter utilities use them *)
(* ------------------------------------------------------------------------- *)

Module Js.

(** A string is its sequence of UTF-16 code units. *)
Definition jsstring : Type := list N.

(** An ASCII literal as a string. *)
Definition str (s : string) : jsstring :=
  map N_of_ascii (list_ascii_of_string s).

Definition LF : N := 10.
Definition COLON : N := 58.
Definition COMMA : N := 44.
Definition DASH : N := 45.
Definition SPACE : N := 32.
Definition HASH : N := 35.
Definition DQUOTE : N := 34.
Definition SQUOTE : N := 39.
Definition BACKSLASH : N := 92.

Fixpoint eqb (a b : jsstring) : bool :=
  match a, b with
  | [], [] => true
  | x :: a', y :: b' => N.eqb x y && eqb a' b'
  | _, _ => false
  end.

(** [WhiteSpace] and [LineTerminator] code units: what [trim] strips. *)
Definition is_whitespace (c : N) : bool :=
  (N.leb 9 c && N.leb c 13) || N.eqb c 32 || N.eqb c 160
  || N.eqb c 5760 || (N.leb 8192 c && N.leb c 8202)
  || N.eqb c 8232 || N.eqb c 8233 || N.eqb c 8239 || N.eqb c 8287
  || N.eqb c 12288 || N.eqb c 65279.

Fixpoint dropWhile {A} (f : A -> bool) (l : list A) : list A :=
  match l with
  | [] => []
  | x :: rest => if f x then dropWhile f rest else l
  end.

Definition trimStart (s : jsstring) : jsstring := dropWhile is_whitespace s.

Definition trimEnd (s : jsstring) : jsstring :=
  rev (dropWhile is_whitespace (rev s)).

(** [String.prototype.trim]. *)
Definition trim (s : jsstring) : jsstring := trimEnd (trimStart s).

(** No whitespace at the front, none at the back. *)
Definition no_lead (s : jsstring) : Prop := dropWhile is_whitespace s = s.
Definition no_trail (s : jsstring) : Prop :=
  dropWhile is_whitespace (rev s) = rev s.

(** [s.startsWith(p)]. *)
Fixpoint startsWith (p s : jsstring) : bool :=
  match p, s with
  | [], _ => true
  | x :: p', y :: s' => N.eqb x y && startsWith p' s'
  | _ :: _, [] => false
  end.

(** [s.endsWith(p)]. *)
Definition endsWith (p s : jsstring) : bool := startsWith (rev p) (rev s).

(** The first position at which [p] occurs in [s]. *)
Fixpoint find (p s : jsstring) : option nat :=
  if startsWith p s then Some 0
  else match s with
       | [] => None
       | _ :: rest => option_map S (find p rest)
       end.

(** [s.indexOf(p, from)] for [from >= 0]; [-1] when there is no
    occurrence. *)
Definition indexOf (p s : jsstring) (from : nat) : Z :=
  let from := Nat.min from (List.length s) in
  match find p (skipn from s) with
  | Some i => Z.of_nat (from + i)
  | None => (-1)%Z
  end.

(** [s.includes(p)]. *)
Definition includes (p s : jsstring) : bool :=
  match find p s with Some _ => true | None => false end.

(** A relative index of [slice], clamped into [0 .. len]. *)
Definition clamp (len : nat) (i : Z) : nat :=
  if (i <? 0)%Z then Z.to_nat (Z.max (Z.of_nat len + i) 0)
  else Nat.min (Z.to_nat i) len.

(** [s.slice(start, end)], on strings and arrays. *)
Definition slice {A} (s : list A) (start stop : Z) : list A :=
  let from := clamp (List.length s) start in
  let to := clamp (List.length s) stop in
  firstn (to - from) (skipn from s).

(** [s.slice(start)]. *)
Definition slice_from {A} (s : list A) (start : Z) : list A :=
  skipn (clamp (List.length s) start) s.

(** [s.split(c)] for a separator of one code unit. *)
Fixpoint split (c : N) (s : jsstring) : list jsstring :=
  match s with
  | [] => [[]]
  | x :: rest =>
      if N.eqb x c then [] :: split c rest
      else match split c rest with
           | [] => [[x]]
           | seg :: segs => (x :: seg) :: segs
           end
  end.

(** [a.join(sep)] on an array of strings. *)
Fixpoint join (sep : jsstring) (l : list jsstring) : jsstring :=
  match l with
  | [] => []
  | [x] => x
  | x :: rest => x ++ sep ++ join sep rest
  end.

(** [a.indexOf(x)] on an array of strings; [-1] when absent. *)
Fixpoint array_indexOf (x : jsstring) (a : list jsstring) : Z :=
  match a with
  | [] => (-1)%Z
  | y :: rest =>
      if eqb y x then 0%Z
      else let i := array_indexOf x rest in
           if (i <? 0)%Z then (-1)%Z else (i + 1)%Z
  end.

(** [a[i]], undefined out of range. *)
Definition array_get {A} (a : list A) (i : Z) : option A :=
  if (i <? 0)%Z then None else nth_error a (Z.to_nat i).

(** [s.replace(/"/g, '\\"')]. *)
Definition escape_quotes (s : jsstring) : jsstring :=
  flat_map (fun c => if N.eqb c DQUOTE then [BACKSLASH; DQUOTE] else [c]) s.

(** *** [Number(s)] on strings

    The numeric value is kept as the literal's mathematical value, sign,
    decimal mantissa and power of ten, with trailing zeros of the mantissa
    moved into the exponent; its rounding to a double is not modelled.
    [None] stands for NaN. *)

Inductive Num :=
| Finite (negative : bool) (mantissa : N) (exponent : Z)
| Infinite (negative : bool).

Definition digit_value (base c : N) : option N :=
  let v :=
    if N.leb 48 c && N.leb c 57 then Some (c - 48)%N
    else if N.leb 97 c && N.leb c 102 then Some (c - 87)%N
    else if N.leb 65 c && N.leb c 70 then Some (c - 55)%N
    else None in
  match v with
  | Some d => if N.ltb d base then Some d else None
  | None => None
  end.

(** The longest run of digits at the front of [s]: its value on top of
    [acc], how many digits it has, and what follows it. *)
Fixpoint take_digits (base acc : N) (count : nat) (s : jsstring)
  : N * nat * jsstring :=
  match s with
  | [] => (acc, count, [])
  | c :: rest =>
      match digit_value base c with
      | Some d => take_digits base (acc * base + d)%N (S count) rest
      | None => (acc, count, s)
      end
  end.

Fixpoint strip_zeros (fuel : nat) (m : N) (e : Z) : N * Z :=
  match fuel with
  | O => (m, e)
  | S fuel' =>
      if N.eqb m 0 then (0%N, 0%Z)
      else if N.eqb (m mod 10) 0 then strip_zeros fuel' (m / 10)%N (e + 1)%Z
      else (m, e)
  end.

(** [ExponentPart], optional, up to the end of the string. *)
Definition parse_exponent (s : jsstring) : option Z :=
  match s with
  | [] => Some 0%Z
  | c :: rest =>
      if N.eqb c 101 || N.eqb c 69 then
        let '(neg, digits) :=
          match rest with
          | 43%N :: t => (false, t)
          | 45%N :: t => (true, t)
          | _ => (false, rest)
          end in
        match take_digits 10 0 0 digits with
        | (v, S _, []) =>
            Some (if neg then (- Z.of_N v)%Z else Z.of_N v)
        | _ => None
        end
      else None
  end.

(** [StrUnsignedDecimalLiteral]. *)
Definition parse_unsigned_decimal (neg : bool) (s : jsstring) : option Num :=
  if eqb s (str "Infinity") then Some (Infinite neg) else
  let '(int_value, int_count, after_int) := take_digits 10 0 0 s in
  let finish (m : N) (frac_count : nat) (rest : jsstring) :=
    match parse_exponent rest with
    | Some e =>
        let '(m', e') :=
          strip_zeros (int_count + frac_count + 1) m
            (e - Z.of_nat frac_count)%Z in
        Some (Finite neg m' e')
    | None => None
    end in
  match after_int with
  | 46%N :: after_dot =>
      let '(m, frac_count, rest) := take_digits 10 int_value 0 after_dot in
      match int_count, frac_count with
      | O, O => None
      | _, _ => finish m frac_count rest
      end
  | _ =>
      match int_count with
      | O => None
      | _ => finish int_value 0 after_int
      end
  end.

(** [NonDecimalIntegerLiteral] after its two-character prefix. *)
Definition parse_radix (base : N) (digits : jsstring) : option Num :=
  match take_digits base 0 0 digits with
  | (v, S n, []) =>
      let '(m, e) := strip_zeros (S (S n) * 2) v 0%Z in
      Some (Finite false m e)
  | _ => None
  end.

(** [Number(s)]: [StringToNumber]. *)
Definition Number (s : jsstring) : option Num :=
  match trim s with
  | [] => Some (Finite false 0 0)
  | 48%N :: (120%N | 88%N) :: digits => parse_radix 16 digits
  | 48%N :: (111%N | 79%N) :: digits => parse_radix 8 digits
  | 48%N :: (98%N | 66%N) :: digits => parse_radix 2 digits
  | 43%N :: rest => parse_unsigned_decimal false rest
  | 45%N :: rest => parse_unsigned_decimal true rest
  | text => parse_unsigned_decimal false text
  end.

End Js.

(* ------------------------------------------------------------------------- *)
(** ** Frontmatter utilities ([lib/api.ts]) *)
(* ------------------------------------------------------------------------- *)

Module Frontmatter.
Import Js.

(** How a statement list ends: normally with a value, or by throwing. *)
Inductive Completion (A : Type) :=
| Normal (a : A)
| Throw.
Arguments Normal {A} a.
Arguments Throw {A}.

Section Parser.

(** The number type of the platform, with [Number(s)] on strings ([None] is
    NaN) and the string a number is printed as. *)
Variable JsNumber : Type.
Variable Number : jsstring -> option JsNumber.
Variable Number_toString : JsNumber -> jsstring.

(** The values a metadata record holds: what JSON can hold, and
    [undefined].  A plain object is known by its [JSON.stringify] text. *)
#[local] Set Warnings "-register-all".
Inductive Value :=
| VUndefined
| VNull
| VString (s : jsstring)
| VBoolean (b : bool)
| VNumber (n : JsNumber)
| VArray (items : list Value)
| VObject (json : jsstring).

(** A record, by its own properties in insertion order. *)
Definition Obj : Type := list (jsstring * Value).

Fixpoint obj_update (key : jsstring) (v : Value) (o : Obj) : Obj :=
  match o with
  | [] => [(key, v)]
  | (k, old) :: rest =>
      if eqb k key then (k, v) :: rest
      else (k, old) :: obj_update key v rest
  end.

(** [o[key] = v] on an object created by a literal.  Assigning to
    [__proto__] goes to the setter of [Object.prototype] and creates no
    own property. *)
Definition obj_set (key : jsstring) (v : Value) (o : Obj) : Obj :=
  if eqb key (str "__proto__") then o else obj_update key v o.

Record Parsed := {
  frontmatter : option Obj;
  body : jsstring
}.

(** The variables of the loop of [parseFrontmatter]. *)
Record LoopState := {
  fm : Obj;
  currentKey : jsstring;
  inArray : bool;
  arrayValues : list jsstring
}.

(** The typing of a non-empty value, in the order of the source. *)
Definition type_value (value : jsstring) : Value :=
  (* Handle inline arrays *)
  if includes [COMMA] value && negb (startsWith [DQUOTE] value) then
    VArray (map (fun v => VString (trim v)) (split COMMA value))
  (* Handle quoted strings *)
  else if startsWith [DQUOTE] value && endsWith [DQUOTE] value then
    VString (slice value 1 (-1))
  else if startsWith [SQUOTE] value && endsWith [SQUOTE] value then
    VString (slice value 1 (-1))
  (* Handle booleans *)
  else if eqb value (str "true") then VBoolean true
  else if eqb value (str "false") then VBoolean false
  (* Handle numbers *)
  else match Number value with
       | Some n => VNumber n
       | None => VString value
       end.

(** [lines[lines.indexOf(line) + 1]?.trim().startsWith('- ')]: undefined,
    hence falsy, when there is no such line. *)
Definition next_line_is_item (lines : list jsstring) (line : jsstring)
  : bool :=
  match array_get lines (array_indexOf line lines + 1) with
  | Some next => startsWith (str "- ") (trim next)
  | None => false
  end.

(** The [key: value] part of the loop body. *)
Definition key_value_step (lines : list jsstring) (line trimmedLine : jsstring)
    (st : LoopState) : Completion LoopState :=
  let colonIndex := indexOf [COLON] trimmedLine 0 in
  if (0 <? colonIndex)%Z then
    let key := trim (slice trimmedLine 0 colonIndex) in
    let value := trim (slice_from trimmedLine (colonIndex + 1)) in
    (* Check for array start *)
    if eqb value [] && next_line_is_item lines line then
      Normal {| fm := fm st; currentKey := key; inArray := true;
                arrayValues := arrayValues st |}
    else if eqb value [] then Normal st
    else
      Normal {| fm := obj_set key (type_value value) (fm st);
                currentKey := currentKey st; inArray := inArray st;
                arrayValues := arrayValues st |}
  else Normal st.

(** One turn of [for (const line of lines)]. *)
Definition line_step (lines : list jsstring) (st : LoopState)
    (line : jsstring) : Completion LoopState :=
  let trimmedLine := trim line in
  (* Handle array continuation *)
  if inArray st then
    if startsWith (str "- ") trimmedLine then
      Normal {| fm := fm st; currentKey := currentKey st; inArray := true;
                arrayValues :=
                  arrayValues st ++ [trim (slice_from trimmedLine 2)] |}
    else
      (* End of array *)
      key_value_step lines line trimmedLine
        {| fm := obj_set (currentKey st)
                   (VArray (map VString (arrayValues st))) (fm st);
           currentKey := currentKey st; inArray := false;
           arrayValues := [] |}
  else key_value_step lines line trimmedLine st.

Fixpoint run_lines (lines : list jsstring) (todo : list jsstring)
    (st : LoopState) : Completion LoopState :=
  match todo with
  | [] => Normal st
  | line :: rest =>
      match line_step lines st line with
      | Normal st' => run_lines lines rest st'
      | Throw => Throw
      end
  end.

(** The body of the [try] block. *)
Definition parse_block (yamlStr : jsstring) : Completion Obj :=
  let lines := split LF yamlStr in
  match run_lines lines lines
          {| fm := []; currentKey := []; inArray := false;
             arrayValues := [] |} with
  | Normal st =>
      (* Handle any remaining array *)
      if inArray st && Nat.ltb 0 (List.length (arrayValues st)) then
        Normal (obj_set (currentKey st)
                  (VArray (map VString (arrayValues st))) (fm st))
      else Normal (fm st)
  | Throw => Throw
  end.

(** [parseFrontmatter]. *)
Definition parseFrontmatter (content : jsstring) : Parsed :=
  if negb (startsWith (str "---") content) then
    {| frontmatter := None; body := content |}
  else
    let endIndex := indexOf (str "---") content 3 in
    if (endIndex =? -1)%Z then
      {| frontmatter := None; body := content |}
    else
      let yamlStr := trim (slice content 3 endIndex) in
      let body := trim (slice_from content (endIndex + 3)) in
      match parse_block yamlStr with
      | Normal frontmatter =>
          {| frontmatter := Some frontmatter; body := body |}
      | Throw => {| frontmatter := None; body := content |}
      end.

(** What a template literal makes of a value. *)
Fixpoint ToString (v : Value) : jsstring :=
  match v with
  | VUndefined => str "undefined"
  | VNull => str "null"
  | VString s => s
  | VBoolean true => str "true"
  | VBoolean false => str "false"
  | VNumber n => Number_toString n
  | VArray items =>
      join [COMMA]
        (map (fun x => match x with
                       | VUndefined | VNull => []
                       | _ => ToString x
                       end) items)
  | VObject _ => str "[object Object]"
  end.

Definition is_short_string (v : Value) : bool :=
  match v with
  | VString s => Nat.ltb (List.length s) 20
  | _ => false
  end.

(** The lines [generateFrontmatter] pushes for one entry. *)
Definition entry_lines (entry : jsstring * Value) : list jsstring :=
  let (key, value) := entry in
  match value with
  | VUndefined | VNull => []
  | VString v =>
      (* Quote strings that contain special characters *)
      if includes [COLON] v || includes [HASH] v || includes [LF] v then
        [key ++ str ": " ++ [DQUOTE] ++ escape_quotes v ++ [DQUOTE]]
      else [key ++ str ": " ++ v]
  | VArray items =>
      if Nat.eqb (List.length items) 0 then []
      (* Use inline format for short arrays *)
      else if forallb is_short_string items
              && Nat.leb (List.length items) 5 then
        [key ++ str ": " ++ join (str ", ") (map ToString items)]
      else
        (key ++ [COLON])
        :: map (fun item => str "  - " ++ ToString item) items
  | VBoolean _ | VNumber _ => [key ++ str ": " ++ ToString value]
  | VObject json => [key ++ str ": " ++ json]
  end.

(** [generateFrontmatter], on the record's entries in the order of
    [Object.entries]. *)
Definition generateFrontmatter (data : Obj) : jsstring :=
  join [LF] ([str "---"] ++ flat_map entry_lines data ++ [str "---"]).

(** [createMarkdownContent]. *)
Definition createMarkdownContent (frontmatter : Obj) (body : jsstring)
  : jsstring :=
  generateFrontmatter frontmatter ++ [LF; LF] ++ body.

End Parser.

Arguments VUndefined {JsNumber}.
Arguments VNull {JsNumber}.
Arguments VString {JsNumber} s.
Arguments VBoolean {JsNumber} b.
Arguments VNumber {JsNumber} n.
Arguments VArray {JsNumber} items.
Arguments VObject {JsNumber} json.
Arguments frontmatter {JsNumber} p.
Arguments body {JsNumber} p.
Arguments Build_Parsed {JsNumber} frontmatter body.
Arguments fm {JsNumber} l.
Arguments currentKey {JsNumber} l.
Arguments inArray {JsNumber} l.
Arguments arrayValues {JsNumber} l.
Arguments Build_LoopState {JsNumber} fm currentKey inArray arrayValues.
Arguments type_value {JsNumber} Number value.
Arguments key_value_step {JsNumber} Number lines line trimmedLine st.
Arguments line_step {JsNumber} Number lines st line.
Arguments run_lines {JsNumber} Number lines todo st.
Arguments parse_block {JsNumber} Number yamlStr.
Arguments parseFrontmatter {JsNumber} Number content.
Arguments ToString {JsNumber} Number_toString v.
Arguments entry_lines {JsNumber} Number_toString entry.
Arguments generateFrontmatter {JsNumber} Number_toString data.
Arguments createMarkdownContent {JsNumber} Number_toString frontmatter body.
Arguments obj_set {JsNumber} key v o.
Arguments obj_update {JsNumber} key v o.
Arguments is_short_string {JsNumber} v.

(** A document, line by line. *)
Definition document (lines : list string) : jsstring :=
  join [LF] (map str lines).

(** A flat record of strings. *)
Definition record_of {JsNumber} (data : list (jsstring * jsstring))
  : Obj JsNumber :=
  map (fun kv => (fst kv, VString (snd kv))) data.

Definition has_none_of (forbidden : list N) (s : jsstring) : bool :=
  forallb (fun c => negb (existsb (N.eqb c) forbidden)) s.

(** A value as the round-trip property is claimed for: a non-empty string
    with no comma, colon, quote, hash or newline, not [true] or [false],
    not numeric. *)
Definition plain_value {JsNumber} (Number : jsstring -> option JsNumber)
    (v : jsstring) : bool :=
  negb (eqb v [])
  && has_none_of [COMMA; COLON; DQUOTE; SQUOTE; HASH; LF] v
  && negb (eqb v (str "true")) && negb (eqb v (str "false"))
  && match Number v with None => true | Some _ => false end.

(** A body as the round-trip property is claimed for: trimmed, without the
    delimiter. *)
Definition plain_body (b : jsstring) : bool :=
  eqb (trim b) b && negb (includes (str "---") b).

(** What the round trip needs of a value on top of that: no whitespace
    around it and no delimiter in it. *)
Definition round_trip_value {JsNumber}
    (Number : jsstring -> option JsNumber) (v : jsstring) : bool :=
  plain_value Number v && eqb (trim v) v && negb (includes (str "---") v).

(** What the round trip needs of a key: not empty, no whitespace around it,
    no colon, newline or delimiter in it, and not [__proto__]. *)
Definition round_trip_key (k : jsstring) : bool :=
  negb (eqb k []) && eqb (trim k) k && has_none_of [COLON; LF] k
  && negb (includes (str "---") k) && negb (eqb k (str "__proto__")).

Definition round_trip_entry {JsNumber}
    (Number : jsstring -> option JsNumber) (kv : jsstring * jsstring)
  : bool :=
  round_trip_key (fst kv) && round_trip_value Number (snd kv).

(** The side conditions of the round trip, spelled out. *)
Record value_facts {JsNumber} (Number : jsstring -> option JsNumber)
    (v : jsstring) : Prop := {
  v_nonempty : v <> [];
  v_no_lead : no_lead v;
  v_no_trail : no_trail v;
  v_chars : forall c, In c [COMMA; COLON; DQUOTE; SQUOTE; HASH; LF] ->
                      ~ In c v;
  v_not_true : eqb v (str "true") = false;
  v_not_false : eqb v (str "false") = false;
  v_not_numeric : Number v = None;
  v_no_delimiter : find (str "---") v = None
}.

Record key_facts (k : jsstring) : Prop := {
  k_nonempty : k <> [];
  k_no_lead : no_lead k;
  k_no_trail : no_trail k;
  k_no_colon : ~ In COLON k;
  k_no_newline : ~ In LF k;
  k_no_delimiter : find (str "---") k = None;
  k_not_proto : eqb k (str "__proto__") = false
}.

(** The line written for a plain entry. *)
Definition line_of (kv : jsstring * jsstring) : jsstring :=
  fst kv ++ COLON :: SPACE :: snd kv.

(** The loop state with another record. *)
Definition with_fm {JsNumber} (o : Obj JsNumber) (st : LoopState JsNumber)
  : LoopState JsNumber :=
  {| fm := o; currentKey := currentKey st; inArray := inArray st;
     arrayValues := arrayValues st |}.

(** Lines, each ended by a newline. *)
Definition ended (ls : list jsstring) : jsstring :=
  List.concat (map (fun l => l ++ [LF]) ls).

(** Writing one entry with the body [Body] and reading it back gives the
    entry and the body. *)
Definition round_trips (k v : string) : Prop :=
  let data := [(str k, str v)] in
  parseFrontmatter Js.Number
    (createMarkdownContent (fun _ : Js.Num => [])
       (record_of data) (str "Body"))
  = {| frontmatter := Some (record_of data);
       body := str "Body" |}.

End Frontmatter.

(* ------------------------------------------------------------------------- *)
(** ** What [generateFrontmatter] writes and [parseFrontmatter] reads back *)
(* ------------------------------------------------------------------------- *)

Module Written.
Import Js Frontmatter.

(** The values of a record that the round trip is about. *)
Inductive Written :=
| W_string (s : jsstring)
| W_boolean (b : bool)
| W_list (items : list jsstring).

Definition value_of {JsNumber} (w : Written) : Value JsNumber :=
  match w with
  | W_string s => VString s
  | W_boolean b => VBoolean b
  | W_list items => VArray (map VString items)
  end.

Definition record_of {JsNumber} (data : list (jsstring * Written))
  : Obj JsNumber :=
  map (fun kw => (fst kw, value_of (snd kw))) data.

(** The test of [generateFrontmatter] for quoting a string. *)
Definition needs_quotes (s : jsstring) : bool :=
  includes [COLON] s || includes [HASH] s || includes [LF] s.

(** The test of [generateFrontmatter] for the inline format of a list of
    strings. *)
Definition inline (items : list jsstring) : bool :=
  forallb (fun s => Nat.ltb (List.length s) 20) items
  && Nat.leb (List.length items) 5.

(** An item of a list: not empty, no whitespace around it, no newline and
    no delimiter in it. *)
Definition item_ok (s : jsstring) : bool :=
  negb (eqb s []) && eqb (trim s) s && has_none_of [LF] s
  && negb (includes (str "---") s).

(** A string that is written in quotes comes back if it has no double quote,
    no newline and no delimiter in it; one that is written bare, if it is a
    plain value with no whitespace around it and no delimiter in it. *)
Definition string_ok {JsNumber} (Number : jsstring -> option JsNumber)
    (s : jsstring) : bool :=
  if needs_quotes s
  then has_none_of [DQUOTE; LF] s && negb (includes (str "---") s)
  else round_trip_value Number s.

(** A list that is written inline comes back if it has at least two items,
    none with a comma, the first not starting with a double quote; one that
    is written as a block, as it is. *)
Definition list_ok (items : list jsstring) : bool :=
  forallb item_ok items
  && if inline items
     then Nat.leb 2 (List.length items)
          && forallb (has_none_of [COMMA]) items
          && negb (startsWith [DQUOTE] (hd [] items))
     else true.

Definition written_ok {JsNumber} (Number : jsstring -> option JsNumber)
    (w : Written) : bool :=
  match w with
  | W_string s => string_ok Number s
  | W_boolean _ => true
  | W_list items => list_ok items
  end.

(** A key as for the round trip of plain strings, and moreover not starting
    like a list item. *)
Definition key_ok (k : jsstring) : bool :=
  round_trip_key k && negb (startsWith (str "- ") k).

Definition entry_ok {JsNumber} (Number : jsstring -> option JsNumber)
    (kw : jsstring * Written) : bool :=
  key_ok (fst kw) && written_ok Number (snd kw).

(** The loop state once a pending list is stored. *)
Definition flush {JsNumber} (st : LoopState JsNumber) : LoopState JsNumber :=
  if inArray st then
    {| fm := obj_set (currentKey st)
               (VArray (map VString (arrayValues st))) (fm st);
       currentKey := currentKey st; inArray := false; arrayValues := [] |}
  else st.

(** The loop state stands for the record [r]: it holds [r], or it holds
    [r] but for a pending, non-empty list. *)
Definition stands_for {JsNumber} (r : Obj JsNumber) (st : LoopState JsNumber)
  : Prop :=
  fm (flush st) = r
  /\ (if inArray st then arrayValues st <> [] else arrayValues st = []).

(** The header line of a block list. *)
Definition header (k : jsstring) : jsstring := k ++ [COLON].

(** The line of a block list item. *)
Definition item_line (item : jsstring) : jsstring := str "  - " ++ item.

(** A key as [parseFrontmatter] stores it. *)
Definition stored_key (k : jsstring) : Prop :=
  k <> [] /\ trim k = k /\ ~ In COLON k /\ ~ In LF k
  /\ k <> str "__proto__".

(** A key as the loop cuts it out of a line. *)
Definition shaped (k : jsstring) : Prop :=
  k <> [] /\ trim k = k /\ ~ In COLON k /\ ~ In LF k.

(** A value as [parseFrontmatter] stores it: a string, a boolean, a number
    or a list of strings. *)
Definition stored_value {JsNumber} (v : Value JsNumber) : Prop :=
  match v with
  | VString _ | VBoolean _ | VNumber _ => True
  | VArray items =>
      Forall (fun i => match i with VString _ => True | _ => False end) items
  | _ => False
  end.

(** A record as [parseFrontmatter] returns it. *)
Definition stored_record {JsNumber} (r : Obj JsNumber) : Prop :=
  NoDup (map fst r)
  /\ Forall (fun kv => stored_key (fst kv) /\ stored_value (snd kv)) r.

(** What the loop keeps: the record is well formed, and so is the key of a
    list being read. *)
Definition loop_ok {JsNumber} (st : LoopState JsNumber) : Prop :=
  stored_record (fm st) /\ (inArray st = true -> shaped (currentKey st)).

(** The text written after the colon for a value that takes one line. *)
Definition text_of (w : Written) : jsstring :=
  match w with
  | W_string s => if needs_quotes s then DQUOTE :: s ++ [DQUOTE] else s
  | W_boolean true => str "true"
  | W_boolean false => str "false"
  | W_list items => join (str ", ") items
  end.

(** The lines written for an entry. *)
Definition lines_of (kw : jsstring * Written) : list jsstring :=
  let (k, w) := kw in
  match w with
  | W_list items =>
      if inline items then [k ++ COLON :: SPACE :: text_of w]
      else header k :: map item_line items
  | _ => [k ++ COLON :: SPACE :: text_of w]
  end.

(** What makes a line harmless inside a block. *)
Definition line_ok (l : jsstring) : Prop :=
  l <> [] /\ no_trail l /\ ~ In LF l /\ find (str "---") l = None.

(** What makes the text after the colon come back as it is. *)
Definition text_ok (t : jsstring) : Prop :=
  line_ok t /\ no_lead t.

(** An entry that [generateFrontmatter] writes nothing for. *)
Definition dropped {JsNumber} (kv : jsstring * Value JsNumber) : bool :=
  match snd kv with
  | VUndefined | VNull | VArray [] => true
  | _ => false
  end.


End Written.

(* ------------------------------------------------------------------------- *)
(** ** Searching the command palette ([store/appStore.ts],
       [components/GlobalSearch.tsx]) *)
(* ------------------------------------------------------------------------- *)

Module Search.
Import Js.

Definition UNDERSCORE : N := 95.
Definition SLASH : N := 47.

(** What [fuzzyMatch] and [matchesSearch] return. *)
Record Scored := {
  matches : bool;
  score : Z
}.

(** The class [[-_\s/]] of the word separator. *)
Definition is_separator (c : N) : bool :=
  N.eqb c DASH || N.eqb c UNDERSCORE || is_whitespace c || N.eqb c SLASH.

(** [s.split(/[-_\s/]+/)]: the pieces between the maximal runs of
    separators, with an empty piece before a leading run and after a
    trailing one.  [word] is the piece being read and [in_run] tells that
    the last unit read was a separator. *)
Fixpoint split_runs (in_run : bool) (word s : jsstring) : list jsstring :=
  match s with
  | [] => [word]
  | c :: rest =>
      if is_separator c
      then if in_run then split_runs true [] rest
           else word :: split_runs true [] rest
      else split_runs false (word ++ [c]) rest
  end.

Definition split_words (s : jsstring) : list jsstring := split_runs false [] s.

(** The loop of the character matching, from [textIndex] on: [rest] is
    [textLower] from [textIndex].  It stops at the end of the text or when
    [queryLower[queryIndex]] is past the end of the query.  Returns
    [(queryIndex, matchCount)]. *)
Fixpoint scan (queryLower rest : jsstring) (queryIndex matchCount : nat)
  : nat * nat :=
  match rest with
  | [] => (queryIndex, matchCount)
  | c :: rest' =>
      match nth_error queryLower queryIndex with
      | None => (queryIndex, matchCount)
      | Some q =>
          if N.eqb c q
          then scan queryLower rest' (S queryIndex) (S matchCount)
          else scan queryLower rest' queryIndex matchCount
      end
  end.

(** [queryLower] can be read in [textLower] from left to right, possibly
    with gaps. *)
Inductive subsequence : jsstring -> jsstring -> Prop :=
| subsequence_nil (t : jsstring) : subsequence [] t
| subsequence_take (c : N) (q t : jsstring) :
    subsequence q t -> subsequence (c :: q) (c :: t)
| subsequence_skip (c : N) (q t : jsstring) :
    subsequence q t -> subsequence q (c :: t).

(** [CommandPaletteItem], the fields the search reads and the id. *)
Record CommandPaletteItem := {
  id : jsstring;
  name : jsstring;
  description : option jsstring;
  path : jsstring
}.

(** A string in a condition: the empty string is falsy. *)
Definition truthy (s : jsstring) : bool :=
  match s with [] => false | _ => true end.

Section Fuzzy.

(** [String.prototype.toLowerCase]. *)
Variable toLowerCase : jsstring -> jsstring.

(** [fuzzyMatch] of [buildSections]. *)
Definition fuzzyMatch (text query : jsstring) : Scored :=
  if negb (truthy query) then {| matches := true; score := 0 |} else
  let textLower := toLowerCase text in
  let queryLower := toLowerCase query in
  if eqb textLower queryLower then {| matches := true; score := 100 |} else
  if startsWith queryLower textLower then {| matches := true; score := 90 |}
  else
  if includes queryLower textLower then {| matches := true; score := 70 |}
  else
  let words := split_words textLower in
  if existsb (startsWith queryLower) words
  then {| matches := true; score := 60 |} else
  let '(queryIndex, matchCount) := scan queryLower textLower 0 0 in
  if Nat.eqb queryIndex (List.length queryLower)
  then {| matches := true;
          score := Z.max 20 (50 - (Z.of_nat (List.length textLower)
                                   - Z.of_nat matchCount)) |}
  else {| matches := false; score := 0 |}.

(** [matchesSearch] of [buildSections], for the store's [searchQuery]. *)
Definition matchesSearch (searchQuery : jsstring) (item : CommandPaletteItem)
  : Scored :=
  if negb (truthy (trim searchQuery)) then {| matches := true; score := 0 |}
  else
  let query := trim searchQuery in
  let nameMatch := fuzzyMatch (name item) query in
  if matches nameMatch
  then {| matches := true; score := score nameMatch |} else
  let by_path :=
    let pathMatch := fuzzyMatch (path item) query in
    if matches pathMatch
    then {| matches := true; score := score pathMatch - 20 |}
    else {| matches := false; score := 0 |} in
  match description item with
  | Some d =>
      if truthy d then
        let descMatch := fuzzyMatch d query in
        if matches descMatch
        then {| matches := true; score := score descMatch - 10 |}
        else by_path
      else by_path
  | None => by_path
  end.

(** The texts [matchesSearch] looks at: the name, the description when
    there is one, the path. *)
Definition searched (item : CommandPaletteItem) : list jsstring :=
  name item
  :: match description item with
     | Some d => if truthy d then [d] else []
     | None => []
     end
  ++ [path item].

End Fuzzy.
End Search.

(* ------------------------------------------------------------------------- *)
(** ** Keyboard navigation ([hooks/useKeyboardNavigation.ts]) *)
(* ------------------------------------------------------------------------- *)

Module Keyboard.

(** What the key handler does to the outside, in order. *)
Inductive Effect :=
| preventDefault
| onSelectedIndexChange (index : Z)
| onSelect (index : Z)
| onEscape.

(** [handleKeyDown] of [useKeyboardNavigation] on a key event with key
    [key]; [has_onEscape] tells whether the optional callback was given. *)
Definition handleKeyDown (isEnabled : bool) (itemCount selectedIndex : Z)
    (has_onEscape : bool) (key : string) : list Effect :=
  if negb isEnabled then [] else
  if String.eqb key "ArrowDown" || String.eqb key "j" then
    [ preventDefault;
      onSelectedIndexChange
        (if (selectedIndex <? itemCount - 1)%Z then (selectedIndex + 1)%Z
         else 0%Z) ]
  else if String.eqb key "ArrowUp" || String.eqb key "k" then
    [ preventDefault;
      onSelectedIndexChange
        (if (selectedIndex >? 0)%Z then (selectedIndex - 1)%Z
         else (itemCount - 1)%Z) ]
  else if String.eqb key "Enter" then
    preventDefault
    :: (if (selectedIndex >=? 0)%Z && (selectedIndex <? itemCount)%Z
        then [onSelect selectedIndex] else [])
  else if String.eqb key "Escape" then
    preventDefault :: (if has_onEscape then [onEscape] else [])
  else [].

(** The caller keeps the index in a state cell and passes its setter as
    [onSelectedIndexChange]: the index after the effects. *)
Definition index_after (effects : list Effect) (selectedIndex : Z) : Z :=
  fold_left (fun i e => match e with
                        | onSelectedIndexChange j => j
                        | _ => i
                        end) effects selectedIndex.

(** One key press on a list of [itemCount] items, with the handler of the
    current render. *)
Definition press (itemCount : Z) (key : string) (selectedIndex : Z) : Z :=
  index_after (handleKeyDown true itemCount selectedIndex false key)
    selectedIndex.

Definition moves_down (key : string) : bool :=
  String.eqb key "ArrowDown" || String.eqb key "j".

Definition moves_up (key : string) : bool :=
  String.eqb key "ArrowUp" || String.eqb key "k".

End Keyboard.

(* ------------------------------------------------------------------------- *)
(** ** Health issues ([hooks/useHealthIssues.ts]) *)
(* ------------------------------------------------------------------------- *)

Module Health.

Inductive HealthIssueSeverity := sev_error | sev_warning | sev_info.

(** [HealthIssue], without its display texts (title, description,
    suggestion), which nothing reads back. *)
Record HealthIssue := {
  issue_id : string;
  severity : HealthIssueSeverity;
  category : string;
  issue_path : option string;
  entityType : option string;
  entityId : option string
}.

(** The fields of the store's entities that the health check reads. *)
Record SymlinkInfo := {
  sl_path : string;
  sl_target : string;
  target_exists : bool;
  sl_entity_type : option string;
  sl_entity_id : option string
}.

(** [dup_entities] is the number of entities of the group, which only the
    description text of the issue shows. *)
Record DuplicateGroup := {
  dup_name : string;
  dup_entity_type : string;
  dup_entities : nat
}.

Record FrontmatterFields := {
  description : option string;
  permissionMode : option string
}.

(** An agent, a skill or a command. *)
Record Described := {
  d_id : string;
  d_name : string;
  d_path : string;
  frontmatter : option FrontmatterFields
}.

Record Settings := {
  s_id : string;
  s_path : string;
  s_content : option Js.jsstring
}.

Record Inputs := {
  duplicates : list DuplicateGroup;
  symlinks : list SymlinkInfo;
  agents : list Described;
  skills : list Described;
  commands : list Described;
  settings : list Settings
}.

Record HealthSummary := {
  issues : list HealthIssue;
  errorCount : nat;
  warningCount : nat;
  infoCount : nat;
  totalCount : nat;
  isHealthy : bool
}.

(** [!e.frontmatter?.description]: no frontmatter, no description or an
    empty one. *)
Definition no_description (e : Described) : bool :=
  match frontmatter e with
  | Some fm => match description fm with
               | Some d => String.eqb d ""
               | None => true
               end
  | None => true
  end.

(** [agent.frontmatter?.permissionMode === 'bypassPermissions']. *)
Definition bypasses (e : Described) : bool :=
  match frontmatter e with
  | Some fm => match permissionMode fm with
               | Some m => String.eqb m "bypassPermissions"
               | None => false
               end
  | None => false
  end.

(** [!setting.content || setting.content.trim().length < 10]. *)
Definition nearly_empty (s : Settings) : bool :=
  match s_content s with
  | None => true
  | Some c =>
      match c with
      | [] => true
      | _ => List.length (Js.trim c) <? 10
      end
  end.

(** [x || undefined] on a string or null. *)
Definition or_undefined (x : option string) : option string :=
  match x with
  | Some s => if String.eqb s "" then None else Some s
  | None => None
  end.

Definition broken_symlink (symlink : SymlinkInfo) : list HealthIssue :=
  if negb (target_exists symlink) then
    [ {| issue_id := "broken-symlink-" ++ sl_path symlink;
         severity := sev_error; category := "Broken Symlinks";
         issue_path := Some (sl_path symlink);
         entityType := sl_entity_type symlink;
         entityId := or_undefined (sl_entity_id symlink) |} ]
  else [].

Definition duplicate (dup : DuplicateGroup) : list HealthIssue :=
  [ {| issue_id := "duplicate-" ++ dup_entity_type dup ++ "-" ++ dup_name dup;
       severity := sev_warning; category := "Duplicates";
       issue_path := None;
       entityType := Some (dup_entity_type dup);
       entityId := None |} ].

Definition no_desc (prefix kind : string) (e : Described)
  : list HealthIssue :=
  if no_description e then
    [ {| issue_id := prefix ++ d_id e;
         severity := sev_info; category := "Best Practices";
         issue_path := Some (d_path e);
         entityType := Some kind;
         entityId := Some (d_id e) |} ]
  else [].

Definition agent_issues (agent : Described) : list HealthIssue :=
  no_desc "agent-no-desc-" "agent" agent
  ++ (if bypasses agent then
        [ {| issue_id := "agent-bypass-" ++ d_id agent;
             severity := sev_warning; category := "Security";
             issue_path := Some (d_path agent);
             entityType := Some "agent"%string;
             entityId := Some (d_id agent) |} ]
      else []).

Definition empty_settings (setting : Settings) : list HealthIssue :=
  if nearly_empty setting then
    [ {| issue_id := "empty-settings-" ++ s_id setting;
         severity := sev_info; category := "Empty Files";
         issue_path := Some (s_path setting);
         entityType := Some "settings"%string;
         entityId := Some (s_id setting) |} ]
  else [].

(** The list of issues, in the order the checks push them. *)
Definition find_issues (i : Inputs) : list HealthIssue :=
  flat_map broken_symlink (symlinks i)
  ++ flat_map duplicate (duplicates i)
  ++ flat_map agent_issues (agents i)
  ++ flat_map (no_desc "skill-no-desc-" "skill") (skills i)
  ++ flat_map (no_desc "cmd-no-desc-" "command") (commands i)
  ++ flat_map empty_settings (settings i).

Definition severity_eqb (a b : HealthIssueSeverity) : bool :=
  match a, b with
  | sev_error, sev_error | sev_warning, sev_warning | sev_info, sev_info =>
      true
  | _, _ => false
  end.

Definition count (sev : HealthIssueSeverity) (l : list HealthIssue) : nat :=
  List.length (filter (fun i => severity_eqb (severity i) sev) l).

(** [useHealthIssues], for the store's collections [i]. *)
Definition useHealthIssues (i : Inputs) : HealthSummary :=
  let issues := find_issues i in
  let errorCount := count sev_error issues in
  let warningCount := count sev_warning issues in
  let infoCount := count sev_info issues in
  {| issues := issues;
     errorCount := errorCount;
     warningCount := warningCount;
     infoCount := infoCount;
     totalCount := List.length issues;
     isHealthy := Nat.eqb errorCount 0 && Nat.eqb warningCount 0 |}.

(** How many elements of [l] satisfy [f]. *)
Definition how_many {A} (f : A -> bool) (l : list A) : nat :=
  List.length (filter f l).

End Health.

(* ------------------------------------------------------------------------- *)
(** ** The entities of the store ([lib/types.ts]) *)
(* ------------------------------------------------------------------------- *)

Module Entities.

(** [BaseEntityFields]. *)
Record BaseEntityFields := {
  id : string;
  name : string;
  path : string;
  scope : string;
  project_path : option string;
  is_symlink : bool;
  symlink_target : option string;
  content : option string;
  last_modified : Z;
  tool : AppStore.ToolType
}.

(** The six entities with base fields.  The base fields are flattened into
    each of them in the source; the parsed settings, the frontmatter
    objects and the plugin manifest are nested JSON that no store action
    reads and are left out. *)
Record SettingsEntity := {
  settings_base : BaseEntityFields;
  settings_variant : string
}.

Record MemoryEntity := {
  memory_base : BaseEntityFields;
  memory_variant : string
}.

Record AgentEntity := {
  agent_base : BaseEntityFields
}.

Record SkillEntity := {
  skill_base : BaseEntityFields;
  skill_dir : string;
  supporting_files : list string
}.

Record CommandEntity := {
  command_base : BaseEntityFields;
  namespace : option string
}.

Record PluginEntity := {
  plugin_base : BaseEntityFields;
  plugin_dir : string;
  has_commands : bool;
  has_agents : bool;
  has_skills : bool;
  has_hooks : bool;
  has_mcp : bool;
  has_lsp : bool
}.

(** [HookEntity] and [McpServerEntity] have no base fields. *)
Record HookEntity := {
  hook_id : string;
  event : string;
  matcher : option string;
  hook_commands : list string;
  source : string;
  hook_source_path : string;
  hook_tool : AppStore.ToolType
}.

Record McpServerEntity := {
  mcp_id : string;
  mcp_name : string;
  mcp_scope : string;
  transport : string;
  mcp_source_path : string;
  is_from_plugin : bool;
  plugin_name : option string;
  mcp_tool : AppStore.ToolType
}.

(** [DisplayableEntity], the union of the eight. *)
Inductive DisplayableEntity :=
| a_settings (e : SettingsEntity)
| a_memory (e : MemoryEntity)
| an_agent (e : AgentEntity)
| a_skill (e : SkillEntity)
| a_command (e : CommandEntity)
| a_plugin (e : PluginEntity)
| a_hook (e : HookEntity)
| an_mcp (e : McpServerEntity).

(** [entity.id]. *)
Definition entity_id (entity : DisplayableEntity) : string :=
  match entity with
  | a_settings e => id (settings_base e)
  | a_memory e => id (memory_base e)
  | an_agent e => id (agent_base e)
  | a_skill e => id (skill_base e)
  | a_command e => id (command_base e)
  | a_plugin e => id (plugin_base e)
  | a_hook e => hook_id e
  | an_mcp e => mcp_id e
  end.

(** [{ ...base, content }]. *)
Definition base_with_content (b : BaseEntityFields) (c : string)
  : BaseEntityFields :=
  {| id := id b; name := name b; path := path b; scope := scope b;
     project_path := project_path b; is_symlink := is_symlink b;
     symlink_target := symlink_target b; content := Some c;
     last_modified := last_modified b; tool := tool b |}.

Inductive ToastType := toast_success | toast_error | toast_info
| toast_warning.

(** [Toast] and [Omit<Toast, 'id'>]. *)
Record ToastInput := {
  toast_type : ToastType;
  title : string;
  message : option string;
  duration : option Z
}.

Record Toast := {
  toast_id : string;
  toast_input : ToastInput
}.

Record ProjectInfo := {
  project_info_path : string;
  project_info_name : string
}.

Record SymlinkInfo := {
  symlink_path : string;
  symlink_to : string;
  target_exists : bool;
  symlink_entity_type : option string;
  symlink_entity_id : option string
}.

Record CommandPaletteItem := {
  item_id : string;
  item_name : string;
  item_entityType : Duplicates.EntityType;
  item_path : string
}.

Record CommandPaletteSection := {
  section_id : string;
  section_title : string;
  section_entityType : Duplicates.EntityType;
  items : list CommandPaletteItem
}.

(** [DiscoveryResult]; the collections carry the prefix [r_]. *)
Record DiscoveryResult := {
  global_config_path : string;
  r_projects : list ProjectInfo;
  r_settings : list SettingsEntity;
  r_memory : list MemoryEntity;
  r_agents : list AgentEntity;
  r_skills : list SkillEntity;
  r_commands : list CommandEntity;
  r_hooks : list HookEntity;
  r_plugins : list PluginEntity;
  r_mcp_servers : list McpServerEntity;
  r_duplicates : list Duplicates.DuplicateGroup;
  r_symlinks : list SymlinkInfo;
  discovered_at : Z
}.

(** The store over these entities. *)
Definition payloads : AppStore.Payloads :=
  AppStore.Build_Payloads ProjectInfo SettingsEntity MemoryEntity AgentEntity
    SkillEntity CommandEntity HookEntity PluginEntity McpServerEntity
    Duplicates.DuplicateGroup SymlinkInfo DisplayableEntity Toast
    CommandPaletteSection.

End Entities.

(* ------------------------------------------------------------------------- *)
(** ** More actions of the store ([store/appStore.ts]) *)
(* ------------------------------------------------------------------------- *)

Module Store.
Import AppStore Entities.

#[local] Existing Instance payloads.

Definition AppState : Type := @AppStore.AppState payloads.
Definition World : Type := @AppStore.World payloads.

(** One entry of the partial object handed to zustand's [set]: the entries
    of [AppStore.Field] and those of the other fields the actions below
    write. *)
Inductive Field :=
| base (f : AppStore.Field)
| f_isLoading (b : bool)
| f_lastDiscovery (t : option Z)
| f_error (e : option string)
| f_globalConfigPath (p : string)
| f_homeDirectory (p : string)
| f_projects (l : list ProjectInfo)
| f_settings (l : list SettingsEntity)
| f_memory (l : list MemoryEntity)
| f_agents (l : list AgentEntity)
| f_skills (l : list SkillEntity)
| f_commands (l : list CommandEntity)
| f_hooks (l : list HookEntity)
| f_plugins (l : list PluginEntity)
| f_mcpServers (l : list McpServerEntity)
| f_duplicates (l : list Duplicates.DuplicateGroup)
| f_symlinks (l : list SymlinkInfo)
| f_filterTool (t : ToolFilter)
| f_theme (t : Theme)
| f_isGlobalSearchOpen (b : bool)
| f_globalSearchQuery (q : string)
| f_toasts (l : list Toast)
| f_hasInitiallyAnimated (b : bool)
| f_previousItemIds (ids : list string).

Definition assign (f : Field) (s : AppState) : AppState :=
  match f with
  | base f => AppStore.assign f s
  | f_isLoading b =>
      Build_AppState b (lastDiscovery s) (error s) (globalConfigPath s)
        (homeDirectory s) (projects s) (settings s) (memory s) (agents s)
        (skills s) (commands s) (hooks s) (plugins s) (mcpServers s)
        (duplicates s) (symlinks s) (activeView s) (selectedEntity s)
        (searchQuery s) (filterScope s) (filterProject s) (filterTool s)
        (isPanelOpen s) (theme s) (isGlobalSearchOpen s)
        (globalSearchQuery s) (recentEntityIds s) (toasts s)
        (hasInitiallyAnimated s) (previousItemIds s) (_cachedSections s)
  | f_lastDiscovery t =>
      Build_AppState (isLoading s) t (error s) (globalConfigPath s)
        (homeDirectory s) (projects s) (settings s) (memory s) (agents s)
        (skills s) (commands s) (hooks s) (plugins s) (mcpServers s)
        (duplicates s) (symlinks s) (activeView s) (selectedEntity s)
        (searchQuery s) (filterScope s) (filterProject s) (filterTool s)
        (isPanelOpen s) (theme s) (isGlobalSearchOpen s)
        (globalSearchQuery s) (recentEntityIds s) (toasts s)
        (hasInitiallyAnimated s) (previousItemIds s) (_cachedSections s)
  | f_error e =>
      Build_AppState (isLoading s) (lastDiscovery s) e (globalConfigPath s)
        (homeDirectory s) (projects s) (settings s) (memory s) (agents s)
        (skills s) (commands s) (hooks s) (plugins s) (mcpServers s)
        (duplicates s) (symlinks s) (activeView s) (selectedEntity s)
        (searchQuery s) (filterScope s) (filterProject s) (filterTool s)
        (isPanelOpen s) (theme s) (isGlobalSearchOpen s)
        (globalSearchQuery s) (recentEntityIds s) (toasts s)
        (hasInitiallyAnimated s) (previousItemIds s) (_cachedSections s)
  | f_globalConfigPath p =>
      Build_AppState (isLoading s) (lastDiscovery s) (error s) p
        (homeDirectory s) (projects s) (settings s) (memory s) (agents s)
        (skills s) (commands s) (hooks s) (plugins s) (mcpServers s)
        (duplicates s) (symlinks s) (activeView s) (selectedEntity s)
        (searchQuery s) (filterScope s) (filterProject s) (filterTool s)
        (isPanelOpen s) (theme s) (isGlobalSearchOpen s)
        (globalSearchQuery s) (recentEntityIds s) (toasts s)
        (hasInitiallyAnimated s) (previousItemIds s) (_cachedSections s)
  | f_homeDirectory p =>
      Build_AppState (isLoading s) (lastDiscovery s) (error s)
        (globalConfigPath s) p (projects s) (settings s) (memory s)
        (agents s) (skills s) (commands s) (hooks s) (plugins s)
        (mcpServers s) (duplicates s) (symlinks s) (activeView s)
        (selectedEntity s) (searchQuery s) (filterScope s)
        (filterProject s) (filterTool s) (isPanelOpen s) (theme s)
        (isGlobalSearchOpen s) (globalSearchQuery s) (recentEntityIds s)
        (toasts s) (hasInitiallyAnimated s) (previousItemIds s)
        (_cachedSections s)
  | f_projects l =>
      Build_AppState (isLoading s) (lastDiscovery s) (error s)
        (globalConfigPath s) (homeDirectory s) l (settings s) (memory s)
        (agents s) (skills s) (commands s) (hooks s) (plugins s)
        (mcpServers s) (duplicates s) (symlinks s) (activeView s)
        (selectedEntity s) (searchQuery s) (filterScope s)
        (filterProject s) (filterTool s) (isPanelOpen s) (theme s)
        (isGlobalSearchOpen s) (globalSearchQuery s) (recentEntityIds s)
        (toasts s) (hasInitiallyAnimated s) (previousItemIds s)
        (_cachedSections s)
  | f_settings l =>
      Build_AppState (isLoading s) (lastDiscovery s) (error s)
        (globalConfigPath s) (homeDirectory s) (projects s) l (memory s)
        (agents s) (skills s) (commands s) (hooks s) (plugins s)
        (mcpServers s) (duplicates s) (symlinks s) (activeView s)
        (selectedEntity s) (searchQuery s) (filterScope s)
        (filterProject s) (filterTool s) (isPanelOpen s) (theme s)
        (isGlobalSearchOpen s) (globalSearchQuery s) (recentEntityIds s)
        (toasts s) (hasInitiallyAnimated s) (previousItemIds s)
        (_cachedSections s)
  | f_memory l =>
      Build_AppState (isLoading s) (lastDiscovery s) (error s)
        (globalConfigPath s) (homeDirectory s) (projects s) (settings s) l
        (agents s) (skills s) (commands s) (hooks s) (plugins s)
        (mcpServers s) (duplicates s) (symlinks s) (activeView s)
        (selectedEntity s) (searchQuery s) (filterScope s)
        (filterProject s) (filterTool s) (isPanelOpen s) (theme s)
        (isGlobalSearchOpen s) (globalSearchQuery s) (recentEntityIds s)
        (toasts s) (hasInitiallyAnimated s) (previousItemIds s)
        (_cachedSections s)
  | f_agents l =>
      Build_AppState (isLoading s) (lastDiscovery s) (error s)
        (globalConfigPath s) (homeDirectory s) (projects s) (settings s)
        (memory s) l (skills s) (commands s) (hooks s) (plugins s)
        (mcpServers s) (duplicates s) (symlinks s) (activeView s)
        (selectedEntity s) (searchQuery s) (filterScope s)
        (filterProject s) (filterTool s) (isPanelOpen s) (theme s)
        (isGlobalSearchOpen s) (globalSearchQuery s) (recentEntityIds s)
        (toasts s) (hasInitiallyAnimated s) (previousItemIds s)
        (_cachedSections s)
  | f_skills l =>
      Build_AppState (isLoading s) (lastDiscovery s) (error s)
        (globalConfigPath s) (homeDirectory s) (projects s) (settings s)
        (memory s) (agents s) l (commands s) (hooks s) (plugins s)
        (mcpServers s) (duplicates s) (symlinks s) (activeView s)
        (selectedEntity s) (searchQuery s) (filterScope s)
        (filterProject s) (filterTool s) (isPanelOpen s) (theme s)
        (isGlobalSearchOpen s) (globalSearchQuery s) (recentEntityIds s)
        (toasts s) (hasInitiallyAnimated s) (previousItemIds s)
        (_cachedSections s)
  | f_commands l =>
      Build_AppState (isLoading s) (lastDiscovery s) (error s)
        (globalConfigPath s) (homeDirectory s) (projects s) (settings s)
        (memory s) (agents s) (skills s) l (hooks s) (plugins s)
        (mcpServers s) (duplicates s) (symlinks s) (activeView s)
        (selectedEntity s) (searchQuery s) (filterScope s)
        (filterProject s) (filterTool s) (isPanelOpen s) (theme s)
        (isGlobalSearchOpen s) (globalSearchQuery s) (recentEntityIds s)
        (toasts s) (hasInitiallyAnimated s) (previousItemIds s)
        (_cachedSections s)
  | f_hooks l =>
      Build_AppState (isLoading s) (lastDiscovery s) (error s)
        (globalConfigPath s) (homeDirectory s) (projects s) (settings s)
        (memory s) (agents s) (skills s) (commands s) l (plugins s)
        (mcpServers s) (duplicates s) (symlinks s) (activeView s)
        (selectedEntity s) (searchQuery s) (filterScope s)
        (filterProject s) (filterTool s) (isPanelOpen s) (theme s)
        (isGlobalSearchOpen s) (globalSearchQuery s) (recentEntityIds s)
        (toasts s) (hasInitiallyAnimated s) (previousItemIds s)
        (_cachedSections s)
  | f_plugins l =>
      Build_AppState (isLoading s) (lastDiscovery s) (error s)
        (globalConfigPath s) (homeDirectory s) (projects s) (settings s)
        (memory s) (agents s) (skills s) (commands s) (hooks s) l
        (mcpServers s) (duplicates s) (symlinks s) (activeView s)
        (selectedEntity s) (searchQuery s) (filterScope s)
        (filterProject s) (filterTool s) (isPanelOpen s) (theme s)
        (isGlobalSearchOpen s) (globalSearchQuery s) (recentEntityIds s)
        (toasts s) (hasInitiallyAnimated s) (previousItemIds s)
        (_cachedSections s)
  | f_mcpServers l =>
      Build_AppState (isLoading s) (lastDiscovery s) (error s)
        (globalConfigPath s) (homeDirectory s) (projects s) (settings s)
        (memory s) (agents s) (skills s) (commands s) (hooks s) (plugins s)
        l (duplicates s) (symlinks s) (activeView s) (selectedEntity s)
        (searchQuery s) (filterScope s) (filterProject s) (filterTool s)
        (isPanelOpen s) (theme s) (isGlobalSearchOpen s)
        (globalSearchQuery s) (recentEntityIds s) (toasts s)
        (hasInitiallyAnimated s) (previousItemIds s) (_cachedSections s)
  | f_duplicates l =>
      Build_AppState (isLoading s) (lastDiscovery s) (error s)
        (globalConfigPath s) (homeDirectory s) (projects s) (settings s)
        (memory s) (agents s) (skills s) (commands s) (hooks s) (plugins s)
        (mcpServers s) l (symlinks s) (activeView s) (selectedEntity s)
        (searchQuery s) (filterScope s) (filterProject s) (filterTool s)
        (isPanelOpen s) (theme s) (isGlobalSearchOpen s)
        (globalSearchQuery s) (recentEntityIds s) (toasts s)
        (hasInitiallyAnimated s) (previousItemIds s) (_cachedSections s)
  | f_symlinks l =>
      Build_AppState (isLoading s) (lastDiscovery s) (error s)
        (globalConfigPath s) (homeDirectory s) (projects s) (settings s)
        (memory s) (agents s) (skills s) (commands s) (hooks s) (plugins s)
        (mcpServers s) (duplicates s) l (activeView s) (selectedEntity s)
        (searchQuery s) (filterScope s) (filterProject s) (filterTool s)
        (isPanelOpen s) (theme s) (isGlobalSearchOpen s)
        (globalSearchQuery s) (recentEntityIds s) (toasts s)
        (hasInitiallyAnimated s) (previousItemIds s) (_cachedSections s)
  | f_filterTool t =>
      Build_AppState (isLoading s) (lastDiscovery s) (error s)
        (globalConfigPath s) (homeDirectory s) (projects s) (settings s)
        (memory s) (agents s) (skills s) (commands s) (hooks s) (plugins s)
        (mcpServers s) (duplicates s) (symlinks s) (activeView s)
        (selectedEntity s) (searchQuery s) (filterScope s)
        (filterProject s) t (isPanelOpen s) (theme s)
        (isGlobalSearchOpen s) (globalSearchQuery s) (recentEntityIds s)
        (toasts s) (hasInitiallyAnimated s) (previousItemIds s)
        (_cachedSections s)
  | f_theme t =>
      Build_AppState (isLoading s) (lastDiscovery s) (error s)
        (globalConfigPath s) (homeDirectory s) (projects s) (settings s)
        (memory s) (agents s) (skills s) (commands s) (hooks s) (plugins s)
        (mcpServers s) (duplicates s) (symlinks s) (activeView s)
        (selectedEntity s) (searchQuery s) (filterScope s)
        (filterProject s) (filterTool s) (isPanelOpen s) t
        (isGlobalSearchOpen s) (globalSearchQuery s) (recentEntityIds s)
        (toasts s) (hasInitiallyAnimated s) (previousItemIds s)
        (_cachedSections s)
  | f_isGlobalSearchOpen b =>
      Build_AppState (isLoading s) (lastDiscovery s) (error s)
        (globalConfigPath s) (homeDirectory s) (projects s) (settings s)
        (memory s) (agents s) (skills s) (commands s) (hooks s) (plugins s)
        (mcpServers s) (duplicates s) (symlinks s) (activeView s)
        (selectedEntity s) (searchQuery s) (filterScope s)
        (filterProject s) (filterTool s) (isPanelOpen s) (theme s) b
        (globalSearchQuery s) (recentEntityIds s) (toasts s)
        (hasInitiallyAnimated s) (previousItemIds s) (_cachedSections s)
  | f_globalSearchQuery q =>
      Build_AppState (isLoading s) (lastDiscovery s) (error s)
        (globalConfigPath s) (homeDirectory s) (projects s) (settings s)
        (memory s) (agents s) (skills s) (commands s) (hooks s) (plugins s)
        (mcpServers s) (duplicates s) (symlinks s) (activeView s)
        (selectedEntity s) (searchQuery s) (filterScope s)
        (filterProject s) (filterTool s) (isPanelOpen s) (theme s)
        (isGlobalSearchOpen s) q (recentEntityIds s) (toasts s)
        (hasInitiallyAnimated s) (previousItemIds s) (_cachedSections s)
  | f_toasts l =>
      Build_AppState (isLoading s) (lastDiscovery s) (error s)
        (globalConfigPath s) (homeDirectory s) (projects s) (settings s)
        (memory s) (agents s) (skills s) (commands s) (hooks s) (plugins s)
        (mcpServers s) (duplicates s) (symlinks s) (activeView s)
        (selectedEntity s) (searchQuery s) (filterScope s)
        (filterProject s) (filterTool s) (isPanelOpen s) (theme s)
        (isGlobalSearchOpen s) (globalSearchQuery s) (recentEntityIds s) l
        (hasInitiallyAnimated s) (previousItemIds s) (_cachedSections s)
  | f_hasInitiallyAnimated b =>
      Build_AppState (isLoading s) (lastDiscovery s) (error s)
        (globalConfigPath s) (homeDirectory s) (projects s) (settings s)
        (memory s) (agents s) (skills s) (commands s) (hooks s) (plugins s)
        (mcpServers s) (duplicates s) (symlinks s) (activeView s)
        (selectedEntity s) (searchQuery s) (filterScope s)
        (filterProject s) (filterTool s) (isPanelOpen s) (theme s)
        (isGlobalSearchOpen s) (globalSearchQuery s) (recentEntityIds s)
        (toasts s) b (previousItemIds s) (_cachedSections s)
  | f_previousItemIds ids =>
      Build_AppState (isLoading s) (lastDiscovery s) (error s)
        (globalConfigPath s) (homeDirectory s) (projects s) (settings s)
        (memory s) (agents s) (skills s) (commands s) (hooks s) (plugins s)
        (mcpServers s) (duplicates s) (symlinks s) (activeView s)
        (selectedEntity s) (searchQuery s) (filterScope s)
        (filterProject s) (filterTool s) (isPanelOpen s) (theme s)
        (isGlobalSearchOpen s) (globalSearchQuery s) (recentEntityIds s)
        (toasts s) (hasInitiallyAnimated s) ids (_cachedSections s)
  end.

(** zustand's [set(partial)]. *)
Definition set (partial : list Field) (s : AppState) : AppState :=
  fold_left (fun acc f => assign f acc) partial s.

(** *** UI actions *)

Definition selectEntity (entity : option DisplayableEntity) (w : World)
  : World :=
  (set [ base (f_selectedEntity entity) ] (fst w), snd w).

Definition openPanel (entity : DisplayableEntity) (w : World) : World :=
  (set [ base (f_selectedEntity (Some entity));
         base (f_isPanelOpen true) ] (fst w),
   snd w).

Definition closePanel (w : World) : World :=
  (set [ base (f_selectedEntity None); base (f_isPanelOpen false) ] (fst w),
   snd w).

Definition setSearchQuery (query : string) (w : World) : World :=
  (set [ base (f_searchQuery query); base (f_cachedSections None) ] (fst w),
   snd w).

Definition setFilterScope (scope : FilterScope) (w : World) : World :=
  (set [ base (f_filterScope scope); base (f_cachedSections None) ] (fst w),
   snd w).

Definition setFilterProject (path : option string) (w : World) : World :=
  (set [ base (f_filterProject path); base (f_cachedSections None) ] (fst w),
   snd w).

(** [setActiveProject]: navigate to the project view with this project
    pre-selected. *)
Definition setActiveProject (projectPath : string) (w : World) : World :=
  (set [ base (f_activeView project);
         base (f_filterProject (Some projectPath));
         base (f_selectedEntity None);
         base (f_isPanelOpen false);
         base (f_searchQuery ""%string);
         base (f_filterScope scope_all);
         base (f_cachedSections None) ] (fst w),
   snd w).

Definition setFilterTool (tool : ToolFilter) (w : World) : World :=
  (set [ f_filterTool tool; base (f_cachedSections None) ] (fst w),
   {| ls_filterTool := Some tool;
      ls_theme := ls_theme (snd w);
      ls_recentEntityIds := ls_recentEntityIds (snd w) |}).

(** *** Global search actions *)

Definition openGlobalSearch (w : World) : World :=
  (set [ f_isGlobalSearchOpen true; f_globalSearchQuery ""%string ] (fst w),
   snd w).

Definition closeGlobalSearch (w : World) : World :=
  (set [ f_isGlobalSearchOpen false; f_globalSearchQuery ""%string ] (fst w),
   snd w).

Definition setGlobalSearchQuery (query : string) (w : World) : World :=
  (set [ f_globalSearchQuery query ] (fst w), snd w).

(** *** Entity actions *)

Definition EntityType := Duplicates.EntityType.

Definition differs (id' id : string) : bool := negb (String.eqb id' id).

(** [updateEntityContent]: the switch has no case for hooks and MCP
    servers. *)
Definition updateEntityContent (entityType : EntityType) (id' : string)
    (content' : string) (w : World) : World :=
  let state := fst w in
  (match entityType with
   | Duplicates.settings =>
       set [ f_settings
               (map (fun s => if String.eqb (id (settings_base s)) id'
                              then {| settings_base :=
                                        base_with_content (settings_base s)
                                          content';
                                      settings_variant :=
                                        settings_variant s |}
                              else s) (settings state));
             base (f_cachedSections None) ] state
   | Duplicates.memory =>
       set [ f_memory
               (map (fun m => if String.eqb (id (memory_base m)) id'
                              then {| memory_base :=
                                        base_with_content (memory_base m)
                                          content';
                                      memory_variant := memory_variant m |}
                              else m) (memory state));
             base (f_cachedSections None) ] state
   | Duplicates.agent =>
       set [ f_agents
               (map (fun a => if String.eqb (id (agent_base a)) id'
                              then {| agent_base :=
                                        base_with_content (agent_base a)
                                          content' |}
                              else a) (agents state));
             base (f_cachedSections None) ] state
   | Duplicates.skill =>
       set [ f_skills
               (map (fun s => if String.eqb (id (skill_base s)) id'
                              then {| skill_base :=
                                        base_with_content (skill_base s)
                                          content';
                                      skill_dir := skill_dir s;
                                      supporting_files :=
                                        supporting_files s |}
                              else s) (skills state));
             base (f_cachedSections None) ] state
   | Duplicates.command =>
       set [ f_commands
               (map (fun c => if String.eqb (id (command_base c)) id'
                              then {| command_base :=
                                        base_with_content (command_base c)
                                          content';
                                      namespace := namespace c |}
                              else c) (commands state));
             base (f_cachedSections None) ] state
   | Duplicates.plugin =>
       set [ f_plugins
               (map (fun p => if String.eqb (id (plugin_base p)) id'
                              then {| plugin_base :=
                                        base_with_content (plugin_base p)
                                          content';
                                      plugin_dir := plugin_dir p;
                                      has_commands := has_commands p;
                                      has_agents := has_agents p;
                                      has_skills := has_skills p;
                                      has_hooks := has_hooks p;
                                      has_mcp := has_mcp p;
                                      has_lsp := has_lsp p |}
                              else p) (plugins state));
             base (f_cachedSections None) ] state
   | Duplicates.hook | Duplicates.mcp => state
   end,
   snd w).

(** [removeEntity].  [previousItemIds] is a [Set]: the copy without [id']
    is the list without it. *)
Definition removeEntity (entityType : EntityType) (id' : string) (w : World)
  : World :=
  let state := fst w in
  let newPreviousIds :=
    filter (fun x => differs x id') (previousItemIds state) in
  (match entityType with
   | Duplicates.settings =>
       set [ f_settings
               (filter (fun s => differs (id (settings_base s)) id')
                  (settings state));
             f_previousItemIds newPreviousIds;
             base (f_cachedSections None) ] state
   | Duplicates.memory =>
       set [ f_memory
               (filter (fun m => differs (id (memory_base m)) id')
                  (memory state));
             f_previousItemIds newPreviousIds;
             base (f_cachedSections None) ] state
   | Duplicates.agent =>
       set [ f_agents
               (filter (fun a => differs (id (agent_base a)) id')
                  (agents state));
             f_previousItemIds newPreviousIds;
             base (f_cachedSections None) ] state
   | Duplicates.skill =>
       set [ f_skills
               (filter (fun s => differs (id (skill_base s)) id')
                  (skills state));
             f_previousItemIds newPreviousIds;
             base (f_cachedSections None) ] state
   | Duplicates.command =>
       set [ f_commands
               (filter (fun c => differs (id (command_base c)) id')
                  (commands state));
             f_previousItemIds newPreviousIds;
             base (f_cachedSections None) ] state
   | Duplicates.plugin =>
       set [ f_plugins
               (filter (fun p => differs (id (plugin_base p)) id')
                  (plugins state));
             f_previousItemIds newPreviousIds;
             base (f_cachedSections None) ] state
   | Duplicates.mcp =>
       set [ f_mcpServers
               (filter (fun m => differs (mcp_id m) id') (mcpServers state));
             f_previousItemIds newPreviousIds;
             base (f_cachedSections None) ] state
   | Duplicates.hook =>
       set [ f_hooks
               (filter (fun h => differs (hook_id h) id') (hooks state));
             f_previousItemIds newPreviousIds;
             base (f_cachedSections None) ] state
   end,
   snd w).

(** [isNewItem]. *)
Definition isNewItem (id' : string) (w : World) : bool :=
  if negb (hasInitiallyAnimated (fst w)) then false
  else negb (existsb (String.eqb id') (previousItemIds (fst w))).

(** [getEntityCounts], as the count for each type. *)
Definition getEntityCounts (w : World) (t : EntityType) : nat :=
  let state := fst w in
  match t with
  | Duplicates.settings => List.length (settings state)
  | Duplicates.memory => List.length (memory state)
  | Duplicates.agent => List.length (agents state)
  | Duplicates.skill => List.length (skills state)
  | Duplicates.command => List.length (commands state)
  | Duplicates.hook => List.length (hooks state)
  | Duplicates.plugin => List.length (plugins state)
  | Duplicates.mcp => List.length (mcpServers state)
  end.




(** *** The page: the store, the document and the pending timers *)

(** A pending [setTimeout] of [addToast]: the delay and the id of the toast
    its callback removes. *)
Record Timer := {
  delay : Z;
  removes : string
}.

Record Page := {
  world : World;
  data_theme : option Theme;
  timers : list Timer
}.

Definition store_theme (p : Page) : Theme := theme (fst (world p)).

(** [setTheme]. *)
Definition setTheme (theme' : Theme) (p : Page) : Page :=
  {| world :=
       (set [ f_theme theme' ] (fst (world p)),
        {| ls_filterTool := ls_filterTool (snd (world p));
           ls_theme := Some theme';
           ls_recentEntityIds := ls_recentEntityIds (snd (world p)) |});
     data_theme := Some theme';
     timers := timers p |}.

(** [toggleTheme]. *)
Definition toggleTheme (p : Page) : Page :=
  let newTheme := match store_theme p with dark => light | light => dark end
  in
  {| world :=
       (set [ f_theme newTheme ] (fst (world p)),
        {| ls_filterTool := ls_filterTool (snd (world p));
           ls_theme := Some newTheme;
           ls_recentEntityIds := ls_recentEntityIds (snd (world p)) |});
     data_theme := Some newTheme;
     timers := timers p |}.

(** The three copies of the theme agree. *)
Definition theme_in_sync (p : Page) : Prop :=
  ls_theme (snd (world p)) = Some (store_theme p)
  /\ data_theme p = Some (store_theme p).

(** *** Toasts *)

(** [removeToast]. *)
Definition removeToast (id' : string) (p : Page) : Page :=
  {| world :=
       (set [ f_toasts (filter (fun t => differs (toast_id t) id')
                          (toasts (fst (world p)))) ] (fst (world p)),
        snd (world p));
     data_theme := data_theme p;
     timers := timers p |}.

(** [toast.duration || 4000]. *)
Definition duration_or_default (d : option Z) : Z :=
  match d with
  | Some 0%Z | None => 4000%Z
  | Some n => n
  end.

(** [toast.duration !== 0]. *)
Definition auto_removed (toast : ToastInput) : bool :=
  match duration toast with
  | Some 0%Z => false
  | _ => true
  end.

(** [addToast], with the id that [generateToastId] returned (it is made of
    the clock and a random number). *)
Definition addToast (generated : string) (toast : ToastInput) (p : Page)
  : string * Page :=
  let id' := generated in
  let newToast := {| toast_id := id'; toast_input := toast |} in
  (id',
   {| world :=
        (set [ f_toasts (toasts (fst (world p)) ++ [newToast]) ]
           (fst (world p)),
         snd (world p));
      data_theme := data_theme p;
      timers :=
        if auto_removed toast
        then timers p ++ [ {| delay := duration_or_default (duration toast);
                              removes := id' |} ]
        else timers p |}).

(** The [n]-th pending timer fires: it leaves the pending ones and its
    callback runs. *)
Definition fire (n : nat) (p : Page) : Page :=
  match nth_error (timers p) n with
  | None => p
  | Some t =>
      removeToast (removes t)
        {| world := world p; data_theme := data_theme p;
           timers := firstn n (timers p) ++ skipn (S n) (timers p) |}
  end.

(** What can happen to the toasts. *)
Inductive ToastEvent :=
| adds (generated : string) (toast : ToastInput)
| dismisses (id' : string)
| fires (n : nat).

Definition toast_step (p : Page) (e : ToastEvent) : Page :=
  match e with
  | adds generated toast => snd (addToast generated toast p)
  | dismisses id' => removeToast id' p
  | fires n => fire n p
  end.

Definition toast_run (events : list ToastEvent) (p : Page) : Page :=
  fold_left toast_step events p.

Definition shown (p : Page) : list Toast := toasts (fst (world p)).

(** Every toast on the page that is to go away by itself has a pending
    timer. *)
Definition all_timed (p : Page) : Prop :=
  forall t, In t (shown p) -> auto_removed (toast_input t) = true ->
            exists timer, In timer (timers p) /\ removes timer = toast_id t.

(** A page for closed examples: the initial store, nothing pending. *)
Definition initial_page : Page :=
  {| world := (initial_state, empty_storage);
     data_theme := None; timers := [] |}.

(** *** Discovery *)

(** What a rejected promise carries: an [Error] object with its message, or
    any other value. *)
Inductive Thrown := ErrorObject (msg : string) | OtherValue.

(** How an awaited call ends. *)
Inductive Settled (A : Type) :=
| resolves (a : A)
| rejects (e : Thrown).
Arguments resolves {A} a.
Arguments rejects {A} e.

(** The backend as the store sees it: [getHomeDirectory()] and
    [discoverAll(projectPaths)] of [lib/api.ts]. *)
Record Backend := {
  getHomeDirectory : Settled string;
  discover_all : option (list string) -> Settled DiscoveryResult
}.

Definition on_store (f : AppState -> AppState) (p : Page) : Page :=
  {| world := (f (fst (world p)), snd (world p));
     data_theme := data_theme p; timers := timers p |}.

Definition on_world (f : World -> World) (p : Page) : Page :=
  {| world := f (world p); data_theme := data_theme p; timers := timers p |}.

Definition store (p : Page) : AppState := fst (world p).

(** The ids of the items of the sections, as a [Set]. *)
Definition item_ids (sections : list CommandPaletteSection) : list string :=
  nodup string_dec
    (flat_map (fun section => map item_id (items section)) sections).

(** The [try] block of [discoverAll]: the home directory first, then the
    discovery; the first rejection ends it. *)
Definition attempt (backend : Backend) (projectPaths : option (list string))
  : Settled (string * DiscoveryResult) :=
  match getHomeDirectory backend with
  | rejects e => rejects e
  | resolves homeDir =>
      match discover_all backend projectPaths with
      | rejects e => rejects e
      | resolves result => resolves (homeDir, result)
      end
  end.

(** [discoverAll], run to its end without another action in between;
    [generated] is the toast id drawn if a toast is shown. *)
Definition discoverAll (backend : Backend) (generated : string)
    (projectPaths : option (list string)) (p : Page) : Page :=
  let state := store p in
  let currentIds :=
    match _cachedSections state with
    | Some sections => item_ids sections
    | None => []
    end in
  let newPreviousIds :=
    if hasInitiallyAnimated state then currentIds
    else previousItemIds state in
  let p := on_store (set [ f_isLoading true; f_error None ]) p in
  match attempt backend projectPaths with
  | resolves (homeDir, result) =>
      on_store
        (set [ f_isLoading false;
               f_lastDiscovery (Some (discovered_at result));
               f_globalConfigPath (global_config_path result);
               f_homeDirectory homeDir;
               f_projects (r_projects result);
               f_settings (r_settings result);
               f_memory (r_memory result);
               f_agents (r_agents result);
               f_skills (r_skills result);
               f_commands (r_commands result);
               f_hooks (r_hooks result);
               f_plugins (r_plugins result);
               f_mcpServers (r_mcp_servers result);
               f_duplicates (r_duplicates result);
               f_symlinks (r_symlinks result);
               f_previousItemIds newPreviousIds;
               base (f_cachedSections None) ]) p
  | rejects err =>
      let p :=
        on_store
          (set [ f_isLoading false;
                 f_error
                   (Some match err with
                         | ErrorObject m => m
                         | OtherValue =>
                             "Failed to discover configurations"%string
                         end) ]) p in
      snd (addToast generated
             {| toast_type := toast_error;
                title := "Discovery Failed";
                message := Some match err with
                                | ErrorObject m => m
                                | OtherValue => "Unknown error"%string
                                end;
                duration := Some 5000%Z |} p)
  end.

(** [refreshDiscovery]. *)
Definition refreshDiscovery (backend : Backend) (generated : string)
    (p : Page) : Page :=
  let projectPaths := map project_info_path (projects (store p)) in
  discoverAll backend generated
    (if 0 <? List.length projectPaths then Some projectPaths else None) p.

(** *** Animation and error actions *)

Definition setHasInitiallyAnimated (value : bool) (w : World) : World :=
  (set [ f_hasInitiallyAnimated value ] (fst w), snd w).

Definition setError (error' : option string) (w : World) : World :=
  (set [ f_error error' ] (fst w), snd w).

Section Sections.

(** [buildSections], which builds the sections of the command palette from
    the state. *)
Variable buildSections : AppState -> list CommandPaletteSection.

(** [getSections]. *)
Definition getSections (w : World) : list CommandPaletteSection :=
  match _cachedSections (fst w) with
  | Some cached => cached
  | None => buildSections (fst w)
  end.

(** [markItemsAsSeen]. *)
Definition markItemsAsSeen (w : World) : World :=
  (set [ f_previousItemIds (item_ids (getSections w)) ] (fst w), snd w).

(** *** Any sequence of actions *)

Inductive Action :=
| do_setActiveView (view : ViewType)
| do_selectEntity (entity : option DisplayableEntity)
| do_openPanel (entity : DisplayableEntity)
| do_closePanel
| do_setSearchQuery (query : string)
| do_setFilterScope (scope : FilterScope)
| do_setFilterProject (path : option string)
| do_setActiveProject (projectPath : string)
| do_setFilterTool (tool : ToolFilter)
| do_setTheme (theme' : Theme)
| do_toggleTheme
| do_openGlobalSearch
| do_closeGlobalSearch
| do_setGlobalSearchQuery (query : string)
| do_addToRecentEntities (id' : string)
| do_updateEntityContent (entityType : EntityType) (id' content' : string)
| do_removeEntity (entityType : EntityType) (id' : string)
| do_addToast (generated : string) (toast : ToastInput)
| do_removeToast (id' : string)
| do_setHasInitiallyAnimated (value : bool)
| do_markItemsAsSeen
| do_setError (error' : option string)
| do_discoverAll (backend : Backend) (generated : string)
    (projectPaths : option (list string))
| do_refreshDiscovery (backend : Backend) (generated : string)
| timer_fires (n : nat).

Definition perform (p : Page) (a : Action) : Page :=
  match a with
  | do_setActiveView view => on_world (setActiveView view) p
  | do_selectEntity entity => on_world (selectEntity entity) p
  | do_openPanel entity => on_world (openPanel entity) p
  | do_closePanel => on_world closePanel p
  | do_setSearchQuery query => on_world (setSearchQuery query) p
  | do_setFilterScope scope => on_world (setFilterScope scope) p
  | do_setFilterProject path => on_world (setFilterProject path) p
  | do_setActiveProject projectPath =>
      on_world (setActiveProject projectPath) p
  | do_setFilterTool tool => on_world (setFilterTool tool) p
  | do_setTheme theme' => setTheme theme' p
  | do_toggleTheme => toggleTheme p
  | do_openGlobalSearch => on_world openGlobalSearch p
  | do_closeGlobalSearch => on_world closeGlobalSearch p
  | do_setGlobalSearchQuery query => on_world (setGlobalSearchQuery query) p
  | do_addToRecentEntities id' => on_world (addToRecentEntities id') p
  | do_updateEntityContent entityType id' content' =>
      on_world (updateEntityContent entityType id' content') p
  | do_removeEntity entityType id' =>
      on_world (removeEntity entityType id') p
  | do_addToast generated toast => snd (addToast generated toast p)
  | do_removeToast id' => removeToast id' p
  | do_setHasInitiallyAnimated value =>
      on_world (setHasInitiallyAnimated value) p
  | do_markItemsAsSeen => on_world markItemsAsSeen p
  | do_setError error' => on_world (setError error') p
  | do_discoverAll backend generated projectPaths =>
      discoverAll backend generated projectPaths p
  | do_refreshDiscovery backend generated =>
      refreshDiscovery backend generated p
  | timer_fires n => fire n p
  end.

Definition run (actions : list Action) (p : Page) : Page :=
  fold_left perform actions p.

End Sections.

(** The collections of the store, and those of a discovery result. *)
Definition collections (s : AppState) :=
  (projects s, settings s, memory s, agents s, skills s, commands s,
   hooks s, plugins s, mcpServers s, duplicates s, symlinks s).

Definition result_collections (r : DiscoveryResult) :=
  (r_projects r, r_settings r, r_memory r, r_agents r, r_skills r,
   r_commands r, r_hooks r, r_plugins r, r_mcp_servers r, r_duplicates r,
   r_symlinks r).

(** The toast of a failed discovery. *)
Definition discovery_failed (generated : string) (err : Thrown) : Toast :=
  {| toast_id := generated;
     toast_input :=
       {| toast_type := toast_error;
          title := "Discovery Failed";
          message := Some match err with
                          | ErrorObject m => m
                          | OtherValue => "Unknown error"%string
                          end;
          duration := Some 5000%Z |} |}.

(** A backend and a discovery result for closed examples. *)
Definition empty_result : DiscoveryResult :=
  {| global_config_path := "/home/u/.claude"; r_projects := [];
     r_settings := []; r_memory := []; r_agents := []; r_skills := [];
     r_commands := []; r_hooks := []; r_plugins := []; r_mcp_servers := [];
     r_duplicates := []; r_symlinks := []; discovered_at := 1 |}.

Definition working_backend : Backend :=
  {| getHomeDirectory := resolves "/home/u"%string;
     discover_all := fun _ => resolves empty_result |}.

Definition animated_page : Page :=
  snd (addToast "toast_0"
         {| toast_type := toast_info; title := "Ready"; message := None;
            duration := Some 0%Z |}
         (on_world (setHasInitiallyAnimated true)
            {| world := (set [ f_previousItemIds ["agent-1"%string] ]
                           initial_state, empty_storage);
               data_theme := None; timers := [] |})).

End Store.

(* ------------------------------------------------------------------------- *)
(** ** The search dialog ([components/GlobalSearch.tsx]) *)
(* ------------------------------------------------------------------------- *)

Module GlobalSearch.
Import Js Search.

(** The loop of the dialog's own [fuzzyMatch]; returns [queryIndex]. *)
Fixpoint scan (queryLower rest : jsstring) (queryIndex : nat) : nat :=
  match rest with
  | [] => queryIndex
  | c :: rest' =>
      match nth_error queryLower queryIndex with
      | None => queryIndex
      | Some q =>
          if N.eqb c q then scan queryLower rest' (S queryIndex)
          else scan queryLower rest' queryIndex
      end
  end.

Section Fuzzy.
Variable toLowerCase : jsstring -> jsstring.

(** The dialog's [fuzzyMatch]. *)
Definition fuzzyMatch (text searchQuery : jsstring) : Scored :=
  if negb (truthy searchQuery) then {| matches := true; score := 0 |} else
  let textLower := toLowerCase text in
  let queryLower := toLowerCase searchQuery in
  if eqb textLower queryLower then {| matches := true; score := 100 |} else
  if startsWith queryLower textLower then {| matches := true; score := 90 |}
  else
  if includes queryLower textLower then {| matches := true; score := 70 |}
  else
  let words := split_words textLower in
  if existsb (startsWith queryLower) words
  then {| matches := true; score := 60 |} else
  let queryIndex := scan queryLower textLower 0 in
  if Nat.eqb queryIndex (List.length queryLower)
  then {| matches := true;
          score := Z.max 20 (50 - (Z.of_nat (List.length textLower)
                                   - Z.of_nat queryIndex)) |}
  else {| matches := false; score := 0 |}.

End Fuzzy.

(** [viewMap] of [onSelect]. *)
Definition viewMap (entityType : Duplicates.EntityType) : AppStore.ViewType :=
  match entityType with
  | Duplicates.settings => AppStore.settings_view
  | Duplicates.memory => AppStore.memory_view
  | Duplicates.agent => AppStore.agents_view
  | Duplicates.skill => AppStore.skills_view
  | Duplicates.command => AppStore.commands_view
  | Duplicates.hook => AppStore.hooks_view
  | Duplicates.plugin => AppStore.plugins_view
  | Duplicates.mcp => AppStore.mcp_view
  end.

(** [onSelect] of the search result made by [entityToResult] for [entity]
    and [entityType]. *)
Definition onSelect (entity : Entities.DisplayableEntity)
    (entityType : Duplicates.EntityType) (w : Store.World) : Store.World :=
  let w := AppStore.addToRecentEntities (Entities.entity_id entity) w in
  let w := Store.closeGlobalSearch w in
  let w := AppStore.setActiveView (viewMap entityType) w in
  Store.openPanel entity w.

End GlobalSearch.

(* ------------------------------------------------------------------------- *)
(** ** Selecting projects in the bulk fix dialog
       ([components/FixConfigModal.tsx]) *)
(* ------------------------------------------------------------------------- *)

Module FixSelection.
Import FixConfig.

(** [{ ...p, selected: b }]. *)
Definition with_selected (b : bool) (p : ProjectFixState) : ProjectFixState :=
  {| path := path p; name := name p; configState := configState p;
     selected := b; status := status p; message := message p |}.

(** [toggleAll], as the closure one render creates: [projectStates] is that
    render's value of the state cell. *)
Definition toggleAll (projectStates : list ProjectFixState) (c : Component)
  : Component :=
  if isFixing c || isDone c then c else
  let allSelected := forallb selected projectStates in
  snd (setProjectStates (map (with_selected (negb allSelected))) c).

(** A click on the select-all box, with the handler of the current
    render. *)
Definition click_toggleAll (c : Component) : Component :=
  toggleAll (FixConfig.projectStates c) c.

(** [selectedCount] of a render. *)
Definition selectedCount (c : Component) : nat :=
  List.length (filter selected (projectStates c)).

(** [getConfigStateLabel]. *)
Definition getConfigStateLabel (state : ConfigStateType) : string :=
  match state with
  | missing_symlink => "Create CLAUDE.md symlink"
  | needs_migration => "Migrate to AGENTS.md"
  | empty => "Create both files"
  | _ => "Unknown action"
  end.

(** A dialog for closed examples: two projects, just mounted. *)
Definition two_projects : Component :=
  mount [ ("/work/a"%string, "a"%string, None);
          ("/work/b"%string, "b"%string, None) ].

End FixSelection.

(* ========================================================================= *)
(** * Part II: theorems *)
(* ========================================================================= *)

Section AppStoreFacts.
Import AppStore.
Context {P : Payloads}.

Lemma filter_neq_NoDup (id : string) (l : list string) :
  NoDup l -> NoDup (filter (fun x => negb (String.eqb x id)) l).
Proof. apply NoDup_filter. Qed.

Lemma filter_neq_not_In (id : string) (l : list string) :
  ~ In id (filter (fun x => negb (String.eqb x id)) l).
Proof.
  rewrite filter_In. intros [_ H]. now rewrite String.eqb_refl in H.
Qed.

Lemma firstn_NoDup {A} (n : nat) (l : list A) : NoDup l -> NoDup (firstn n l).
Proof.
  revert n. induction l as [|a l IH]; intros [|n] H; simpl; try constructor.
  - inversion H; subst. intro Hin. apply H2.
    rewrite <- (firstn_skipn n l). apply in_or_app. now left.
  - inversion H; subst. now apply IH.
Qed.

Lemma filter_neq_length_In (id : string) (l : list string) :
  In id l ->
  S (List.length (filter (fun x => negb (String.eqb x id)) l))
  <= List.length l.
Proof.
  induction l as [|a l IH]; simpl; [tauto|].
  intros [->|Hin].
  - rewrite String.eqb_refl. simpl.
    pose proof (filter_length_le (fun x => negb (String.eqb x id)) l). lia.
  - specialize (IH Hin). destruct (String.eqb a id); simpl; lia.
Qed.

Lemma recent_add (id : string) (w : World) :
  recent (addToRecentEntities id w)
  = firstn 5 (id :: filter (fun x => negb (String.eqb x id)) (recent w)).
Proof. destruct w as [s ls]. reflexivity. Qed.

Lemma recent_invariant_step (id : string) (w : World) :
  NoDup (recent w) ->
  NoDup (recent (addToRecentEntities id w))
  /\ List.length (recent (addToRecentEntities id w)) <= 5.
Proof.
  intros Hnd. rewrite recent_add. split.
  - apply firstn_NoDup. constructor.
    + apply filter_neq_not_In.
    + now apply filter_neq_NoDup.
  - apply firstn_le_length.
Qed.

Lemma recent_invariant_run (ids : list string) (w : World) :
  NoDup (recent w) -> List.length (recent w) <= 5 ->
  NoDup (recent (addAllToRecentEntities ids w))
  /\ List.length (recent (addAllToRecentEntities ids w)) <= 5.
Proof.
  revert w. induction ids as [|id ids IH]; intros w Hnd Hlen; simpl.
  - now split.
  - destruct (recent_invariant_step id w Hnd) as [H1 H2]. now apply IH.
Qed.

(** C9: starting from a duplicate-free list of at most five ids, after any
    sequence of [addToRecentEntities] calls followed by one more call with
    [id], the list has at most five ids, no duplicates, and [id] at the
    front; when [id] was already there the list is the old one with [id]
    moved to the front, of the same length.  The copy in [localStorage] is
    the same list. *)
Theorem addToRecentEntities_invariant
    (w : World) (ids : list string) (id : string) :
  NoDup (recent w) -> List.length (recent w) <= 5 ->
  let before := addAllToRecentEntities ids w in
  let after := addToRecentEntities id before in
  List.length (recent after) <= 5
  /\ NoDup (recent after)
  /\ hd_error (recent after) = Some id
  /\ (In id (recent before) ->
      recent after
      = id :: filter (fun x => negb (String.eqb x id)) (recent before)
      /\ List.length (recent after) = List.length (recent before))
  /\ ls_recentEntityIds (snd after) = Some (recent after).
Proof.
  intros Hnd Hlen before after.
  destruct (recent_invariant_run ids w Hnd Hlen) as [Hnd' Hlen'].
  fold before in Hnd', Hlen'.
  destruct (recent_invariant_step id before Hnd') as [H1 H2].
  fold after in H1, H2.
  split; [exact H2|]. split; [exact H1|].
  split; [unfold after; rewrite recent_add; reflexivity|].
  split; [|destruct before as [s ls]; reflexivity].
  intros Hin. unfold after. rewrite recent_add.
  pose proof (filter_neq_length_In id (recent before) Hin) as Hf.
  rewrite firstn_all2 by (simpl; lia).
  split; [reflexivity|].
  simpl. apply Nat.le_antisymm; [exact Hf|].
  clear - Hin Hnd'. revert Hin Hnd'.
  induction (recent before) as [|a l IH]; simpl; [tauto|].
  intros Hin Hnd. inversion Hnd as [|? ? Hna Hnd2]; subst.
  destruct (String.eqb a id) eqn:E; simpl.
  - apply String.eqb_eq in E. subst a.
    assert (Hall : filter (fun x => negb (String.eqb x id)) l = l).
    { clear - Hna. induction l as [|b l IH]; simpl; [easy|].
      destruct (String.eqb b id) eqn:E; simpl.
      - apply String.eqb_eq in E. subst. exfalso. apply Hna. now left.
      - f_equal. apply IH. intro. apply Hna. now right. }
    rewrite Hall. lia.
  - destruct Hin as [->|Hin]; [now rewrite String.eqb_refl in E|].
    specialize (IH Hin Hnd2). lia.
Qed.

(** C10: [setActiveView] empties the search query, resets the scope filter
    to all and the project filter to null, clears the selection and closes
    the detail panel; the tool filter, the theme and every discovered
    collection are unchanged, and so is [localStorage]. *)
Theorem setActiveView_resets_and_frames (view : ViewType) (w : World) :
  let s := fst w in
  let s' := fst (setActiveView view w) in
  activeView s' = view
  /\ searchQuery s' = ""%string
  /\ filterScope s' = scope_all
  /\ filterProject s' = None
  /\ selectedEntity s' = None
  /\ isPanelOpen s' = false
  /\ filterTool s' = filterTool s
  /\ theme s' = theme s
  /\ projects s' = projects s
  /\ settings s' = settings s
  /\ memory s' = memory s
  /\ agents s' = agents s
  /\ skills s' = skills s
  /\ commands s' = commands s
  /\ hooks s' = hooks s
  /\ plugins s' = plugins s
  /\ mcpServers s' = mcpServers s
  /\ duplicates s' = duplicates s
  /\ symlinks s' = symlinks s
  /\ snd (setActiveView view w) = snd w.
Proof.
  destruct w as [s ls]. simpl. repeat split.
Qed.

End AppStoreFacts.

(** A run of the store: three ids, then the first one again. *)
Lemma addToRecentEntities_invariant_witness :
  let w0 : @AppStore.World AppStore.plain_payloads :=
    (AppStore.initial_state, AppStore.empty_storage) in
  let before :=
    AppStore.addAllToRecentEntities ["a"; "b"; "c"]%string w0 in
  let after := AppStore.addToRecentEntities "a"%string before in
  AppStore.recent before = ["c"; "b"; "a"]%string
  /\ AppStore.recent after = ["a"; "c"; "b"]%string
  /\ List.length (AppStore.recent after) <= 5.
Proof.
  intros w0 before after.
  split; [reflexivity|]. split; [reflexivity|].
  apply (@addToRecentEntities_invariant AppStore.plain_payloads
           w0 ["a"; "b"; "c"]%string "a"%string).
  - constructor.
  - simpl. lia.
Defined.

(* ------------------------------------------------------------------------- *)
(** ** The bulk fix dialog *)
(* ------------------------------------------------------------------------- *)

Section FixConfigFacts.
Import FixConfig.
Variable backend : Backend.

Lemma bind_run {A B} (m : M A) (k : A -> M B) (c : Component) :
  bind m k c = k (fst (m c)) (snd (m c)).
Proof. unfold bind. now destruct (m c). Qed.

Lemma settle_after_fixing (project : ProjectFixState) (st : FixStatus)
    (m : string) (ps : list ProjectFixState) :
  (forall p, path p = path project ->
             settled backend p = with_status_message st m p) ->
  map (fun p => if String.eqb (path p) (path project)
                then with_status_message st m p else p)
    (map (fun p => if String.eqb (path p) (path project)
                   then with_status fixing p else p) ps)
  = settle_path backend (path project) ps.
Proof.
  intros H. unfold settle_path. rewrite map_map. apply map_ext. intros p.
  destruct (String.eqb (path p) (path project)) eqn:E; simpl; rewrite E.
  - apply String.eqb_eq in E. now rewrite (H p E).
  - reflexivity.
Qed.

Lemma loop_body_spec (project : ProjectFixState) (c : Component) :
  snd (loop_body backend project c)
  = {| projectStates :=
         settle_path backend (path project) (projectStates c);
       isFixing := isFixing c; isDone := isDone c;
       calls := calls c ++ [path project]; refreshes := refreshes c;
       toasts := toasts c |}.
Proof.
  unfold loop_body. rewrite !bind_run. simpl.
  destruct (backend (path project)) as [m|[m|]] eqn:B; simpl;
    f_equal; apply settle_after_fixing; intros p Hp; unfold settled;
    rewrite Hp, B; reflexivity.
Qed.

Lemma for_of_spec (l : list ProjectFixState) (c : Component) :
  snd (for_of l (loop_body backend) c)
  = {| projectStates :=
         fold_left (fun ps project => settle_path backend (path project) ps)
           l (projectStates c);
       isFixing := isFixing c; isDone := isDone c;
       calls := calls c ++ map path l; refreshes := refreshes c;
       toasts := toasts c |}.
Proof.
  revert c. induction l as [|x l IH]; intros c; simpl.
  - rewrite app_nil_r. now destruct c.
  - rewrite bind_run, IH, loop_body_spec. simpl. now rewrite <- app_assoc.
Qed.

Lemma settled_settled (p : ProjectFixState) :
  settled backend (settled backend p) = settled backend p.
Proof.
  unfold settled.
  destruct (backend (path p)) as [m|[m|]] eqn:B; simpl; rewrite B;
    reflexivity.
Qed.

Lemma path_settled (p : ProjectFixState) : path (settled backend p) = path p.
Proof.
  unfold settled. now destruct (backend (path p)) as [m|[m|]].
Qed.

Lemma fold_settle (l : list ProjectFixState) (ps : list ProjectFixState) :
  fold_left (fun ps project => settle_path backend (path project) ps) l ps
  = map (fun p => if existsb (String.eqb (path p)) (map path l)
                  then settled backend p else p) ps.
Proof.
  revert ps. induction l as [|x l IH]; intros ps; simpl.
  - symmetry. apply map_id.
  - rewrite IH. unfold settle_path. rewrite map_map. apply map_ext.
    intros p. destruct (String.eqb (path p) (path x)) eqn:E; simpl.
    + rewrite path_settled, settled_settled.
      now destruct (existsb _ _).
    + reflexivity.
Qed.

(** The handler, with its loop body and its summary named. *)
Lemma handleFixSelected_eq (ps : list ProjectFixState) :
  handleFixSelected backend ps
  = if Nat.eqb (List.length (filter selected ps)) 0 then ret tt else
    setIsFixing true ;;
    for_of (filter selected ps) (loop_body backend) ;;
    setIsFixing false ;;
    setIsDone true ;;
    refreshDiscovery ;;
    addToast (summary_toast ps).
Proof.
  unfold handleFixSelected, summary_toast.
  destruct (Nat.eqb (List.length (filter selected ps)) 0); [reflexivity|].
  destruct (Nat.eqb _ 0); reflexivity.
Qed.

(** The component after a click with something selected. *)
Lemma click_fix_spec (c : Component) :
  filter selected (projectStates c) <> [] ->
  click_fix backend c
  = {| projectStates :=
         map (fun p =>
                if existsb (String.eqb (path p))
                     (map path (filter selected (projectStates c)))
                then settled backend p else p) (projectStates c);
       isFixing := false; isDone := true;
       calls := calls c ++ map path (filter selected (projectStates c));
       refreshes := S (refreshes c);
       toasts := toasts c ++ [summary_toast (projectStates c)] |}.
Proof.
  intros Hne. unfold click_fix. rewrite handleFixSelected_eq.
  destruct (filter selected (projectStates c)) as [|x l] eqn:F;
    [congruence|].
  change (Nat.eqb (List.length (x :: l)) 0) with false. cbv iota.
  rewrite !bind_run, for_of_spec, fold_settle. reflexivity.
Qed.

(** C6: a click on the fix button calls [fixProjectConfig] once for each
    selected project, in order, whatever the outcomes of the earlier calls;
    afterwards each row holds the outcome of the call for its own path and
    the other rows are as before; and unless nothing was selected the
    handler runs to its end: the dialog is done, discovery is refreshed
    and one summary toast is shown. *)
Theorem bulk_fix_continues_on_error (c : Component) :
  let toFix := filter selected (projectStates c) in
  let c' := click_fix backend c in
  calls c' = calls c ++ map path toFix
  /\ projectStates c'
     = map (fun p => if existsb (String.eqb (path p)) (map path toFix)
                     then settled backend p else p) (projectStates c)
  /\ ((toFix = [] /\ c' = c)
      \/ (toFix <> [] /\ isFixing c' = false /\ isDone c' = true
          /\ refreshes c' = S (refreshes c)
          /\ List.length (toasts c') = S (List.length (toasts c)))).
Proof.
  intros toFix c'. destruct toFix as [|x l] eqn:F.
  - assert (Hc : c' = c).
    { unfold c', click_fix, handleFixSelected. fold toFix. now rewrite F. }
    rewrite Hc, app_nil_r. split; [reflexivity|]. split.
    + symmetry. apply map_id.
    + left. auto.
  - assert (Hne : filter selected (projectStates c) <> []).
    { fold toFix. rewrite F. discriminate. }
    unfold c'. rewrite (click_fix_spec c Hne). fold toFix. rewrite F. simpl.
    split; [reflexivity|]. split; [reflexivity|].
    right. repeat split; try discriminate.
    rewrite length_app. simpl. lia.
Qed.

(** Rows that are all pending, as they are until the first fix: the summary
    counts nothing, whatever the backend answered. *)
Lemma pending_summary_zero (c : Component) :
  Forall (fun p => status p = pending) (projectStates c) ->
  filter selected (projectStates c) <> [] ->
  toasts (click_fix backend c)
  = toasts c ++ [ {| toast_type := toast_success;
                     toast_title := "All configs fixed";
                     toast_message := Successfully_fixed 0 |} ].
Proof.
  intros Hpend Hne. rewrite (click_fix_spec c Hne). simpl. f_equal. f_equal.
  unfold summary_toast.
  assert (Hs : forall st, st <> pending ->
            filter (fun p => FixStatus_eqb (status p) st) (projectStates c)
            = []).
  { intros st Hst. clear Hne.
    induction Hpend as [|p l Hp _ IH]; simpl; [easy|].
    rewrite Hp, IH. destruct st; simpl; congruence. }
  rewrite !Hs by discriminate. reflexivity.
Qed.

End FixConfigFacts.

(** C2, evaluated: with two projects selected, the first fixed and the
    second rejected by the backend, the rows end as success and error, yet
    the summary toast announces that all configs were fixed and counts
    zero successes and no failure: the counts are read from the rows the
    handler's closure captured before the loop, which are all pending. *)
Theorem handleFixSelected_summary_is_stale :
  let c := FixConfig.mount
             [ ("/work/a", "a", Some FixConfig.needs_migration);
               ("/work/b", "b", Some FixConfig.conflict) ]%string in
  let backend := fun p : string =>
    if String.eqb p "/work/a"
    then FixConfig.Resolved "Migrated CLAUDE.md to AGENTS.md"
    else FixConfig.Rejected FixConfig.OtherValue in
  let c' := FixConfig.click_fix backend c in
  map FixConfig.status (FixConfig.projectStates c')
  = [FixConfig.success; FixConfig.error]
  /\ FixConfig.calls c' = ["/work/a"; "/work/b"]%string
  /\ FixConfig.toasts c'
     = [ {| FixConfig.toast_type := FixConfig.toast_success;
            FixConfig.toast_title := "All configs fixed";
            FixConfig.toast_message := FixConfig.Successfully_fixed 0 |} ].
Proof. repeat split. Qed.

(* ------------------------------------------------------------------------- *)
(** ** The consistency engine *)
(* ------------------------------------------------------------------------- *)

Section ConfigEngineFacts.
Import ConfigEngine.
Variable resolve : string -> string -> string.
Variable link_text : string -> string.
Variable unlisted : FileStatus -> FileStatus -> bool -> ConfigStateType.

(** C1: [get_project_config_state] reports the statuses of the two files and
    classifies them by the decision table, as a function of the legacy
    status, the universal status and whether the legacy link points at the
    universal file; [can_auto_fix] is true exactly when the classification
    is not [conflict]. *)
Theorem get_project_config_state_table (fs : FileSystem) (project : string) :
  let st := get_project_config_state resolve unlisted fs project in
  claude_md_status st = status_of (fs (claude_md_path project))
  /\ agents_md_status st = status_of (fs (agents_md_path project))
  /\ config_state st
     = classify unlisted (claude_md_status st) (agents_md_status st)
         (points_at_universal resolve fs project)
  /\ classify unlisted symlink file true = correct
  /\ classify unlisted missing file true = missing_symlink
  /\ classify unlisted missing file false = missing_symlink
  /\ classify unlisted file missing true = needs_migration
  /\ classify unlisted file missing false = needs_migration
  /\ classify unlisted file file true = conflict
  /\ classify unlisted file file false = conflict
  /\ classify unlisted missing missing true = empty
  /\ classify unlisted missing missing false = empty
  /\ classify unlisted symlink file false = conflict
  /\ (can_auto_fix st = true <-> config_state st <> conflict).
Proof.
  simpl. repeat split; try reflexivity.
  - destruct (classify _ _ _ _); simpl; congruence.
  - destruct (classify _ _ _ _); simpl; congruence.
Qed.

(** C8: on a project classified [correct], [fix_project_config] succeeds
    and returns the file system it was given. *)
Theorem fix_project_config_correct_noop (fs : FileSystem) (project : string) :
  config_state (get_project_config_state resolve unlisted fs project)
  = correct ->
  fix_project_config resolve link_text unlisted fs project
  = (Ok_nothing_to_do, fs).
Proof.
  intros H. unfold fix_project_config. now rewrite H.
Qed.

End ConfigEngineFacts.

(** A project whose [CLAUDE.md] is a link to its [AGENTS.md]. *)
Lemma fix_project_config_correct_noop_witness :
  let fs :=
    ConfigEngine.write
      (ConfigEngine.write ConfigEngine.empty_disk "/work/app/AGENTS.md"
         (ConfigEngine.Regular "Hello"))
      "/work/app/CLAUDE.md" (ConfigEngine.Link "AGENTS.md") in
  ConfigEngine.config_state
    (ConfigEngine.get_project_config_state ConfigEngine.resolve_plain
       ConfigEngine.unlisted_conflict fs "/work/app")
  = ConfigEngine.correct
  /\ ConfigEngine.fix_project_config ConfigEngine.resolve_plain
       ConfigEngine.link_text_plain ConfigEngine.unlisted_conflict
       fs "/work/app"
     = (ConfigEngine.Ok_nothing_to_do, fs).
Proof.
  intros fs. split; [reflexivity|].
  apply (fix_project_config_correct_noop ConfigEngine.resolve_plain
           ConfigEngine.link_text_plain ConfigEngine.unlisted_conflict
           fs "/work/app"%string).
  reflexivity.
Defined.

(** The scenario of the specification: a project with only a legacy file
    holding "Hello" needs migration; after the fix the universal file holds
    "Hello", the legacy path is a link to it, and the project is classified
    [correct]. *)
Example fix_project_config_migrates :
  let fs :=
    ConfigEngine.write ConfigEngine.empty_disk "/work/app/CLAUDE.md"
      (ConfigEngine.Regular "Hello") in
  let get := ConfigEngine.get_project_config_state ConfigEngine.resolve_plain
               ConfigEngine.unlisted_conflict in
  let fixed := ConfigEngine.fix_project_config ConfigEngine.resolve_plain
                 ConfigEngine.link_text_plain ConfigEngine.unlisted_conflict
                 fs "/work/app" in
  ConfigEngine.config_state (get fs "/work/app"%string)
  = ConfigEngine.needs_migration
  /\ ConfigEngine.can_auto_fix (get fs "/work/app"%string) = true
  /\ fst fixed = ConfigEngine.Ok_fixed ConfigEngine.needs_migration
  /\ snd fixed "/work/app/AGENTS.md"%string = ConfigEngine.Regular "Hello"
  /\ snd fixed "/work/app/CLAUDE.md"%string = ConfigEngine.Link "AGENTS.md"
  /\ ConfigEngine.config_state (get (snd fixed) "/work/app"%string)
     = ConfigEngine.correct.
Proof. repeat split. Qed.

(* ------------------------------------------------------------------------- *)
(** ** The duplicate resolver *)
(* ------------------------------------------------------------------------- *)

Section DuplicatesFacts.
Import Duplicates.

Lemma EntityType_eqb_eq (a b : EntityType) :
  EntityType_eqb a b = true <-> a = b.
Proof. destruct a, b; simpl; split; congruence. Qed.

Lemma Key_eqb_eq (a b : Key) : Key_eqb a b = true <-> a = b.
Proof.
  destruct a as [ta na], b as [tb nb]. unfold Key_eqb. simpl.
  rewrite andb_true_iff, EntityType_eqb_eq, String.eqb_eq.
  split; [intros [-> ->]; reflexivity | intros H; inversion H; auto].
Qed.

Lemma has_key_iff (k : Key) (e : Entity) :
  has_key k e = true <-> key_of e = k.
Proof. apply Key_eqb_eq. Qed.

Lemma existsb_Key_In (k : Key) (seen : list Key) :
  existsb (Key_eqb k) seen = true <-> In k seen.
Proof.
  rewrite existsb_exists. split.
  - intros [x [Hin Hx]]. apply Key_eqb_eq in Hx. now subst.
  - intros Hin. exists k. split; [assumption | now apply Key_eqb_eq].
Qed.

Lemma distinct_keys_In (k : Key) (l : list Entity) (seen : list Key) :
  In k (distinct_keys seen l)
  <-> (exists e, In e l /\ key_of e = k) /\ ~ In k seen.
Proof.
  revert seen. induction l as [|e l IH]; intros seen; simpl.
  - split; [tauto | intros [[x [[] _]] _]].
  - destruct (existsb (Key_eqb (key_of e)) seen) eqn:E.
    + apply existsb_Key_In in E. rewrite IH. split.
      * intros [[x [Hx Hk]] Hs]. split; [exists x; auto | assumption].
      * intros [[x [[->|Hx] Hk]] Hs].
        -- subst k. contradiction.
        -- split; [exists x; auto | assumption].
    + assert (Hns : ~ In (key_of e) seen).
      { intros Hin. apply existsb_Key_In in Hin. congruence. }
      simpl. rewrite IH. simpl. split.
      * intros [<-|[[x [Hx Hk]] Hs]].
        -- split; [exists e; auto | assumption].
        -- split; [exists x; auto | tauto].
      * intros [[x [[->|Hx] Hk]] Hs]; [now left|].
        destruct (Key_eqb (key_of e) k) eqn:Ek.
        -- apply Key_eqb_eq in Ek. now left.
        -- right. split; [exists x; auto|].
           intros [Heq|Hin]; [|contradiction].
           apply Key_eqb_eq in Heq. congruence.
Qed.

Lemma rank_from_unranked (n : nat) (l : list Entity) :
  map unranked (rank_from n l) = map located l.
Proof.
  revert n. induction l as [|e l IH]; intros n; simpl; [reflexivity|].
  now rewrite IH.
Qed.

Lemma rank_from_precedence (n : nat) (l : list Entity) :
  map precedence (rank_from n l) = seq n (List.length l).
Proof.
  revert n. induction l as [|e l IH]; intros n; simpl; [reflexivity|].
  now rewrite IH.
Qed.

Lemma rank_from_length (n : nat) (l : list Entity) :
  List.length (rank_from n l) = List.length l.
Proof.
  revert n. induction l as [|e l IH]; intros n; simpl; [reflexivity|].
  now rewrite IH.
Qed.

Lemma rank_from_scopes (n : nat) (l : list Entity) :
  map d_scope (rank_from n l) = map scope l.
Proof.
  revert n. induction l as [|e l IH]; intros n; simpl; [reflexivity|].
  now rewrite IH.
Qed.

Lemma at_scope_cases (e : Entity) :
  (at_scope local_override e, at_scope project e, at_scope global e)
  = match scope e with
    | local_override => (true, false, false)
    | project => (false, true, false)
    | global => (false, false, true)
    end.
Proof. unfold at_scope. now destruct (scope e). Qed.

Lemma by_precedence_Permutation (l : list Entity) :
  Permutation (by_precedence l) l.
Proof.
  unfold by_precedence. induction l as [|e l IH]; [constructor|].
  cbn [filter]. pose proof (at_scope_cases e) as C.
  destruct (scope e); injection C as C0 C1 C2; rewrite C0, C1, C2;
    cbn [app].
  - now apply perm_skip.
  - symmetry. apply Permutation_cons_app. now symmetry.
  - rewrite app_assoc. symmetry. apply Permutation_cons_app.
    rewrite <- app_assoc. now symmetry.
Qed.

Lemma filter_nil_none {A} (f : A -> bool) (l : list A) (x : A) :
  filter f l = [] -> In x l -> f x = false.
Proof.
  intros Hnil Hin. destruct (f x) eqn:E; [|reflexivity].
  assert (Hx : In x (filter f l)) by (apply filter_In; auto).
  rewrite Hnil in Hx. destruct Hx.
Qed.

(** The head of a ranked list is at the most specific scope present. *)
Lemma by_precedence_head (l : list Entity) (h : Entity) (t : list Entity) :
  by_precedence l = h :: t ->
  forall x, In x l -> scope_rank (scope h) <= scope_rank (scope x).
Proof.
  unfold by_precedence. intros Hl x Hx.
  destruct (filter (at_scope local_override) l) as [|a la] eqn:F0.
  - pose proof (filter_nil_none _ _ x F0 Hx) as X0.
    destruct (filter (at_scope project) l) as [|b lb] eqn:F1.
    + pose proof (filter_nil_none _ _ x F1 Hx) as X1.
      unfold at_scope in X0, X1. destruct (scope x); simpl in *;
        try discriminate. destruct (scope h); simpl; lia.
    + simpl in Hl. inversion Hl; subst b.
      assert (Hh : In h (filter (at_scope project) l))
        by (rewrite F1; now left).
      apply filter_In in Hh. destruct Hh as [_ Hh].
      unfold at_scope in Hh, X0.
      destruct (scope h); simpl in Hh; try discriminate.
      destruct (scope x); simpl in *; try discriminate; lia.
  - simpl in Hl. inversion Hl; subst a.
    assert (Hh : In h (filter (at_scope local_override) l))
      by (rewrite F0; now left).
    apply filter_In in Hh. destruct Hh as [_ Hh].
    unfold at_scope in Hh.
    destruct (scope h); simpl in Hh; try discriminate. simpl. lia.
Qed.

Lemma scope_rank_inj (a b : Scope) : scope_rank a = scope_rank b -> a = b.
Proof. destruct a, b; simpl; congruence. Qed.

Lemma filter_Permutation {A} (f : A -> bool) (l l' : list A) :
  Permutation l l' -> Permutation (filter f l) (filter f l').
Proof.
  induction 1 as [|x l l' _ IH|x y l|l l' l'' _ IH1 _ IH2]; simpl.
  - constructor.
  - destruct (f x); [now constructor | assumption].
  - destruct (f x), (f y); try reflexivity. constructor.
  - now transitivity (filter f l').
Qed.

(** Every group comes from a key shared by at least two candidates. *)
Lemma find_duplicates_In (discovered : list Entity) (g : DuplicateGroup) :
  In g (find_duplicates discovered)
  <-> exists k,
        2 <= List.length (sharing k discovered)
        /\ g = {| g_name := snd k; entity_type := fst k;
                  entities :=
                    rank_from 0 (by_precedence (sharing k discovered)) |}.
Proof.
  unfold find_duplicates, sharing. rewrite in_flat_map. split.
  - intros [k [Hk Hg]]. unfold group_for in Hg.
    destruct (Nat.leb 2 _) eqn:L; [|destruct Hg].
    destruct Hg as [<-|[]]. apply Nat.leb_le in L. now exists k.
  - intros [k [Hlen ->]]. exists k. split.
    + apply distinct_keys_In. split; [|tauto].
      destruct (filter (has_key k) (filter groupable discovered))
        as [|e rest] eqn:F; [simpl in Hlen; lia|].
      assert (He : In e (filter (has_key k) (filter groupable discovered)))
        by (rewrite F; now left).
      apply filter_In in He. destruct He as [He Hk].
      exists e. split; [assumption | now apply has_key_iff].
    + unfold group_for. apply Nat.leb_le in Hlen. rewrite Hlen. now left.
Qed.

(** The entities sharing the key of a group are all candidates. *)
Lemma sharing_all (k : Key) (discovered : list Entity) :
  sharing k discovered <> [] ->
  sharing k discovered = filter (has_key k) discovered.
Proof.
  unfold sharing. intros Hne.
  destruct (filter (has_key k) (filter groupable discovered))
    as [|e0 rest] eqn:F; [congruence|]. rewrite <- F. clear Hne.
  assert (He : In e0 (filter (has_key k) (filter groupable discovered)))
    by (rewrite F; now left).
  apply filter_In in He. destruct He as [He Hk0].
  apply filter_In in He. destruct He as [_ Hg0].
  apply has_key_iff in Hk0.
  clear F rest. induction discovered as [|e l IH]; [reflexivity|].
  cbn [filter]. destruct (has_key k e) eqn:Hk.
  - assert (Hg : groupable e = true).
    { apply has_key_iff in Hk. unfold groupable in *.
      unfold key_of in Hk, Hk0. rewrite <- Hk0 in Hk.
      injection Hk as Hkind _. now rewrite Hkind. }
    rewrite Hg. cbn [filter]. rewrite Hk. now f_equal.
  - destruct (groupable e); [cbn [filter]; rewrite Hk|]; exact IH.
Qed.

(** C7: every group of [find_duplicates] has at least two members, which
    are exactly the discovered entities with the group's (kind, name) key;
    their ranks are 0, 1, ..., n-1 down the list; the member of rank 0 is at
    the most specific scope present in the group (project-local override
    before project before global); and discovering the same entities in
    another order yields a group with the same key, the same members and a
    rank-0 member at the same scope. *)
Theorem duplicate_group_invariant
    (discovered : list Entity) (g : DuplicateGroup) :
  In g (find_duplicates discovered) ->
  2 <= List.length (entities g)
  /\ Permutation (map unranked (entities g))
       (map located (filter (has_key (group_key g)) discovered))
  /\ map precedence (entities g) = seq 0 (List.length (entities g))
  /\ (exists first rest,
        entities g = first :: rest
        /\ precedence first = 0
        /\ forall d, In d (entities g) ->
             scope_rank (d_scope first) <= scope_rank (d_scope d))
  /\ (forall discovered',
        Permutation discovered discovered' ->
        exists g',
          In g' (find_duplicates discovered')
          /\ group_key g' = group_key g
          /\ Permutation (map unranked (entities g'))
               (map unranked (entities g))
          /\ option_map d_scope (hd_error (entities g'))
             = option_map d_scope (hd_error (entities g))).
Proof.
  intros Hg. apply find_duplicates_In in Hg.
  destruct Hg as [k [Hlen ->]]. unfold group_key. simpl.
  replace (fst k, snd k) with k by now destruct k.
  set (m := sharing k discovered) in *.
  pose proof (by_precedence_Permutation m) as Hperm.
  assert (Hlen' : List.length (by_precedence m) = List.length m)
    by now apply Permutation_length.
  split; [rewrite rank_from_length; lia|].
  split.
  { rewrite rank_from_unranked, <- (sharing_all k discovered).
    - now apply Permutation_map.
    - fold m. destruct m; [simpl in Hlen; lia | discriminate]. }
  split; [rewrite rank_from_precedence, rank_from_length; reflexivity|].
  assert (Hmin : forall l h t, by_precedence l = h :: t ->
            forall d, In d (rank_from 0 (by_precedence l)) ->
              scope_rank (scope h) <= scope_rank (d_scope d)).
  { intros l h t Hl d Hd.
    apply (in_map d_scope) in Hd. rewrite rank_from_scopes in Hd.
    apply in_map_iff in Hd. destruct Hd as [x [Hx Hin]]. rewrite <- Hx.
    apply (by_precedence_head l h t Hl).
    apply (Permutation_in x (by_precedence_Permutation l) Hin). }
  split.
  - destruct (by_precedence m) as [|h t] eqn:B; [simpl in Hlen'; lia|].
    exists (ranked 0 h), (rank_from 1 t). simpl.
    split; [reflexivity|]. split; [reflexivity|].
    intros d Hd. apply (Hmin m h t B). rewrite B. exact Hd.
  - intros discovered' Hd.
    set (m' := sharing k discovered').
    assert (Hmm : Permutation m m').
    { unfold m, m', sharing. now do 2 apply filter_Permutation. }
    exists {| g_name := snd k; entity_type := fst k;
              entities := rank_from 0 (by_precedence m') |}.
    split.
    { apply find_duplicates_In. exists k. split; [|reflexivity].
      fold m'. rewrite <- (Permutation_length Hmm). exact Hlen. }
    cbn [group_key entities g_name entity_type].
    split; [now destruct k|]. split.
    { rewrite !rank_from_unranked. apply Permutation_map.
      rewrite (by_precedence_Permutation m'), Hperm. now symmetry. }
    destruct (by_precedence m) as [|h t] eqn:B; [simpl in Hlen'; lia|].
    destruct (by_precedence m') as [|h' t'] eqn:B'.
    { pose proof (Permutation_length (by_precedence_Permutation m')) as L.
      rewrite B' in L. rewrite <- (Permutation_length Hmm) in L.
      simpl in L. lia. }
    simpl. f_equal. apply scope_rank_inj. apply Nat.le_antisymm.
    + apply (by_precedence_head m' h' t' B').
      apply (Permutation_in h Hmm).
      apply (Permutation_in h Hperm). now left.
    + apply (by_precedence_head m h t B).
      apply (Permutation_in h' (Permutation_sym Hmm)).
      apply (Permutation_in h' (by_precedence_Permutation m')).
      rewrite B'. now left.
Qed.

End DuplicatesFacts.

(** The scenario of the specification: a global agent "reviewer" discovered
    first, then one in each of two projects.  One group of three, both
    project agents ranked above the global one. *)
Lemma duplicate_group_invariant_witness :
  let reviewer (i p : string) (s : Duplicates.Scope) (pp : option string) :=
    {| Duplicates.id := i; Duplicates.name := "reviewer";
       Duplicates.kind := Duplicates.agent; Duplicates.path := p;
       Duplicates.scope := s; Duplicates.project_path := pp |} in
  let discovered :=
    [ reviewer "g" "/home/u/.claude/agents/reviewer.md" Duplicates.global
        None;
      reviewer "a" "/work/a/.claude/agents/reviewer.md" Duplicates.project
        (Some "/work/a");
      reviewer "b" "/work/b/.claude/agents/reviewer.md" Duplicates.project
        (Some "/work/b") ]%string in
  let g := hd {| Duplicates.g_name := ""; Duplicates.entity_type :=
                   Duplicates.hook; Duplicates.entities := [] |}
              (Duplicates.find_duplicates discovered) in
  List.length (Duplicates.find_duplicates discovered) = 1
  /\ map (fun d => (Duplicates.d_id d, Duplicates.precedence d))
       (Duplicates.entities g)
     = [("a", 0); ("b", 1); ("g", 2)]%string
  /\ 2 <= List.length (Duplicates.entities g).
Proof.
  intros reviewer discovered g.
  split; [reflexivity|]. split; [reflexivity|].
  apply (duplicate_group_invariant discovered g).
  left. reflexivity.
Defined.

(* ------------------------------------------------------------------------- *)
(** ** JavaScript strings *)
(* ------------------------------------------------------------------------- *)

Section JsFacts.
Import Js.

Lemma eqb_eq (a b : jsstring) : eqb a b = true <-> a = b.
Proof.
  revert b. induction a as [|x a IH]; intros [|y b]; simpl;
    try (split; congruence).
  rewrite andb_true_iff, N.eqb_eq, IH.
  split; [intros [-> ->]; reflexivity | intros H; inversion H; auto].
Qed.

Lemma eqb_refl (a : jsstring) : eqb a a = true.
Proof. now apply eqb_eq. Qed.

Lemma eqb_neq (a b : jsstring) : eqb a b = false <-> a <> b.
Proof.
  destruct (eqb a b) eqn:E.
  - apply eqb_eq in E. split; congruence.
  - split; [|reflexivity]. intros _ H. apply eqb_eq in H. congruence.
Qed.

(** *** Prefixes and search *)

Lemma startsWith_app (p s : jsstring) : startsWith p (p ++ s) = true.
Proof.
  induction p as [|x p IH]; simpl; [reflexivity|].
  now rewrite N.eqb_refl, IH.
Qed.

Lemma startsWith_nil (p : jsstring) : p <> [] -> startsWith p [] = false.
Proof. destruct p; [congruence | reflexivity]. Qed.

(** A pattern cannot reach over a code unit it does not contain. *)
Lemma startsWith_sep (p a b : jsstring) (c : N) :
  ~ In c p -> startsWith p (a ++ c :: b) = startsWith p a.
Proof.
  revert a. induction p as [|x p IH]; intros a Hc; [reflexivity|].
  destruct a as [|y a]; simpl.
  - destruct (N.eqb x c) eqn:E; [|reflexivity].
    apply N.eqb_eq in E. subst. exfalso. apply Hc. now left.
  - rewrite IH; [reflexivity|]. intro. apply Hc. now right.
Qed.

Lemma find_nil (p : jsstring) : p <> [] -> find p [] = None.
Proof. intros H. simpl. now rewrite (startsWith_nil p H). Qed.

Lemma find_sep (p a b : jsstring) (c : N) :
  ~ In c p -> p <> [] ->
  find p (a ++ c :: b)
  = match find p a with
    | Some i => Some i
    | None => option_map (fun j => List.length a + 1 + j) (find p b)
    end.
Proof.
  intros Hc Hp. induction a as [|y a IH].
  - rewrite (find_nil p Hp). simpl app.
    change (find p (c :: b))
      with (if startsWith p (c :: b) then Some 0
            else option_map S (find p b)).
    pose proof (startsWith_sep p [] b c Hc) as E. simpl app in E.
    rewrite E, (startsWith_nil p Hp).
    now destruct (find p b).
  - change (find p ((y :: a) ++ c :: b))
      with (if startsWith p ((y :: a) ++ c :: b) then Some 0
            else option_map S (find p (a ++ c :: b))).
    change (find p (y :: a))
      with (if startsWith p (y :: a) then Some 0
            else option_map S (find p a)).
    rewrite (startsWith_sep p (y :: a) b c Hc), IH.
    destruct (startsWith p (y :: a)); [reflexivity|].
    destruct (find p a); simpl; [reflexivity|].
    now destruct (find p b).
Qed.

Lemma find_prefix (p s : jsstring) : find p (p ++ s) = Some 0.
Proof.
  destruct p as [|x p]; [now destruct s|].
  simpl app.
  change (find (x :: p) (x :: p ++ s))
    with (if startsWith (x :: p) ((x :: p) ++ s) then Some 0
          else option_map S (find (x :: p) (p ++ s))).
  now rewrite startsWith_app.
Qed.

Lemma find_single_None (c : N) (s : jsstring) :
  ~ In c s -> find [c] s = None.
Proof.
  induction s as [|y s IH]; intros H; [reflexivity|].
  simpl. destruct (N.eqb c y) eqn:E.
  - apply N.eqb_eq in E. subst. exfalso. apply H. now left.
  - simpl. rewrite IH; [reflexivity|]. intro. apply H. now right.
Qed.

Lemma find_single_first (c : N) (a b : jsstring) :
  ~ In c a -> find [c] (a ++ c :: b) = Some (List.length a).
Proof.
  induction a as [|y a IH]; intros H; simpl.
  - now rewrite N.eqb_refl.
  - destruct (N.eqb c y) eqn:E.
    + apply N.eqb_eq in E. subst. exfalso. apply H. now left.
    + simpl. rewrite IH; [reflexivity|]. intro. apply H. now right.
Qed.

Lemma includes_single_false (c : N) (s : jsstring) :
  ~ In c s -> includes [c] s = false.
Proof. intros H. unfold includes. now rewrite find_single_None. Qed.

Lemma includes_false_find (p s : jsstring) :
  includes p s = false -> find p s = None.
Proof. unfold includes. now destruct (find p s). Qed.

(** *** Trimming *)

Lemma dropWhile_all {A} (f : A -> bool) (w : list A) :
  forallb f w = true -> dropWhile f w = [].
Proof.
  induction w as [|x w IH]; simpl; [reflexivity|].
  intros H. apply andb_true_iff in H. destruct H as [Hx Hw].
  rewrite Hx. now apply IH.
Qed.

Lemma dropWhile_app_all {A} (f : A -> bool) (w s : list A) :
  forallb f w = true -> dropWhile f (w ++ s) = dropWhile f s.
Proof.
  induction w as [|x w IH]; simpl; [reflexivity|].
  intros H. apply andb_true_iff in H. destruct H as [Hx Hw].
  rewrite Hx. now apply IH.
Qed.

Lemma dropWhile_length {A} (f : A -> bool) (l : list A) :
  List.length (dropWhile f l) <= List.length l.
Proof.
  induction l as [|x l IH]; simpl; [lia|]. destruct (f x); simpl; lia.
Qed.

Lemma dropWhile_same_length {A} (f : A -> bool) (l : list A) :
  List.length (dropWhile f l) = List.length l -> dropWhile f l = l.
Proof.
  destruct l as [|x l]; simpl; [reflexivity|].
  destruct (f x); [|reflexivity].
  intros H. pose proof (dropWhile_length f l). lia.
Qed.

Lemma trim_fixed (s : jsstring) : no_lead s -> no_trail s -> trim s = s.
Proof.
  unfold no_lead, no_trail, trim, trimEnd, trimStart.
  intros -> ->. apply rev_involutive.
Qed.

Lemma trim_fixed_inv (s : jsstring) : trim s = s -> no_lead s /\ no_trail s.
Proof.
  unfold trim, trimEnd, trimStart, no_lead, no_trail. intros H.
  assert (L1 := dropWhile_length is_whitespace s).
  assert (L2 := dropWhile_length is_whitespace
                  (rev (dropWhile is_whitespace s))).
  assert (L3 : List.length s
               = List.length
                   (dropWhile is_whitespace
                      (rev (dropWhile is_whitespace s)))).
  { rewrite <- H at 1. now rewrite length_rev. }
  rewrite length_rev in L2.
  assert (E1 : dropWhile is_whitespace s = s).
  { apply dropWhile_same_length. lia. }
  split; [exact E1|].
  rewrite E1 in L3. apply dropWhile_same_length.
  rewrite length_rev. lia.
Qed.

Lemma no_lead_app (a b : jsstring) :
  a <> [] -> no_lead a -> no_lead (a ++ b).
Proof.
  unfold no_lead. destruct a as [|x a]; [congruence|]. intros _. simpl.
  destruct (is_whitespace x); [|reflexivity].
  intros H. pose proof (dropWhile_length is_whitespace a) as L.
  rewrite H in L. simpl in L. lia.
Qed.

Lemma no_trail_app (a b : jsstring) :
  b <> [] -> no_trail b -> no_trail (a ++ b).
Proof.
  unfold no_trail. intros Hb H. rewrite rev_app_distr.
  apply (no_lead_app (rev b) (rev a)); [|exact H].
  intros E. apply Hb. rewrite <- (rev_involutive b), E. reflexivity.
Qed.

(** Trimming takes whitespace off both sides of a tight string. *)
Lemma trim_padded (w1 s w2 : jsstring) :
  forallb is_whitespace w1 = true -> forallb is_whitespace w2 = true ->
  no_lead s -> no_trail s ->
  trim (w1 ++ s ++ w2) = s.
Proof.
  intros H1 H2 Hl Ht. unfold trim, trimStart, trimEnd.
  rewrite (dropWhile_app_all _ w1 _ H1).
  destruct s as [|x s].
  - simpl. now rewrite (dropWhile_all _ w2 H2).
  - assert (E : dropWhile is_whitespace ((x :: s) ++ w2) = (x :: s) ++ w2).
    { apply (no_lead_app (x :: s) w2); [discriminate | exact Hl]. }
    rewrite E, rev_app_distr.
    rewrite (dropWhile_app_all _ (rev w2)).
    + unfold no_trail in Ht. rewrite Ht. apply rev_involutive.
    + rewrite forallb_forall in *. intros y Hy. apply H2.
      now apply in_rev.
Qed.

(** *** Slices *)

Lemma clamp_of_nat (len i : nat) : clamp len (Z.of_nat i) = Nat.min i len.
Proof.
  unfold clamp. destruct (Z.ltb_spec (Z.of_nat i) 0); [lia|].
  now rewrite Nat2Z.id.
Qed.

Lemma slice_middle {A} (a b c : list A) :
  slice (a ++ b ++ c) (Z.of_nat (List.length a))
    (Z.of_nat (List.length a + List.length b)) = b.
Proof.
  unfold slice. rewrite !clamp_of_nat, !length_app.
  rewrite !Nat.min_l by lia.
  rewrite skipn_app, skipn_all, Nat.sub_diag. simpl.
  replace (List.length a + List.length b - List.length a)
    with (List.length b + 0) by lia.
  rewrite firstn_app_2. simpl. apply app_nil_r.
Qed.

Lemma slice_prefix {A} (a b : list A) :
  slice (a ++ b) 0 (Z.of_nat (List.length a)) = a.
Proof. exact (slice_middle [] a b). Qed.

Lemma slice_from_app {A} (a b : list A) :
  slice_from (a ++ b) (Z.of_nat (List.length a)) = b.
Proof.
  unfold slice_from. rewrite clamp_of_nat, length_app.
  rewrite Nat.min_l by lia.
  now rewrite skipn_app, skipn_all, Nat.sub_diag.
Qed.

(** *** Splitting and joining *)

Lemma split_no_sep (c : N) (s : jsstring) : ~ In c s -> split c s = [s].
Proof.
  induction s as [|x s IH]; intros H; simpl; [reflexivity|].
  destruct (N.eqb x c) eqn:E.
  - apply N.eqb_eq in E. subst. exfalso. apply H. now left.
  - rewrite IH; [reflexivity|]. intro. apply H. now right.
Qed.

Lemma split_app_sep (c : N) (a b : jsstring) :
  ~ In c a -> split c (a ++ c :: b) = a :: split c b.
Proof.
  induction a as [|x a IH]; intros H; simpl.
  - now rewrite N.eqb_refl.
  - destruct (N.eqb x c) eqn:E.
    + apply N.eqb_eq in E. subst. exfalso. apply H. now left.
    + rewrite IH; [reflexivity|]. intro. apply H. now right.
Qed.

Lemma join_cons (sep x : jsstring) (l : list jsstring) :
  l <> [] -> join sep (x :: l) = x ++ sep ++ join sep l.
Proof. destruct l; [congruence | reflexivity]. Qed.

Lemma split_join (c : N) (l : list jsstring) :
  l <> [] -> Forall (fun s => ~ In c s) l -> split c (join [c] l) = l.
Proof.
  induction l as [|x l IH]; [congruence|]. intros _ H.
  inversion H as [|? ? Hx Hl]; subst.
  destruct l as [|y l].
  - simpl. now apply split_no_sep.
  - rewrite join_cons by discriminate. simpl app.
    rewrite split_app_sep by exact Hx.
    f_equal. apply IH; [discriminate | exact Hl].
Qed.

End JsFacts.

(* ------------------------------------------------------------------------- *)
(** ** Frontmatter utilities *)
(* ------------------------------------------------------------------------- *)

Section FrontmatterFacts.
Import Js Frontmatter.
Variable JsNumber : Type.
Variable Number : jsstring -> option JsNumber.
Variable Number_toString : JsNumber -> jsstring.

(** *** The [try] block completes normally *)

Lemma key_value_step_normal lines line trimmedLine (st : LoopState JsNumber) :
  exists st', key_value_step Number lines line trimmedLine st = Normal st'.
Proof.
  unfold key_value_step.
  destruct (0 <? _)%Z; [|eauto].
  destruct (eqb _ [] && _); [eauto|].
  destruct (eqb _ []); eauto.
Qed.

Lemma line_step_normal lines (st : LoopState JsNumber) line :
  exists st', line_step Number lines st line = Normal st'.
Proof.
  unfold line_step. destruct (inArray st).
  - destruct (startsWith _ _); [eauto | apply key_value_step_normal].
  - apply key_value_step_normal.
Qed.

Lemma run_lines_normal lines todo (st : LoopState JsNumber) :
  exists st', run_lines Number lines todo st = Normal st'.
Proof.
  revert st. induction todo as [|line todo IH]; intros st; simpl; [eauto|].
  destruct (line_step_normal lines st line) as [st' ->]. apply IH.
Qed.

Lemma parse_block_normal (yamlStr : jsstring) :
  exists record, parse_block Number yamlStr = Normal record.
Proof.
  unfold parse_block.
  destruct (run_lines_normal (split LF yamlStr) (split LF yamlStr)
              {| fm := []; currentKey := []; inArray := false;
                 arrayValues := [] |}) as [st ->].
  destruct (inArray st && _); eauto.
Qed.

(** C3, as amended: a text that does not begin with the delimiter, or that
    has no second delimiter after it, parses to a null frontmatter with the
    whole text as body; any other text parses to a record (not null), with
    what follows the second delimiter, trimmed, as body; the [try] block
    never throws, so [parseFrontmatter] returns on every input and its
    [catch] is never taken. *)
Theorem parseFrontmatter_null_cases (content : jsstring) :
  (startsWith (str "---") content = false ->
   parseFrontmatter Number content
   = {| frontmatter := None; body := content |})
  /\ (indexOf (str "---") content 3 = (-1)%Z ->
      parseFrontmatter Number content
      = {| frontmatter := None; body := content |})
  /\ (startsWith (str "---") content = true ->
      indexOf (str "---") content 3 <> (-1)%Z ->
      exists record,
        parse_block Number
          (trim (slice content 3 (indexOf (str "---") content 3)))
        = Normal record
        /\ parseFrontmatter Number content
           = {| frontmatter := Some record;
                body :=
                  trim (slice_from content
                          (indexOf (str "---") content 3 + 3)) |})
  /\ (forall yamlStr,
        parse_block Number yamlStr <> Throw).
Proof.
  split; [|split; [|split]].
  - intros H. unfold parseFrontmatter. now rewrite H.
  - intros H. unfold parseFrontmatter. rewrite H.
    now destruct (negb _).
  - intros H1 H2. unfold parseFrontmatter. rewrite H1. simpl negb. cbv iota.
    apply Z.eqb_neq in H2. rewrite H2.
    destruct (parse_block_normal
                (trim (slice content 3 (indexOf (str "---") content 3))))
      as [record E].
    exists record. now rewrite E.
  - intros yamlStr. destruct (parse_block_normal yamlStr) as [r ->].
    discriminate.
Qed.

(** *** The typing of values, case by case

    What [type_value] does on a non-empty value, in the order in which the
    source tests it: the double quote is looked at before the comma, the
    single quote after it. *)
Lemma type_value_cases (value : jsstring) :
  (startsWith [DQUOTE] value = true -> endsWith [DQUOTE] value = true ->
   type_value Number value = VString (slice value 1 (-1)))
  /\ (startsWith [DQUOTE] value = false -> includes [COMMA] value = true ->
      type_value Number value
      = VArray (map (fun v => VString (trim v)) (split COMMA value)))
  /\ (includes [COMMA] value = false ->
      startsWith [SQUOTE] value = true -> endsWith [SQUOTE] value = true ->
      type_value Number value = VString (slice value 1 (-1)))
  /\ (value = str "true" -> type_value Number value = VBoolean true)
  /\ (value = str "false" -> type_value Number value = VBoolean false)
  /\ (includes [COMMA] value = false ->
      startsWith [DQUOTE] value && endsWith [DQUOTE] value = false ->
      startsWith [SQUOTE] value && endsWith [SQUOTE] value = false ->
      value <> str "true" -> value <> str "false" ->
      type_value Number value
      = match Number value with
        | Some n => VNumber n
        | None => VString value
        end).
Proof.
  unfold type_value. repeat split.
  - intros H1 H2. rewrite H1, H2. cbn [negb andb].
    now rewrite andb_false_r.
  - intros H1 H2. now rewrite H1, H2.
  - intros H1 H2 H3. rewrite H1. cbn [andb].
    destruct (startsWith [DQUOTE] value && endsWith [DQUOTE] value);
      [reflexivity|].
    now rewrite H2, H3.
  - intros ->. reflexivity.
  - intros ->. reflexivity.
  - intros H1 H2 H3 H4 H5. rewrite H1, H2, H3. cbn [andb].
    apply eqb_neq in H4, H5. now rewrite H4, H5.
Qed.

(** *** What the side conditions of the round trip give *)

Lemma has_none_of_not_In (forbidden : list N) (s : jsstring) (c : N) :
  has_none_of forbidden s = true -> In c forbidden -> ~ In c s.
Proof.
  unfold has_none_of. rewrite forallb_forall. intros H Hc Hin.
  specialize (H c Hin). apply negb_true_iff in H.
  assert (E : existsb (N.eqb c) forbidden = true).
  { apply existsb_exists. exists c. split; [exact Hc | apply N.eqb_refl]. }
  congruence.
Qed.

Lemma startsWith_single_false (c : N) (s : jsstring) :
  ~ In c s -> startsWith [c] s = false.
Proof.
  destruct s as [|y s]; [reflexivity|]. intros H. simpl.
  destruct (N.eqb c y) eqn:E; [|reflexivity].
  apply N.eqb_eq in E. subst. exfalso. apply H. now left.
Qed.

Lemma round_trip_value_facts (v : jsstring) :
  round_trip_value Number v = true -> value_facts Number v.
Proof.
  unfold round_trip_value, plain_value.
  rewrite !andb_true_iff, !negb_true_iff.
  intros [[[[[[Hne Hch] Ht] Hf] Hn] Htrim] Hd].
  apply eqb_eq, trim_fixed_inv in Htrim. destruct Htrim as [Hl Htr].
  constructor; trivial.
  - now apply eqb_neq.
  - intros c Hc. now apply (has_none_of_not_In _ _ _ Hch).
  - now destruct (Number v).
  - now apply includes_false_find.
Qed.

Lemma round_trip_key_facts (k : jsstring) :
  round_trip_key k = true -> key_facts k.
Proof.
  unfold round_trip_key. rewrite !andb_true_iff, !negb_true_iff.
  intros [[[[Hne Htrim] Hch] Hd] Hp].
  apply eqb_eq, trim_fixed_inv in Htrim. destruct Htrim as [Hl Htr].
  constructor; trivial.
  - now apply eqb_neq.
  - apply (has_none_of_not_In _ _ _ Hch). simpl. auto.
  - apply (has_none_of_not_In _ _ _ Hch). simpl. auto.
  - now apply includes_false_find.
Qed.

(** *** One line of the block *)

Lemma entry_lines_plain (k v : jsstring) :
  value_facts Number v ->
  entry_lines Number_toString (k, VString v) = [line_of (k, v)].
Proof.
  intros F. unfold entry_lines, line_of.
  rewrite (includes_single_false COLON), (includes_single_false HASH),
    (includes_single_false LF)
    by (apply (v_chars _ _ F); simpl; auto 10).
  reflexivity.
Qed.

Lemma generated_lines (data : list (jsstring * jsstring)) :
  Forall (fun kv => value_facts Number (snd kv)) data ->
  flat_map (entry_lines Number_toString) (record_of data)
  = map line_of data.
Proof.
  induction 1 as [|[k v] data Hv _ IH]; [reflexivity|].
  unfold record_of in *. cbn [map flat_map fst snd] in *.
  rewrite (entry_lines_plain k v Hv), IH. reflexivity.
Qed.

Lemma type_value_plain (v : jsstring) :
  value_facts Number v -> type_value Number v = VString v.
Proof.
  intros F. unfold type_value.
  rewrite (includes_single_false COMMA)
    by (apply (v_chars _ _ F); simpl; auto 10).
  rewrite (startsWith_single_false DQUOTE)
    by (apply (v_chars _ _ F); simpl; auto 10).
  rewrite (startsWith_single_false SQUOTE)
    by (apply (v_chars _ _ F); simpl; auto 10).
  simpl.
  now rewrite (v_not_true _ _ F), (v_not_false _ _ F),
    (v_not_numeric _ _ F).
Qed.

Lemma line_of_no_lead (k v : jsstring) :
  key_facts k -> no_lead (line_of (k, v)).
Proof.
  intros K. apply no_lead_app; [apply (k_nonempty _ K) | apply (k_no_lead _ K)].
Qed.

Lemma line_of_no_trail (k v : jsstring) :
  value_facts Number v -> no_trail (line_of (k, v)).
Proof.
  intros F. unfold line_of. simpl fst. simpl snd.
  change (k ++ COLON :: SPACE :: v) with (k ++ [COLON; SPACE] ++ v).
  rewrite app_assoc.
  apply no_trail_app; [apply (v_nonempty _ _ F) | apply (v_no_trail _ _ F)].
Qed.

Lemma line_of_no_newline (k v : jsstring) :
  key_facts k -> value_facts Number v -> ~ In LF (line_of (k, v)).
Proof.
  intros K F. unfold line_of. simpl fst. simpl snd. intros H.
  apply in_app_or in H. destruct H as [H|[H|[H|H]]].
  - now apply (k_no_newline _ K).
  - discriminate H.
  - discriminate H.
  - apply (v_chars _ _ F LF); simpl; auto 10.
Qed.

Lemma line_of_no_delimiter (k v : jsstring) :
  key_facts k -> value_facts Number v ->
  find (str "---") (line_of (k, v)) = None.
Proof.
  intros K F. unfold line_of. simpl fst. simpl snd.
  rewrite (find_sep (str "---") k (SPACE :: v) COLON);
    [|simpl; intuition discriminate | discriminate].
  rewrite (k_no_delimiter _ K).
  pose proof (find_sep (str "---") [] v SPACE) as E. simpl app in E.
  rewrite E; [|simpl; intuition discriminate | discriminate].
  rewrite (find_nil (str "---")) by discriminate.
  now rewrite (v_no_delimiter _ _ F).
Qed.

(** A line written for a plain entry is read back as that entry. *)
Lemma line_step_plain (lines : list jsstring) (st : LoopState JsNumber)
    (k v : jsstring) :
  key_facts k -> value_facts Number v -> inArray st = false ->
  line_step Number lines st (line_of (k, v))
  = Normal {| fm := obj_set k (VString v) (fm st);
              currentKey := currentKey st; inArray := false;
              arrayValues := arrayValues st |}.
Proof.
  intros K F Hin. unfold line_step. rewrite Hin.
  rewrite (trim_fixed _ (line_of_no_lead k v K) (line_of_no_trail k v F)).
  unfold key_value_step, line_of. simpl fst. simpl snd.
  assert (Hidx : indexOf [COLON] (k ++ COLON :: SPACE :: v) 0
                 = Z.of_nat (List.length k)).
  { unfold indexOf. simpl Nat.min. simpl skipn.
    now rewrite (find_single_first COLON k (SPACE :: v) (k_no_colon _ K)). }
  rewrite Hidx.
  assert (Hpos : (0 <? Z.of_nat (List.length k))%Z = true).
  { apply Z.ltb_lt. pose proof (k_nonempty _ K).
    destruct k; simpl; [easy|lia]. }
  rewrite Hpos.
  assert (Hkey : trim (slice (k ++ COLON :: SPACE :: v) 0
                         (Z.of_nat (List.length k))) = k).
  { rewrite slice_prefix.
    apply trim_fixed; [apply (k_no_lead _ K) | apply (k_no_trail _ K)]. }
  assert (Hval : trim (slice_from (k ++ COLON :: SPACE :: v)
                         (Z.of_nat (List.length k) + 1)) = v).
  { pose proof (slice_from_app (k ++ [COLON]) (SPACE :: v)) as E.
    rewrite <- app_assoc in E. simpl app in E.
    rewrite length_app in E. simpl List.length in E.
    rewrite Nat2Z.inj_add in E. simpl Z.of_nat in E. rewrite E.
    pose proof (trim_padded [SPACE] v [] eq_refl eq_refl
                  (v_no_lead _ _ F) (v_no_trail _ _ F)) as T.
    now rewrite app_nil_r in T. }
  rewrite Hkey, Hval.
  assert (Hne : eqb v [] = false) by (apply eqb_neq, (v_nonempty _ _ F)).
  rewrite Hne. simpl andb. cbv iota.
  rewrite (type_value_plain v F), Hin. reflexivity.
Qed.

(** *** The loop over the block *)

Lemma run_lines_plain (lines : list jsstring)
    (data : list (jsstring * jsstring)) (st : LoopState JsNumber) :
  Forall (fun kv => key_facts (fst kv) /\ value_facts Number (snd kv)) data ->
  inArray st = false ->
  run_lines Number lines (map line_of data) st
  = Normal (with_fm
              (fold_left (fun o kv => obj_set (fst kv) (VString (snd kv)) o)
                 data (fm st)) st).
Proof.
  intros H. revert st. induction H as [|[k v] data [K F] _ IH]; intros st Hin.
  - simpl. unfold with_fm. now destruct st.
  - cbn [map run_lines]. simpl in K, F.
    rewrite (line_step_plain lines st k v K F Hin).
    rewrite IH by reflexivity. unfold with_fm. simpl. now rewrite Hin.
Qed.

Lemma obj_update_fresh (k : jsstring) (v : Value JsNumber)
    (o : Obj JsNumber) :
  ~ In k (map fst o) -> obj_update k v o = o ++ [(k, v)].
Proof.
  induction o as [|[k' v'] o IH]; intros H; simpl; [reflexivity|].
  destruct (eqb k' k) eqn:E.
  - apply eqb_eq in E. subst. exfalso. apply H. now left.
  - rewrite IH; [reflexivity|]. intro. apply H. now right.
Qed.

Lemma fold_obj_set (data : list (jsstring * jsstring)) (o : Obj JsNumber) :
  Forall (fun kv => key_facts (fst kv)) data ->
  NoDup (map fst o ++ map fst data) ->
  fold_left (fun o kv => obj_set (fst kv) (VString (snd kv)) o) data o
  = o ++ record_of data.
Proof.
  intros H. revert o. induction H as [|[k v] data K _ IH]; intros o Hnd.
  - simpl. now rewrite app_nil_r.
  - cbn [fold_left fst snd]. simpl in K. unfold obj_set.
    rewrite (k_not_proto _ K).
    assert (Hk : ~ In k (map fst o)).
    { intros Hin. simpl in Hnd. apply NoDup_remove_2 in Hnd. apply Hnd.
      apply in_or_app. now left. }
    rewrite (obj_update_fresh k _ o Hk), IH.
    + unfold record_of. simpl. now rewrite <- app_assoc.
    + rewrite map_app. simpl. rewrite <- app_assoc. exact Hnd.
Qed.

(** *** The shape of a generated document *)

Lemma join_then (ls : list jsstring) (d : jsstring) :
  join [LF] (ls ++ [d]) = ended ls ++ d.
Proof.
  induction ls as [|x ls IH]; [reflexivity|].
  change ((x :: ls) ++ [d]) with (x :: (ls ++ [d])).
  rewrite join_cons
    by (intros E; apply app_eq_nil in E; destruct E; discriminate).
  rewrite IH. unfold ended. cbn [map List.concat].
  rewrite <- !app_assoc. reflexivity.
Qed.

Lemma ended_join (ls : list jsstring) :
  ended ls ++ [] = ended ls /\ (ls <> [] -> ended ls = join [LF] ls ++ [LF]).
Proof.
  split; [apply app_nil_r|]. intros Hne.
  induction ls as [|x ls IH]; [congruence|].
  destruct ls as [|y ls].
  - unfold ended. simpl. now rewrite app_nil_r.
  - rewrite join_cons by discriminate.
    unfold ended in *. cbn [map List.concat]. cbn [map List.concat] in IH.
    rewrite IH by discriminate. now rewrite <- !app_assoc.
Qed.

Lemma find_after_lines (p : jsstring) (ls : list jsstring) (t : jsstring) :
  ~ In LF p -> p <> [] ->
  Forall (fun l => find p l = None) ls ->
  find p (ended ls ++ p ++ t) = Some (List.length (ended ls)).
Proof.
  intros Hlf Hp H. induction H as [|l ls Hl _ IH].
  - exact (find_prefix p t).
  - unfold ended in *. cbn [map List.concat].
    rewrite <- !app_assoc. simpl app.
    rewrite (find_sep p l _ LF Hlf Hp), Hl, IH. simpl.
    rewrite !length_app. simpl. f_equal. lia.
Qed.

Lemma no_lead_join (ls : list jsstring) :
  Forall (fun l => l <> [] /\ no_lead l) ls -> no_lead (join [LF] ls).
Proof.
  intros H. destruct H as [|x ls [Hx Hl] H]; [reflexivity|].
  destruct ls as [|y ls]; [exact Hl|].
  rewrite join_cons by discriminate. now apply no_lead_app.
Qed.

Lemma no_trail_join (ls : list jsstring) :
  Forall (fun l => l <> [] /\ no_trail l) ls -> no_trail (join [LF] ls).
Proof.
  intros H. induction H as [|x ls [Hx Hl] H IH]; [reflexivity|].
  destruct ls as [|y ls]; [exact Hl|].
  rewrite join_cons by discriminate. rewrite app_assoc.
  apply no_trail_app; [|exact IH].
  inversion H as [|? ? [Hy _] _]; subst.
  destruct ls; [exact Hy|].
  rewrite join_cons by discriminate. now destruct y.
Qed.

Lemma line_of_nonempty (k v : jsstring) : line_of (k, v) <> [].
Proof. unfold line_of. simpl. now destruct k. Qed.

Lemma round_trip_entries_facts (data : list (jsstring * jsstring)) :
  forallb (round_trip_entry Number) data = true ->
  Forall (fun kv => key_facts (fst kv) /\ value_facts Number (snd kv)) data.
Proof.
  rewrite forallb_forall, Forall_forall. intros H kv Hin.
  specialize (H kv Hin). unfold round_trip_entry in H.
  apply andb_true_iff in H. destruct H as [Hk Hv].
  split; [now apply round_trip_key_facts | now apply round_trip_value_facts].
Qed.

(** The document written for a plain record. *)
Lemma createMarkdownContent_shape (data : list (jsstring * jsstring))
    (text : jsstring) :
  Forall (fun kv => value_facts Number (snd kv)) data ->
  createMarkdownContent Number_toString (record_of data) text
  = str "---" ++ (LF :: ended (map line_of data))
    ++ (str "---" ++ LF :: LF :: text).
Proof.
  intros H. unfold createMarkdownContent, generateFrontmatter.
  rewrite (generated_lines data H).
  change ([str "---"] ++ map line_of data ++ [str "---"])
    with (str "---" :: (map line_of data ++ [str "---"])).
  rewrite join_cons
    by (intros E; apply app_eq_nil in E; destruct E; discriminate).
  rewrite join_then. rewrite <- !app_assoc. reflexivity.
Qed.

(** The block of a plain record is read back as that record. *)
Lemma parse_block_plain (data : list (jsstring * jsstring)) :
  Forall (fun kv => key_facts (fst kv) /\ value_facts Number (snd kv)) data ->
  NoDup (map fst data) ->
  parse_block Number (trim (LF :: ended (map line_of data)))
  = Normal (record_of data).
Proof.
  intros H Hnd. destruct data as [|kv data]; [reflexivity|].
  set (ls := map line_of (kv :: data)).
  assert (Hne : ls <> []) by discriminate.
  assert (Hlead : no_lead (join [LF] ls)).
  { apply no_lead_join. unfold ls. apply Forall_map.
    apply (Forall_impl _ (P := fun kv => key_facts (fst kv)
                                          /\ value_facts Number (snd kv)));
      [|exact H].
    intros [k v] [K F]. split;
      [apply line_of_nonempty | now apply line_of_no_lead]. }
  assert (Htrail : no_trail (join [LF] ls)).
  { apply no_trail_join. unfold ls. apply Forall_map.
    apply (Forall_impl _ (P := fun kv => key_facts (fst kv)
                                          /\ value_facts Number (snd kv)));
      [|exact H].
    intros [k v] [K F]. split;
      [apply line_of_nonempty | now apply line_of_no_trail]. }
  assert (Hyaml : trim (LF :: ended ls) = join [LF] ls).
  { rewrite (proj2 (ended_join ls) Hne).
    exact (trim_padded [LF] (join [LF] ls) [LF] eq_refl eq_refl
             Hlead Htrail). }
  rewrite Hyaml. unfold parse_block.
  assert (Hsplit : split LF (join [LF] ls) = ls).
  { apply split_join; [exact Hne|]. unfold ls. apply Forall_map.
    apply (Forall_impl _ (P := fun kv => key_facts (fst kv)
                                          /\ value_facts Number (snd kv)));
      [|exact H].
    intros [k v] [K F]. now apply line_of_no_newline. }
  rewrite Hsplit. unfold ls at 2.
  rewrite (run_lines_plain ls (kv :: data)
             {| fm := []; currentKey := []; inArray := false;
                arrayValues := [] |} H eq_refl).
  cbn [with_fm inArray fm andb].
  rewrite fold_obj_set.
  - reflexivity.
  - apply (Forall_impl _ (P := fun kv => key_facts (fst kv)
                                         /\ value_facts Number (snd kv)));
      [|exact H]. now intros ? [K _].
  - exact Hnd.
Qed.

(** C5, as amended: for a flat record of distinct keys whose values are
    non-empty strings with no comma, colon, quote, hash or newline, not
    [true] or [false], not numeric, with no whitespace around them and no
    delimiter in them, and whose keys are not empty, have no whitespace
    around them, contain no colon, newline or delimiter and are not
    [__proto__], and for a trimmed body, parsing the document created from
    the record and the body gives back that record and that body. *)
Theorem createMarkdownContent_round_trip
    (data : list (jsstring * jsstring)) (text : jsstring) :
  NoDup (map fst data) ->
  forallb (round_trip_entry Number) data = true ->
  trim text = text ->
  parseFrontmatter Number
    (createMarkdownContent Number_toString (record_of data) text)
  = {| frontmatter := Some (record_of data); body := text |}.
Proof.
  intros Hnd Hdata Htext.
  pose proof (round_trip_entries_facts data Hdata) as H.
  assert (Hv : Forall (fun kv => value_facts Number (snd kv)) data).
  { apply (Forall_impl _ (P := fun kv => key_facts (fst kv)
                                          /\ value_facts Number (snd kv)));
      [|exact H]. now intros ? [_ F]. }
  rewrite (createMarkdownContent_shape data text Hv).
  set (ls := map line_of data).
  set (rest := str "---" ++ LF :: LF :: text).
  assert (Hfind : find (str "---") (LF :: ended ls ++ rest)
                  = Some (S (List.length (ended ls)))).
  { pose proof (find_sep (str "---") [] (ended ls ++ rest) LF) as E.
    simpl app in E. rewrite E;
      [|simpl; intuition discriminate | discriminate].
    rewrite (find_nil (str "---")) by discriminate.
    unfold rest.
    rewrite (find_after_lines (str "---") ls (LF :: LF :: text));
      [reflexivity | simpl; intuition discriminate | discriminate |].
    unfold ls. apply Forall_map.
    apply (Forall_impl _ (P := fun kv => key_facts (fst kv)
                                          /\ value_facts Number (snd kv)));
      [|exact H].
    intros [k v] [K F]. now apply line_of_no_delimiter. }
  assert (Hidx : indexOf (str "---")
                   (str "---" ++ (LF :: ended ls) ++ rest) 3
                 = Z.of_nat (3 + S (List.length (ended ls)))).
  { unfold indexOf. rewrite Nat.min_l by (rewrite length_app; simpl; lia).
    change 3 with (List.length (str "---")) at 1.
    rewrite skipn_app, skipn_all, Nat.sub_diag. cbn [skipn app].
    change ((LF :: ended ls) ++ rest) with (LF :: ended ls ++ rest).
    now rewrite Hfind. }
  unfold parseFrontmatter.
  rewrite startsWith_app. cbn [negb]. rewrite Hidx.
  assert (Hnot : (Z.of_nat (3 + S (List.length (ended ls))) =? -1)%Z
                 = false) by (apply Z.eqb_neq; lia).
  rewrite Hnot.
  assert (Hblock : slice (str "---" ++ (LF :: ended ls) ++ rest) 3
                     (Z.of_nat (3 + S (List.length (ended ls))))
                   = LF :: ended ls).
  { exact (slice_middle (str "---") (LF :: ended ls) rest). }
  assert (Hbody : slice_from (str "---" ++ (LF :: ended ls) ++ rest)
                    (Z.of_nat (3 + S (List.length (ended ls))) + 3)
                  = LF :: LF :: text).
  { pose proof (slice_from_app
                  (str "---" ++ (LF :: ended ls) ++ str "---")
                  (LF :: LF :: text)) as E.
    rewrite <- !app_assoc in E. cbn [app] in E.
    unfold rest. cbn [app].
    match type of E with
    | slice_from _ ?i = _ =>
        replace (Z.of_nat (3 + S (List.length (ended ls))) + 3)%Z with i
          by (rewrite !length_app; simpl List.length;
              rewrite !length_app; simpl List.length; lia)
    end.
    exact E. }
  rewrite Hblock, Hbody. unfold ls.
  rewrite (parse_block_plain data H Hnd).
  f_equal.
  destruct (trim_fixed_inv text Htext) as [Hl Ht].
  pose proof (trim_padded [LF; LF] text [] eq_refl eq_refl Hl Ht) as T.
  now rewrite app_nil_r in T.
Qed.

End FrontmatterFacts.

(** C3, as stated, fails: a block whose only line is not a [key: value]
    pair is not reported as null; the line is skipped, the record is empty
    and the body is what follows the block. *)
Lemma parseFrontmatter_malformed_block_not_null :
  let content :=
    Frontmatter.document ["---"; "not a pair"; "---"; "body"]%string in
  Frontmatter.parseFrontmatter Js.Number content
  = {| Frontmatter.frontmatter := Some [];
       Frontmatter.body := Js.str "body" |}
  /\ Frontmatter.parseFrontmatter Js.Number content
     <> {| Frontmatter.frontmatter := None;
           Frontmatter.body := content |}.
Proof. split; [reflexivity | discriminate]. Qed.

(** C4, evaluated: a single-quoted value with a comma in it is split at the
    comma, quotes and all, where a double-quoted one and a single-quoted
    one without comma yield their content. *)
Theorem parseFrontmatter_single_quoted_comma :
  Frontmatter.parseFrontmatter Js.Number
    (Frontmatter.document ["---"; "k: 'a, b'"; "---"]%string)
  = {| Frontmatter.frontmatter :=
         Some [(Js.str "k",
                Frontmatter.VArray
                  [Frontmatter.VString (Js.str "'a");
                   Frontmatter.VString (Js.str "b'")])];
       Frontmatter.body := [] |}
  /\ Frontmatter.parseFrontmatter Js.Number
       (Frontmatter.document ["---"; "k: 'a b'"; "---"]%string)
     = {| Frontmatter.frontmatter :=
            Some [(Js.str "k", Frontmatter.VString (Js.str "a b"))];
          Frontmatter.body := [] |}
  /\ Frontmatter.type_value Js.Number
       ([Js.DQUOTE] ++ Js.str "a, b" ++ [Js.DQUOTE])
     = Frontmatter.VString (Js.str "a, b").
Proof. repeat split. Qed.

(** C5, as stated, fails: a value with a space in front satisfies the
    conditions of the claim, and comes back without the space. *)
Lemma createMarkdownContent_round_trip_fails :
  let data := [(Js.str "k", Js.str " x")] in
  let text := Js.str "Body" in
  forallb (fun kv => Frontmatter.plain_value Js.Number (snd kv)) data = true
  /\ Frontmatter.plain_body text = true
  /\ Frontmatter.parseFrontmatter Js.Number
       (Frontmatter.createMarkdownContent (fun _ : Js.Num => [])
          (Frontmatter.record_of data) text)
     = {| Frontmatter.frontmatter :=
            Some (Frontmatter.record_of [(Js.str "k", Js.str "x")]);
          Frontmatter.body := text |}
  /\ Frontmatter.parseFrontmatter Js.Number
       (Frontmatter.createMarkdownContent (fun _ : Js.Num => [])
          (Frontmatter.record_of data) text)
     <> {| Frontmatter.frontmatter := Some (Frontmatter.record_of data);
           Frontmatter.body := text |}.
Proof.
  split; [reflexivity|]. split; [reflexivity|]. split; [reflexivity|].
  vm_compute. discriminate.
Qed.

(** An agent definition written and read back. *)
Lemma createMarkdownContent_round_trip_witness :
  let data := [ (Js.str "name", Js.str "reviewer");
                (Js.str "model", Js.str "sonnet") ] in
  let text := Js.str "Review the code." in
  Frontmatter.parseFrontmatter Js.Number
    (Frontmatter.createMarkdownContent (fun _ : Js.Num => [])
       (Frontmatter.record_of data) text)
  = {| Frontmatter.frontmatter := Some (Frontmatter.record_of data);
       Frontmatter.body := text |}.
Proof.
  intros data text.
  apply (createMarkdownContent_round_trip Js.Num Js.Number
           (fun _ : Js.Num => []) data text).
  - repeat constructor; simpl; intuition discriminate.
  - reflexivity.
  - reflexivity.
Defined.

(** Each further condition of the amended round trip is needed. *)
Example round_trip_needs_no_delimiter_in_value :
  ~ Frontmatter.round_trips "k" "a---b".
Proof. vm_compute. discriminate. Qed.

Example round_trip_needs_no_colon_in_key : ~ Frontmatter.round_trips "a:b" "x".
Proof. vm_compute. discriminate. Qed.

Example round_trip_needs_key : ~ Frontmatter.round_trips "" "x".
Proof. vm_compute. discriminate. Qed.

Example round_trip_needs_trimmed_key : ~ Frontmatter.round_trips " a" "x".
Proof. vm_compute. discriminate. Qed.

Example round_trip_needs_no_delimiter_in_key :
  ~ Frontmatter.round_trips "a---b" "x".
Proof. vm_compute. discriminate. Qed.

Example round_trip_needs_other_than_proto :
  ~ Frontmatter.round_trips "__proto__" "x".
Proof. vm_compute. discriminate. Qed.

Example round_trip_plain : Frontmatter.round_trips "name" "reviewer".
Proof. reflexivity. Qed.

(* ------------------------------------------------------------------------- *)
(** ** More on JavaScript strings *)
(* ------------------------------------------------------------------------- *)

Section JsMoreFacts.
Import Js.

Lemma dropWhile_split {A} (f : A -> bool) (l : list A) :
  exists p, l = p ++ dropWhile f l /\ forallb f p = true.
Proof.
  induction l as [|x l [p [E Hp]]]; [now exists []|].
  simpl. destruct (f x) eqn:Fx.
  - exists (x :: p). simpl. rewrite Fx, Hp. split; [now f_equal | reflexivity].
  - now exists [].
Qed.

Lemma dropWhile_idem {A} (f : A -> bool) (l : list A) :
  dropWhile f (dropWhile f l) = dropWhile f l.
Proof.
  induction l as [|x l IH]; [reflexivity|]. simpl.
  destruct (f x) eqn:Fx; [exact IH|]. simpl. now rewrite Fx.
Qed.

Lemma dropWhile_In {A} (f : A -> bool) (l : list A) (x : A) :
  In x (dropWhile f l) -> In x l.
Proof.
  destruct (dropWhile_split f l) as [p [E _]]. intros H.
  rewrite E. apply in_or_app. now right.
Qed.

Lemma no_lead_head (x : N) (s : jsstring) :
  no_lead (x :: s) <-> is_whitespace x = false.
Proof.
  unfold no_lead. simpl. destruct (is_whitespace x); split; try easy.
  intros H. pose proof (dropWhile_length is_whitespace s) as L.
  rewrite H in L. simpl in L. lia.
Qed.

(** A trimmed string has no whitespace at either end. *)
Lemma trim_tight (s : jsstring) : no_lead (trim s) /\ no_trail (trim s).
Proof.
  unfold trim, trimStart, trimEnd.
  set (d := dropWhile is_whitespace s).
  set (e := dropWhile is_whitespace (rev d)).
  assert (Hd : no_lead d) by apply dropWhile_idem.
  assert (He : dropWhile is_whitespace e = e) by apply dropWhile_idem.
  split.
  - destruct (dropWhile_split is_whitespace (rev d)) as [p [E _]].
    fold e in E. apply (f_equal (@rev N)) in E.
    rewrite rev_involutive, rev_app_distr in E.
    destruct (rev e) as [|x r] eqn:R; [reflexivity|].
    apply no_lead_head. rewrite E in Hd. simpl in Hd.
    now apply no_lead_head in Hd.
  - unfold no_trail. now rewrite rev_involutive.
Qed.

Lemma trim_idem (s : jsstring) : trim (trim s) = trim s.
Proof. destruct (trim_tight s). now apply trim_fixed. Qed.

Lemma trim_In (s : jsstring) (c : N) : In c (trim s) -> In c s.
Proof.
  unfold trim, trimEnd, trimStart. intros H.
  apply in_rev in H. apply dropWhile_In in H. apply in_rev in H.
  now apply dropWhile_In in H.
Qed.

(** Trimming keeps the first code unit of a string that starts with
    something else than whitespace. *)
Lemma trim_nonempty (s : jsstring) : s <> [] -> no_lead s -> trim s <> [].
Proof.
  intros Hne Hl E. unfold trim, trimEnd, trimStart in E.
  unfold no_lead in Hl. rewrite Hl in E.
  destruct (dropWhile_split is_whitespace (rev s)) as [p [Ep Hp]].
  assert (Ed : dropWhile is_whitespace (rev s) = []).
  { apply (f_equal (@rev N)) in E. now rewrite rev_involutive in E. }
  rewrite Ed, app_nil_r in Ep.
  destruct s as [|x s]; [congruence|].
  apply no_lead_head in Hl.
  assert (Hx : In x p) by (rewrite <- Ep; apply in_rev; rewrite rev_involutive;
                           now left).
  rewrite forallb_forall in Hp. specialize (Hp x Hx). congruence.
Qed.

Lemma find_Some_split (p s : jsstring) (i : nat) :
  find p s = Some i ->
  exists a b, s = a ++ p ++ b /\ List.length a = i.
Proof.
  revert i. induction s as [|x s IH]; intros i.
  - simpl. destruct (startsWith p []) eqn:E; [|discriminate].
    intros H. injection H as <-. destruct p; [|discriminate].
    now exists [], [].
  - change (find p (x :: s))
      with (if startsWith p (x :: s) then Some 0
            else option_map S (find p s)).
    destruct (startsWith p (x :: s)) eqn:E.
    + intros H. injection H as <-.
      assert (Hpre : forall q t, startsWith q t = true ->
                exists b, t = q ++ b).
      { clear. induction q as [|y q IH]; intros t H; [now exists t|].
        destruct t as [|z t]; [discriminate|]. simpl in H.
        apply andb_true_iff in H. destruct H as [H1 H2].
        apply N.eqb_eq in H1. subst. destruct (IH t H2) as [b ->].
        now exists b. }
      destruct (Hpre _ _ E) as [b Hb]. now exists [], b.
    + destruct (find p s) as [j|] eqn:F; [|discriminate].
      intros H. injection H as <-.
      destruct (IH j eq_refl) as [a [b [-> Hlen]]].
      exists (x :: a), b. simpl. now rewrite Hlen.
Qed.

(** An occurrence is found, at or before where it is known to be. *)
Lemma find_occurrence (p a b : jsstring) :
  exists i, find p (a ++ p ++ b) = Some i /\ i <= List.length a.
Proof.
  induction a as [|x a [i [E Hi]]].
  - exists 0. split; [exact (find_prefix p b) | simpl; lia].
  - change (find p ((x :: a) ++ p ++ b))
      with (if startsWith p ((x :: a) ++ p ++ b) then Some 0
            else option_map S (find p (a ++ p ++ b))).
    destruct (startsWith p _).
    + exists 0. split; [reflexivity | lia].
    + rewrite E. exists (S i). split; [reflexivity | simpl; lia].
Qed.

Lemma find_single_Some (c : N) (s : jsstring) (i : nat) :
  find [c] s = Some i -> ~ In c (firstn i s) /\ nth_error s i = Some c.
Proof.
  revert i. induction s as [|x s IH]; intros i; [discriminate|].
  simpl. destruct (N.eqb_spec c x) as [->|Hne]; simpl.
  - intros H. injection H as <-. simpl. split; [tauto | reflexivity].
  - destruct (find [c] s) as [j|] eqn:F; [|discriminate].
    intros H. injection H as <-. destruct (IH j eq_refl) as [H1 H2].
    simpl. split; [|exact H2]. intros [E|E]; [congruence | contradiction].
Qed.

(** Two texts cut at the first occurrence of a code unit are cut alike. *)
Lemma app_sep_inj (c : N) (a b x y : jsstring) :
  ~ In c a -> ~ In c b -> a ++ c :: x = b ++ c :: y -> a = b /\ x = y.
Proof.
  revert b. induction a as [|u a IH]; intros [|v b] Ha Hb E; simpl in E.
  - injection E as E. now split.
  - injection E as E1 E2. subst. exfalso. apply Hb. now left.
  - injection E as E1 E2. subst. exfalso. apply Ha. now left.
  - injection E as E1 E2. subst.
    destruct (IH b) as [-> ->]; trivial.
    + intro. apply Ha. now right.
    + intro. apply Hb. now right.
    + now split.
Qed.

Lemma array_indexOf_first (x : jsstring) (pre post : list jsstring) :
  ~ In x pre ->
  array_indexOf x (pre ++ x :: post) = Z.of_nat (List.length pre).
Proof.
  induction pre as [|y pre IH]; intros H.
  - simpl. now rewrite eqb_refl.
  - simpl app. simpl array_indexOf.
    destruct (eqb y x) eqn:E.
    + apply eqb_eq in E. subst. exfalso. apply H. now left.
    + rewrite IH by (intro; apply H; now right).
      destruct (Z.ltb_spec (Z.of_nat (List.length pre)) 0); [lia|].
      simpl List.length. lia.
Qed.

Lemma array_get_app {A} (pre post : list A) (i : nat) :
  array_get (pre ++ post) (Z.of_nat (List.length pre + i))
  = nth_error post i.
Proof.
  unfold array_get.
  destruct (Z.ltb_spec (Z.of_nat (List.length pre + i)) 0); [lia|].
  rewrite Nat2Z.id, nth_error_app2 by lia. f_equal. lia.
Qed.

Lemma escape_quotes_none (s : jsstring) :
  ~ In DQUOTE s -> escape_quotes s = s.
Proof.
  unfold escape_quotes. induction s as [|x s IH]; intros H; [reflexivity|].
  simpl. destruct (N.eqb_spec x DQUOTE) as [->|Hne].
  - exfalso. apply H. now left.
  - simpl. f_equal. apply IH. intro. apply H. now right.
Qed.

Lemma includes_single_true (c : N) (s : jsstring) :
  In c s -> includes [c] s = true.
Proof.
  intros H. unfold includes. destruct (find [c] s) eqn:F; [reflexivity|].
  exfalso. revert F. induction s as [|x s IH]; [destruct H|].
  simpl. destruct (N.eqb_spec c x); [discriminate|]. simpl.
  destruct H as [->|H]; [congruence|].
  destruct (find [c] s); [discriminate|]. intros _. now apply IH.
Qed.

Lemma includes_single_In (c : N) (s : jsstring) :
  includes [c] s = true -> In c s.
Proof.
  intros H. destruct (in_dec N.eq_dec c s) as [Hin|Hout]; [exact Hin|].
  rewrite (includes_single_false c s Hout) in H. discriminate.
Qed.

Lemma find_skip (p b : jsstring) (c : N) :
  ~ In c p -> p <> [] ->
  find p (c :: b) = option_map (fun j => 1 + j) (find p b).
Proof.
  intros Hc Hp. pose proof (find_sep p [] b c Hc Hp) as E.
  now rewrite (find_nil p Hp) in E.
Qed.

(** [slice(1, -1)] takes the first and the last code unit off. *)
Lemma slice_unwrap {A} (c d : A) (s : list A) :
  slice (c :: s ++ [d]) 1 (-1) = s.
Proof.
  unfold slice.
  assert (L : List.length (c :: s ++ [d]) = S (S (List.length s))).
  { simpl. rewrite length_app. simpl. lia. }
  rewrite L.
  assert (C1 : clamp (S (S (List.length s))) 1 = 1).
  { reflexivity. }
  assert (C2 : clamp (S (S (List.length s))) (-1) = S (List.length s)).
  { unfold clamp. change (-1 <? 0)%Z with true. cbv iota. lia. }
  rewrite C1, C2. simpl skipn.
  replace (S (List.length s) - 1) with (List.length s + 0) by lia.
  rewrite firstn_app_2. simpl. apply app_nil_r.
Qed.

End JsMoreFacts.

(* ------------------------------------------------------------------------- *)
(** ** What [parseFrontmatter] returns on any text *)
(* ------------------------------------------------------------------------- *)

Section ParserFacts.
Import Js Frontmatter Written.
Variable JsNumber : Type.
Variable Number : jsstring -> option JsNumber.
Variable Number_toString : JsNumber -> jsstring.

Lemma obj_update_keys (k : jsstring) (v : Value JsNumber)
    (o : Obj JsNumber) :
  (In k (map fst o) /\ map fst (obj_update k v o) = map fst o)
  \/ (~ In k (map fst o) /\ map fst (obj_update k v o) = map fst o ++ [k]).
Proof.
  induction o as [|[k' v'] o IH]; simpl; [right; tauto|].
  destruct (eqb k' k) eqn:E.
  - apply eqb_eq in E. subst. left. simpl. tauto.
  - apply eqb_neq in E. destruct IH as [[H1 H2]|[H1 H2]].
    + left. simpl. rewrite H2. tauto.
    + right. simpl. rewrite H2. split; [|reflexivity].
      intros [H|H]; [congruence | contradiction].
Qed.

Lemma obj_update_In (k : jsstring) (v : Value JsNumber) (o : Obj JsNumber)
    (kv : jsstring * Value JsNumber) :
  In kv (obj_update k v o) -> kv = (k, v) \/ In kv o.
Proof.
  induction o as [|[k' v'] o IH]; simpl.
  - intros [<-|[]]. now left.
  - destruct (eqb k' k) eqn:E.
    + apply eqb_eq in E. subst. simpl. intros [<-|H]; auto.
    + simpl. intros [<-|H]; auto. destruct (IH H); auto.
Qed.

Lemma obj_set_stored (k : jsstring) (v : Value JsNumber)
    (o : Obj JsNumber) :
  shaped k -> stored_value v -> stored_record o ->
  stored_record (obj_set k v o).
Proof.
  intros [K1 [K2 [K3 K4]]] V [Hnd Hall]. unfold obj_set.
  destruct (eqb k (str "__proto__")) eqn:E; [now split|].
  apply eqb_neq in E. split.
  - destruct (obj_update_keys k v o) as [[_ ->]|[Hout ->]]; [exact Hnd|].
    apply NoDup_app; [exact Hnd | repeat constructor; simpl; tauto |].
    intros x Hx [<-|[]]. contradiction.
  - apply Forall_forall. intros kv Hin.
    destruct (obj_update_In k v o kv Hin) as [->|Hold].
    + simpl. repeat split; assumption.
    + rewrite Forall_forall in Hall. now apply Hall.
Qed.

Lemma split_no_sep_in (c : N) (s : jsstring) :
  Forall (fun l => ~ In c l) (split c s).
Proof.
  induction s as [|x s IH]; simpl; [repeat constructor; tauto|].
  destruct (N.eqb_spec x c) as [->|Hne].
  - constructor; [tauto | exact IH].
  - destruct (split c s) as [|seg segs]; [repeat constructor; simpl; tauto|].
    inversion IH as [|? ? H1 H2]; subst. constructor; [|exact H2].
    simpl. intros [E|E]; [congruence | contradiction].
Qed.

(** The key cut out of a line. *)
Lemma key_shaped (line : jsstring) :
  ~ In LF line ->
  (0 <? indexOf [COLON] (trim line) 0)%Z = true ->
  shaped (trim (slice (trim line) 0 (indexOf [COLON] (trim line) 0))).
Proof.
  intros Hlf Hpos. set (t := trim line) in *.
  unfold indexOf in *. simpl Nat.min in *. simpl skipn in *.
  destruct (find [COLON] t) as [i|] eqn:F; [|discriminate].
  simpl Nat.add in *. apply Z.ltb_lt in Hpos.
  destruct (find_single_Some COLON t i F) as [Hno Hnth].
  assert (Hlen : i < List.length t).
  { apply nth_error_Some. congruence. }
  assert (Hslice : slice t 0 (Z.of_nat i) = firstn i t).
  { unfold slice. rewrite clamp_of_nat. unfold clamp. simpl.
    rewrite Nat.min_l by lia. now rewrite Nat.sub_0_r. }
  rewrite Hslice.
  assert (Ht : no_lead t) by apply trim_tight.
  assert (Hpre : firstn i t <> [] /\ no_lead (firstn i t)).
  { destruct t as [|x t']; [simpl in Hlen; lia|].
    destruct i as [|i]; [lia|]. simpl. split; [discriminate|].
    apply no_lead_head. now apply no_lead_head in Ht. }
  destruct Hpre as [Hne Hlead].
  repeat split.
  - now apply trim_nonempty.
  - apply trim_idem.
  - intros H. apply trim_In in H. contradiction.
  - intros H. apply trim_In in H. apply Hlf.
    apply (trim_In line). fold t. rewrite <- (firstn_skipn i t).
    apply in_or_app. now left.
Qed.

Lemma type_value_stored (value : jsstring) :
  stored_value (type_value Number value).
Proof.
  unfold type_value.
  destruct (includes [COMMA] value && negb (startsWith [DQUOTE] value)).
  { simpl. apply Forall_map. now apply Forall_forall. }
  destruct (startsWith [DQUOTE] value && endsWith [DQUOTE] value);
    [exact I|].
  destruct (startsWith [SQUOTE] value && endsWith [SQUOTE] value);
    [exact I|].
  destruct (eqb value (str "true")); [exact I|].
  destruct (eqb value (str "false")); [exact I|].
  now destruct (Number value).
Qed.

Lemma strings_stored (items : list jsstring) :
  stored_value (VArray (map (@VString JsNumber) items)).
Proof. simpl. apply Forall_map. now apply Forall_forall. Qed.

Lemma key_value_step_ok lines line (st st' : LoopState JsNumber) :
  ~ In LF line -> loop_ok st ->
  key_value_step Number lines line (trim line) st = Normal st' ->
  loop_ok st'.
Proof.
  intros Hlf [Hr Hk]. unfold key_value_step.
  destruct (0 <? indexOf [COLON] (trim line) 0)%Z eqn:Hpos.
  - pose proof (key_shaped line Hlf Hpos) as Hkey.
    destruct (eqb _ [] && _).
    + intros E. injection E as <-. split; [exact Hr | now intros _].
    + destruct (eqb _ []).
      * intros E. injection E as <-. now split.
      * intros E. injection E as <-. split; [|exact Hk]. simpl.
        apply obj_set_stored; [exact Hkey | apply type_value_stored | exact Hr].
  - intros E. injection E as <-. now split.
Qed.

Lemma line_step_ok lines line (st st' : LoopState JsNumber) :
  ~ In LF line -> loop_ok st ->
  line_step Number lines st line = Normal st' -> loop_ok st'.
Proof.
  intros Hlf [Hr Hk]. unfold line_step.
  destruct (inArray st) eqn:A.
  - destruct (startsWith _ _).
    + intros E. injection E as <-. split; [exact Hr | intros _; now apply Hk].
    + apply key_value_step_ok; [exact Hlf|]. split; [|discriminate]. simpl.
      apply obj_set_stored; [now apply Hk | apply strings_stored | exact Hr].
  - apply key_value_step_ok; [exact Hlf|].
    split; [exact Hr | rewrite A; discriminate].
Qed.

Lemma run_lines_ok lines todo (st st' : LoopState JsNumber) :
  Forall (fun l => ~ In LF l) todo -> loop_ok st ->
  run_lines Number lines todo st = Normal st' -> loop_ok st'.
Proof.
  intros H. revert st. induction H as [|line todo Hl _ IH]; intros st Hst.
  - simpl. intros E. now injection E as <-.
  - simpl. destruct (line_step Number lines st line) as [st1|] eqn:S;
      [|discriminate].
    apply IH. exact (line_step_ok lines line st st1 Hl Hst S).
Qed.

Lemma parse_block_stored (yamlStr : jsstring) (r : Obj JsNumber) :
  parse_block Number yamlStr = Normal r -> stored_record r.
Proof.
  unfold parse_block.
  destruct (run_lines Number (split LF yamlStr) (split LF yamlStr) _)
    as [st|] eqn:R; [|discriminate].
  assert (Hst : loop_ok st).
  { apply (run_lines_ok _ _ _ _ (split_no_sep_in LF yamlStr)) in R;
      [exact R|].
    split; [|discriminate]. split; constructor. }
  destruct Hst as [Hr Hk].
  destruct (inArray st && _) eqn:A.
  - intros E. injection E as <-. apply andb_true_iff in A.
    apply obj_set_stored; [now apply Hk | apply strings_stored | exact Hr].
  - intros E. now injection E as <-.
Qed.

(** X1: whatever the text, a record returned by [parseFrontmatter] has
    pairwise distinct keys, each of them non-empty, without whitespace
    around it, without colon or newline, and other than [__proto__], and
    its values are strings, booleans, numbers or lists of strings. *)
Theorem parseFrontmatter_record_well_formed
    (content : jsstring) (r : Obj JsNumber) :
  frontmatter (parseFrontmatter Number content) = Some r ->
  stored_record r.
Proof.
  unfold parseFrontmatter.
  destruct (negb _); [discriminate|].
  destruct (_ =? -1)%Z; [discriminate|].
  destruct (parse_block Number _) as [r'|] eqn:P; [|discriminate].
  simpl. intros E. injection E as <-. exact (parse_block_stored _ _ P).
Qed.

(** X2: whatever the text, when [parseFrontmatter] returns a record the
    body it returns has no whitespace around it; when it returns null the
    body is the text itself. *)
Theorem parseFrontmatter_body_trimmed (content : jsstring) :
  match frontmatter (parseFrontmatter Number content) with
  | Some _ =>
      trim (body (parseFrontmatter Number content))
      = body (parseFrontmatter Number content)
  | None => body (parseFrontmatter Number content) = content
  end.
Proof.
  unfold parseFrontmatter.
  destruct (negb _); [reflexivity|].
  destruct (_ =? -1)%Z; [reflexivity|].
  destruct (parse_block Number _); [|reflexivity].
  simpl. apply trim_idem.
Qed.

(** X3: whatever the record and the body, the document made by
    [createMarkdownContent] is read as one with a metadata block: the
    frontmatter that [parseFrontmatter] returns for it is never null. *)
Theorem created_content_has_frontmatter
    (data : Obj JsNumber) (text : jsstring) :
  frontmatter
    (parseFrontmatter Number
       (createMarkdownContent Number_toString data text))
  <> None.
Proof.
  unfold createMarkdownContent, generateFrontmatter.
  set (ls := flat_map (entry_lines Number_toString) data).
  change ([str "---"] ++ ls ++ [str "---"])
    with (str "---" :: (ls ++ [str "---"])).
  rewrite join_cons
    by (intros E; apply app_eq_nil in E; destruct E; discriminate).
  rewrite join_then, <- !app_assoc.
  change ([LF] ++ ended ls ++ str "---" ++ [LF; LF] ++ text)
    with ((LF :: ended ls) ++ str "---" ++ [LF; LF] ++ text).
  set (mid := LF :: ended ls). set (rest := [LF; LF] ++ text).
  destruct (find_occurrence (str "---") mid rest) as [i [Hf Hi]].
  assert (Hidx : indexOf (str "---") (str "---" ++ mid ++ str "---" ++ rest) 3
                 = Z.of_nat (3 + i)).
  { unfold indexOf. rewrite Nat.min_l by (rewrite length_app; simpl; lia).
    change 3 with (List.length (str "---")) at 1.
    rewrite skipn_app, skipn_all, Nat.sub_diag. cbn [skipn app].
    now rewrite Hf. }
  unfold parseFrontmatter. rewrite startsWith_app. cbn [negb].
  rewrite Hidx.
  destruct (Z.eqb_spec (Z.of_nat (3 + i)) (-1)); [lia|].
  destruct (parse_block_normal JsNumber Number
              (trim (slice (str "---" ++ mid ++ str "---" ++ rest) 3
                       (Z.of_nat (3 + i))))) as [r ->].
  discriminate.
Qed.

End ParserFacts.

(* ------------------------------------------------------------------------- *)
(** ** The round trip through [createMarkdownContent] and
       [parseFrontmatter] *)
(* ------------------------------------------------------------------------- *)

Section WrittenFacts.
Import Js Frontmatter Written.
Variable JsNumber : Type.
Variable Number : jsstring -> option JsNumber.
Variable Number_toString : JsNumber -> jsstring.

(** *** Keys *)

Lemma key_ok_facts (k : jsstring) :
  key_ok k = true -> key_facts k /\ startsWith (str "- ") k = false.
Proof.
  unfold key_ok. rewrite andb_true_iff, negb_true_iff. intros [H1 H2].
  split; [now apply round_trip_key_facts | exact H2].
Qed.

Lemma key_head (k : jsstring) :
  key_facts k -> exists c r, k = c :: r /\ is_whitespace c = false.
Proof.
  intros K. pose proof (k_nonempty _ K) as Hne.
  pose proof (k_no_lead _ K) as Hl.
  destruct k as [|c r]; [congruence|]. exists c, r.
  split; [reflexivity | now apply no_lead_head in Hl].
Qed.

(** *** Lines *)

Lemma has_none_of_one (c : N) (s : jsstring) :
  has_none_of [c] s = true -> ~ In c s.
Proof. intros H. apply (has_none_of_not_In _ _ _ H). now left. Qed.

Lemma item_ok_facts (i : jsstring) :
  item_ok i = true -> text_ok i.
Proof.
  unfold item_ok. rewrite !andb_true_iff.
  intros [[[Hne Htrim] Hlf] Hd].
  apply negb_true_iff in Hd. apply negb_true_iff, eqb_neq in Hne.
  apply eqb_eq, trim_fixed_inv in Htrim. destruct Htrim as [Hl Ht].
  repeat split; trivial.
  - now apply has_none_of_one.
  - now apply includes_false_find.
Qed.

Lemma line_ok_single (k t : jsstring) :
  key_facts k -> text_ok t -> line_ok (k ++ COLON :: SPACE :: t).
Proof.
  intros K [[Hne [Ht [Hlf Hd]]] Hl]. repeat split.
  - now destruct k.
  - change (k ++ COLON :: SPACE :: t) with (k ++ [COLON; SPACE] ++ t).
    rewrite app_assoc. now apply no_trail_app.
  - intros H. apply in_app_or in H. destruct H as [H|[H|[H|H]]];
      try discriminate H; [now apply (k_no_newline _ K) | contradiction].
  - rewrite (find_sep (str "---") k (SPACE :: t) COLON);
      [|simpl; intuition discriminate | discriminate].
    rewrite (k_no_delimiter _ K).
    pose proof (find_sep (str "---") [] t SPACE) as E. simpl app in E.
    rewrite E; [|simpl; intuition discriminate | discriminate].
    rewrite (find_nil (str "---")) by discriminate. now rewrite Hd.
Qed.

Lemma line_ok_header (k : jsstring) : key_facts k -> line_ok (header k).
Proof.
  intros K. unfold header. repeat split.
  - now destruct k.
  - unfold no_trail. now rewrite rev_app_distr.
  - intros H. apply in_app_or in H. destruct H as [H|[H|[]]];
      [now apply (k_no_newline _ K) | discriminate H].
  - rewrite (find_sep (str "---") k [] COLON);
      [|simpl; intuition discriminate | discriminate].
    now rewrite (k_no_delimiter _ K).
Qed.

Lemma line_ok_item (i : jsstring) : text_ok i -> line_ok (item_line i).
Proof.
  intros [[Hne [Ht [Hlf Hd]]] Hl]. unfold item_line. repeat split.
  - discriminate.
  - now apply no_trail_app.
  - intros H. apply in_app_or in H. destruct H as [H|H]; [|contradiction].
    simpl in H. intuition discriminate.
  - change (str "  - " ++ i) with ([SPACE; SPACE; DASH] ++ SPACE :: i).
    rewrite find_sep; [|simpl; intuition discriminate | discriminate].
    now rewrite Hd.
Qed.

(** *** The texts of one-line values *)

Lemma string_ok_text (s : jsstring) :
  string_ok Number s = true ->
  text_ok (text_of (W_string s))
  /\ type_value Number (text_of (W_string s)) = VString s
  /\ (forall k,
        entry_lines Number_toString (k, VString s)
        = [k ++ COLON :: SPACE :: text_of (W_string s)]).
Proof.
  unfold string_ok, text_of. destruct (needs_quotes s) eqn:Q.
  - rewrite andb_true_iff, negb_true_iff. intros [Hch Hd].
    assert (Hdq : ~ In DQUOTE s)
      by (apply (has_none_of_not_In _ _ _ Hch); simpl; auto).
    assert (Hlf : ~ In LF s)
      by (apply (has_none_of_not_In _ _ _ Hch); simpl; auto).
    split; [|split].
    + repeat split.
      * discriminate.
      * unfold no_trail. simpl. now rewrite rev_app_distr.
      * simpl. intros [E|E]; [discriminate|].
        apply in_app_or in E. destruct E as [E|[E|[]]];
          [contradiction | discriminate].
      * pose proof (find_sep (str "---") [] (s ++ [DQUOTE]) DQUOTE) as E.
        simpl app in E. rewrite E;
          [|simpl; intuition discriminate | discriminate].
        rewrite (find_nil (str "---")) by discriminate.
        rewrite (find_sep (str "---") s [] DQUOTE);
          [|simpl; intuition discriminate | discriminate].
        now rewrite (includes_false_find _ _ Hd).
    + destruct (type_value_cases JsNumber Number (DQUOTE :: s ++ [DQUOTE]))
        as [H _]. rewrite H.
      * f_equal. apply slice_unwrap.
      * reflexivity.
      * unfold endsWith. simpl. now rewrite rev_app_distr.
    + intros k. unfold entry_lines. unfold needs_quotes in Q. rewrite Q.
      now rewrite (escape_quotes_none s Hdq).
  - intros H. pose proof (round_trip_value_facts JsNumber Number s H) as F.
    split; [|split].
    + repeat split;
        [apply (v_nonempty _ _ F) | apply (v_no_trail _ _ F) | |
         apply (v_no_delimiter _ _ F) | apply (v_no_lead _ _ F)].
      apply (v_chars _ _ F); simpl; auto 10.
    + apply (type_value_plain JsNumber Number s F).
    + intros k. unfold entry_lines. unfold needs_quotes in Q.
      now rewrite Q.
Qed.

Lemma boolean_text (b : bool) :
  text_ok (text_of (W_boolean b))
  /\ type_value Number (text_of (W_boolean b)) = VBoolean b.
Proof.
  destruct b; (split; [|reflexivity]); repeat split;
    try discriminate; try reflexivity;
    simpl; intuition discriminate.
Qed.

(** *** Lists written inline *)

Lemma join_items_text (x : jsstring) (rest : list jsstring) :
  Forall text_ok (x :: rest) ->
  text_ok (join (str ", ") (x :: rest)).
Proof.
  revert x. induction rest as [|y rest IH]; intros x H.
  - now inversion H.
  - inversion H as [|? ? Hx Hr]; subst. specialize (IH y Hr).
    rewrite join_cons by discriminate.
    destruct Hx as [[Hne [Ht [Hlf Hd]]] Hl].
    destruct IH as [[Jne [Jt [Jlf Jd]]] Jl].
    repeat split.
    + now destruct x.
    + rewrite app_assoc. now apply no_trail_app.
    + intros E. apply in_app_or in E. destruct E as [E|E]; [contradiction|].
      apply in_app_or in E. destruct E as [E|E]; [|contradiction].
      simpl in E. intuition discriminate.
    + change (x ++ str ", " ++ join (str ", ") (y :: rest))
        with (x ++ COMMA :: SPACE :: join (str ", ") (y :: rest)).
      rewrite find_sep; [|simpl; intuition discriminate | discriminate].
      rewrite Hd.
      rewrite find_skip; [|simpl; intuition discriminate | discriminate].
      now rewrite Jd.
    + now apply no_lead_app.
Qed.

Lemma split_join_items (x : jsstring) (rest : list jsstring) :
  Forall (fun i => ~ In COMMA i) (x :: rest) ->
  split COMMA (join (str ", ") (x :: rest))
  = x :: map (fun i => SPACE :: i) rest.
Proof.
  revert x. induction rest as [|y rest IH]; intros x H.
  - inversion H; subst. simpl. now apply split_no_sep.
  - inversion H as [|? ? Hx Hr]; subst.
    rewrite join_cons by discriminate.
    change (x ++ str ", " ++ join (str ", ") (y :: rest))
      with (x ++ COMMA :: (SPACE :: join (str ", ") (y :: rest))).
    rewrite split_app_sep by exact Hx. f_equal.
    specialize (IH y Hr). simpl map.
    change (split COMMA (SPACE :: join (str ", ") (y :: rest)))
      with (match split COMMA (join (str ", ") (y :: rest)) with
            | [] => [[SPACE]]
            | seg :: segs => (SPACE :: seg) :: segs
            end).
    now rewrite IH.
Qed.

Lemma trim_items (x : jsstring) (rest : list jsstring) :
  Forall text_ok (x :: rest) ->
  map (fun v => @VString JsNumber (trim v))
    (x :: map (fun i => SPACE :: i) rest)
  = map VString (x :: rest).
Proof.
  intros H. inversion H as [|? ? Hx Hr]; subst. simpl. f_equal.
  - f_equal. destruct Hx as [[_ [Ht _]] Hl]. now apply trim_fixed.
  - rewrite map_map. apply map_ext_in. intros i Hi.
    rewrite Forall_forall in Hr. destruct (Hr i Hi) as [[_ [Ht _]] Hl].
    f_equal.
    pose proof (trim_padded [SPACE] i [] eq_refl eq_refl Hl Ht) as T.
    now rewrite app_nil_r in T.
Qed.

Lemma inline_list_text (items : list jsstring) :
  list_ok items = true -> inline items = true ->
  text_ok (text_of (W_list items))
  /\ type_value Number (text_of (W_list items))
     = VArray (map VString items).
Proof.
  unfold list_ok. intros H Hin. rewrite Hin in H.
  rewrite !andb_true_iff, negb_true_iff in H.
  destruct H as [Hitems [[Hlen Hcomma] Hdq]]. apply Nat.leb_le in Hlen.
  assert (Ht : Forall text_ok items).
  { apply Forall_forall. intros i Hi. apply item_ok_facts.
    rewrite forallb_forall in Hitems. now apply Hitems. }
  assert (Hc : Forall (fun i => ~ In COMMA i) items).
  { apply Forall_forall. intros i Hi. apply has_none_of_one.
    rewrite forallb_forall in Hcomma. now apply Hcomma. }
  destruct items as [|x [|y rest]]; try (simpl in Hlen; lia).
  split; [exact (join_items_text x (y :: rest) Ht)|].
  unfold text_of. simpl hd in Hdq.
  destruct (type_value_cases JsNumber Number
              (join (str ", ") (x :: y :: rest))) as [_ [Hlist _]].
  rewrite Hlist.
  - now rewrite (split_join_items x (y :: rest) Hc),
      (trim_items x (y :: rest) Ht).
  - rewrite join_cons by discriminate.
    inversion Ht as [|? ? [[Hne _] _] _]; subst.
    destruct x as [|c x]; [congruence|]. exact Hdq.
  - apply includes_single_true. rewrite join_cons by discriminate.
    apply in_or_app. right. now left.
Qed.

Lemma ToString_strings (items : list jsstring) :
  map (ToString Number_toString) (map VString items) = items.
Proof. rewrite map_map. apply map_id. Qed.

Lemma short_strings (items : list jsstring) :
  forallb is_short_string (map (@VString JsNumber) items)
  = forallb (fun s => Nat.ltb (List.length s) 20) items.
Proof. induction items as [|i items IH]; simpl; [reflexivity | now rewrite IH]. Qed.

(** The lines that [generateFrontmatter] pushes for an entry. *)
Lemma entry_lines_written (k : jsstring) (w : Written) :
  written_ok Number w = true ->
  entry_lines Number_toString (k, value_of w) = lines_of (k, w).
Proof.
  destruct w as [s|b|items]; simpl written_ok.
  - intros H. destruct (string_ok_text s H) as [_ [_ E]]. apply E.
  - intros _. now destruct b.
  - intros H. unfold lines_of, entry_lines. simpl value_of. cbv iota.
    rewrite length_map, short_strings. fold (inline items).
    assert (Hne : items <> []).
    { unfold list_ok in H. destruct (inline items) eqn:I.
      - rewrite !andb_true_iff in H. destruct H as [_ [[Hlen _] _]].
        apply Nat.leb_le in Hlen. destruct items; [simpl in Hlen; lia|].
        discriminate.
      - destruct items; [discriminate I | discriminate]. }
    destruct items as [|i items]; [congruence|].
    change (Nat.eqb (List.length (i :: items)) 0) with false. cbv iota.
    destruct (inline (i :: items)).
    + now rewrite ToString_strings.
    + unfold header. f_equal. rewrite map_map. reflexivity.
Qed.

(** *** Steps of the loop *)

Lemma line_step_flush lines (st : LoopState JsNumber) line :
  startsWith (str "- ") (trim line) = false ->
  line_step Number lines st line
  = key_value_step Number lines line (trim line) (flush st).
Proof.
  intros H. unfold line_step, flush. rewrite H. now destruct (inArray st).
Qed.

Lemma flush_stands (r : Obj JsNumber) (st : LoopState JsNumber) :
  stands_for r st ->
  fm (flush st) = r /\ inArray (flush st) = false
  /\ arrayValues (flush st) = [].
Proof.
  intros [H1 H2]. split; [exact H1|]. unfold flush.
  destruct (inArray st) eqn:A; simpl; [now split | now rewrite A].
Qed.

Lemma not_item_start (k rest : jsstring) :
  key_facts k -> startsWith (str "- ") k = false ->
  startsWith (str "- ") (k ++ COLON :: rest) = false.
Proof.
  intros K H. rewrite startsWith_sep; [exact H|].
  simpl. intuition discriminate.
Qed.

Lemma key_value_written lines line (s0 : LoopState JsNumber)
    (k t : jsstring) :
  key_facts k -> text_ok t ->
  key_value_step Number lines line (k ++ COLON :: SPACE :: t) s0
  = Normal {| fm := obj_set k (type_value Number t) (fm s0);
              currentKey := currentKey s0; inArray := inArray s0;
              arrayValues := arrayValues s0 |}.
Proof.
  intros K [[Hne [Ht _]] Hl]. unfold key_value_step.
  assert (Hidx : indexOf [COLON] (k ++ COLON :: SPACE :: t) 0
                 = Z.of_nat (List.length k)).
  { unfold indexOf. simpl Nat.min. simpl skipn.
    now rewrite (find_single_first COLON k (SPACE :: t) (k_no_colon _ K)). }
  rewrite Hidx.
  assert (Hpos : (0 <? Z.of_nat (List.length k))%Z = true).
  { apply Z.ltb_lt. pose proof (k_nonempty _ K).
    destruct k; simpl; [easy|lia]. }
  rewrite Hpos, slice_prefix.
  rewrite (trim_fixed k (k_no_lead _ K) (k_no_trail _ K)).
  assert (Hval : trim (slice_from (k ++ COLON :: SPACE :: t)
                         (Z.of_nat (List.length k) + 1)) = t).
  { pose proof (slice_from_app (k ++ [COLON]) (SPACE :: t)) as E.
    rewrite <- app_assoc in E. simpl app in E.
    rewrite length_app in E. simpl List.length in E.
    rewrite Nat2Z.inj_add in E. simpl Z.of_nat in E. rewrite E.
    pose proof (trim_padded [SPACE] t [] eq_refl eq_refl Hl Ht) as T.
    now rewrite app_nil_r in T. }
  rewrite Hval.
  assert (E : eqb t [] = false) by now apply eqb_neq.
  now rewrite E.
Qed.

Lemma key_value_header lines (s0 : LoopState JsNumber) (k : jsstring) :
  key_facts k -> next_line_is_item lines (header k) = true ->
  key_value_step Number lines (header k) (header k) s0
  = Normal {| fm := fm s0; currentKey := k; inArray := true;
              arrayValues := arrayValues s0 |}.
Proof.
  intros K Hnext. unfold key_value_step, header in *.
  assert (Hidx : indexOf [COLON] (k ++ [COLON]) 0
                 = Z.of_nat (List.length k)).
  { unfold indexOf. simpl Nat.min. simpl skipn.
    now rewrite (find_single_first COLON k [] (k_no_colon _ K)). }
  rewrite Hidx.
  assert (Hpos : (0 <? Z.of_nat (List.length k))%Z = true).
  { apply Z.ltb_lt. pose proof (k_nonempty _ K).
    destruct k; simpl; [easy|lia]. }
  rewrite Hpos, slice_prefix.
  rewrite (trim_fixed k (k_no_lead _ K) (k_no_trail _ K)).
  assert (Hval : slice_from (k ++ [COLON]) (Z.of_nat (List.length k) + 1)
                 = []).
  { pose proof (slice_from_app (k ++ [COLON]) (@nil N)) as E.
    rewrite app_nil_r, length_app in E. simpl List.length in E.
    now rewrite Nat2Z.inj_add in E. }
  rewrite Hval. change (trim []) with (@nil N). now rewrite Hnext.
Qed.

Lemma trim_item_line (i : jsstring) :
  text_ok i -> trim (item_line i) = DASH :: SPACE :: i.
Proof.
  intros [[Hne [Ht _]] Hl].
  pose proof (trim_padded [SPACE; SPACE] (DASH :: SPACE :: i) []
                eq_refl eq_refl) as T.
  rewrite app_nil_r in T. apply T.
  - now apply no_lead_head.
  - now apply (no_trail_app [DASH; SPACE] i).
Qed.

Lemma next_line_found (pre post : list jsstring) (k i : jsstring) :
  ~ In (header k) pre -> text_ok i ->
  next_line_is_item (pre ++ header k :: item_line i :: post) (header k)
  = true.
Proof.
  intros Hpre Hi. unfold next_line_is_item.
  rewrite (array_indexOf_first _ pre _ Hpre).
  replace (Z.of_nat (List.length pre) + 1)%Z
    with (Z.of_nat (List.length pre + 1)) by lia.
  rewrite array_get_app.
  change (nth_error (header k :: item_line i :: post) 1)
    with (Some (item_line i)).
  cbv iota beta. now rewrite (trim_item_line i Hi).
Qed.

Lemma item_step lines (st : LoopState JsNumber) (i : jsstring) :
  inArray st = true -> text_ok i ->
  line_step Number lines st (item_line i)
  = Normal {| fm := fm st; currentKey := currentKey st; inArray := true;
              arrayValues := arrayValues st ++ [i] |}.
Proof.
  intros A Hi. unfold line_step. rewrite A, (trim_item_line i Hi).
  change (startsWith (str "- ") (DASH :: SPACE :: i)) with true. cbv iota.
  pose proof (slice_from_app [DASH; SPACE] i) as E.
  change (slice_from (DASH :: SPACE :: i) 2 = i) in E. rewrite E.
  destruct Hi as [[_ [Ht _]] Hl]. now rewrite (trim_fixed i Hl Ht).
Qed.

Lemma run_items lines (items : list jsstring) (st : LoopState JsNumber) :
  inArray st = true -> Forall text_ok items ->
  run_lines Number lines (map item_line items) st
  = Normal {| fm := fm st; currentKey := currentKey st; inArray := true;
              arrayValues := arrayValues st ++ items |}.
Proof.
  intros A H. revert st A. induction H as [|i items Hi _ IH]; intros st A.
  - simpl. rewrite app_nil_r. rewrite <- A. now destruct st.
  - simpl. rewrite (item_step lines st i A Hi), IH by reflexivity.
    simpl. now rewrite <- app_assoc.
Qed.

Lemma run_lines_app lines (a b : list jsstring) (st : LoopState JsNumber) :
  run_lines Number lines (a ++ b) st
  = match run_lines Number lines a st with
    | Normal st1 => run_lines Number lines b st1
    | Throw => Throw
    end.
Proof.
  revert st. induction a as [|l a IH]; intros st; simpl; [reflexivity|].
  destruct (line_step Number lines st l); [apply IH | reflexivity].
Qed.

(** *** One entry *)

Lemma written_text (w : Written) :
  written_ok Number w = true ->
  match w with W_list items => inline items | _ => true end = true ->
  text_ok (text_of w)
  /\ type_value Number (text_of w) = value_of w.
Proof.
  destruct w as [s|b|items]; simpl written_ok; intros H I.
  - destruct (string_ok_text s H) as [H1 [H2 _]]. now split.
  - apply boolean_text.
  - now apply inline_list_text.
Qed.

Lemma process_line lines (st : LoopState JsNumber) (r : Obj JsNumber)
    (k : jsstring) (w : Written) :
  key_ok k = true -> written_ok Number w = true ->
  match w with W_list items => inline items | _ => true end = true ->
  stands_for r st ->
  exists st',
    run_lines Number lines [k ++ COLON :: SPACE :: text_of w] st
    = Normal st'
    /\ stands_for (obj_set k (value_of w) r) st'.
Proof.
  intros Hk Hw I Hst. destruct (key_ok_facts k Hk) as [K Hstart].
  destruct (written_text w Hw I) as [Ht Hv].
  destruct (flush_stands r st Hst) as [F1 [F2 F3]].
  pose proof (line_ok_single k (text_of w) K Ht) as [Lne [Ltr _]].
  assert (Ll : no_lead (k ++ COLON :: SPACE :: text_of w)).
  { apply no_lead_app; [apply (k_nonempty _ K) | apply (k_no_lead _ K)]. }
  simpl run_lines. rewrite line_step_flush;
    rewrite (trim_fixed _ Ll Ltr); [|now apply not_item_start].
  rewrite (key_value_written lines _ (flush st) k (text_of w) K Ht).
  eexists. split; [reflexivity|].
  unfold stands_for. simpl. rewrite F2, F3, Hv, F1. unfold flush. simpl.
  now split.
Qed.

Lemma process_block lines (pre post : list jsstring)
    (st : LoopState JsNumber) (r : Obj JsNumber)
    (k : jsstring) (items : list jsstring) :
  key_ok k = true -> list_ok items = true -> inline items = false ->
  stands_for r st ->
  lines = pre ++ (header k :: map item_line items) ++ post ->
  ~ In (header k) pre ->
  exists st',
    run_lines Number lines (header k :: map item_line items) st
    = Normal st'
    /\ stands_for (obj_set k (VArray (map VString items)) r) st'.
Proof.
  intros Hk Hw I Hst Hlines Hpre. destruct (key_ok_facts k Hk) as [K Hstart].
  destruct (flush_stands r st Hst) as [F1 [F2 F3]].
  unfold list_ok in Hw. rewrite I, andb_true_r in Hw.
  assert (Hitems : Forall text_ok items).
  { apply Forall_forall. intros i Hi. apply item_ok_facts.
    rewrite forallb_forall in Hw. now apply Hw. }
  destruct items as [|i items]; [discriminate I|].
  pose proof (Forall_inv Hitems) as Hi.
  pose proof (Forall_inv_tail Hitems) as Hrest.
  pose proof (line_ok_header k K) as [_ [Htr _]].
  assert (Hl : no_lead (header k)).
  { apply no_lead_app; [apply (k_nonempty _ K) | apply (k_no_lead _ K)]. }
  change (run_lines Number lines (header k :: map item_line (i :: items)) st)
    with (match line_step Number lines st (header k) with
          | Normal st1 => run_lines Number lines
                            (map item_line (i :: items)) st1
          | Throw => Throw
          end).
  rewrite line_step_flush; rewrite (trim_fixed _ Hl Htr);
    [|unfold header; rewrite startsWith_sep;
      [exact Hstart | simpl; intuition discriminate]].
  rewrite (key_value_header lines (flush st) k K).
  - rewrite run_items by (trivial; reflexivity).
    eexists. split; [reflexivity|].
    rewrite F1, F3. unfold stands_for. simpl.
    split; [reflexivity | discriminate].
  - rewrite Hlines. simpl map. simpl app.
    now apply next_line_found.
Qed.

Lemma header_elsewhere (k k' : jsstring) (w : Written) :
  key_ok k = true -> key_ok k' = true -> k <> k' ->
  ~ In (header k') (lines_of (k, w)).
Proof.
  intros Hk Hk' Hne. destruct (key_ok_facts k Hk) as [K _].
  destruct (key_ok_facts k' Hk') as [K' _].
  assert (Hsingle : forall t, header k' <> k ++ COLON :: SPACE :: t).
  { intros t E. unfold header in E.
    destruct (app_sep_inj COLON k' k [] (SPACE :: t)
                (k_no_colon _ K') (k_no_colon _ K) E) as [_ E2].
    discriminate. }
  assert (Hheader : header k' <> header k).
  { intros E. unfold header in E. apply app_inj_tail in E.
    destruct E. congruence. }
  assert (Hitem : forall i, header k' <> item_line i).
  { intros i E. destruct (key_head k' K') as [c [r [-> Hc]]].
    unfold header, item_line in E. simpl in E. injection E as E _.
    subst c. discriminate. }
  unfold lines_of. destruct w as [s|b|items].
  - intros [E|[]]. now apply (Hsingle _ (eq_sym E)).
  - intros [E|[]]. now apply (Hsingle _ (eq_sym E)).
  - destruct (inline items).
    + intros [E|[]]. now apply (Hsingle _ (eq_sym E)).
    + intros [E|E]; [now apply Hheader|].
      apply in_map_iff in E. destruct E as [i [E _]].
      now apply (Hitem i).
Qed.

Lemma process_entry lines (pre post : list jsstring)
    (st : LoopState JsNumber) (r : Obj JsNumber)
    (kw : jsstring * Written) :
  entry_ok Number kw = true -> stands_for r st ->
  lines = pre ++ lines_of kw ++ post ->
  ~ In (header (fst kw)) pre ->
  exists st',
    run_lines Number lines (lines_of kw) st = Normal st'
    /\ stands_for (obj_set (fst kw) (value_of (snd kw)) r) st'.
Proof.
  destruct kw as [k w]. unfold entry_ok. simpl fst. simpl snd.
  rewrite andb_true_iff. intros [Hk Hw] Hst Hlines Hpre.
  unfold lines_of in *. destruct w as [s|b|items].
  - now apply process_line.
  - now apply process_line.
  - destruct (inline items) eqn:I.
    + now apply process_line.
    + now apply (process_block lines pre post).
Qed.

(** *** All entries *)

Lemma process_entries lines (data : list (jsstring * Written)) :
  forall (pre : list jsstring) (st : LoopState JsNumber) (r : Obj JsNumber),
  forallb (entry_ok Number) data = true ->
  NoDup (map fst data) ->
  stands_for r st ->
  lines = pre ++ flat_map lines_of data ->
  (forall kw, In kw data -> ~ In (header (fst kw)) pre) ->
  exists st',
    run_lines Number lines (flat_map lines_of data) st = Normal st'
    /\ stands_for
         (fold_left (fun o kw => obj_set (fst kw) (value_of (snd kw)) o)
            data r) st'.
Proof.
  induction data as [|kw data IH]; intros pre st r Hok Hnd Hst Hlines Hpre.
  - exists st. now split.
  - simpl in Hok. apply andb_true_iff in Hok. destruct Hok as [Hkw Hok].
    simpl in Hnd. inversion Hnd as [|? ? Hfresh Hnd']; subst.
    simpl flat_map in *.
    destruct (process_entry (pre ++ lines_of kw ++ flat_map lines_of data)
                pre (flat_map lines_of data) st r kw Hkw Hst eq_refl
                (Hpre kw (or_introl eq_refl))) as [st1 [R1 S1]].
    rewrite run_lines_app, R1.
    apply (IH (pre ++ lines_of kw)); trivial.
    + now rewrite <- app_assoc.
    + intros kw' Hin' E. apply in_app_or in E. destruct E as [E|E].
      * exact (Hpre kw' (or_intror Hin') E).
      * destruct kw as [k w], kw' as [k' w']. simpl in *.
        unfold entry_ok in Hkw. apply andb_true_iff in Hkw.
        rewrite forallb_forall in Hok. specialize (Hok _ Hin').
        unfold entry_ok in Hok. apply andb_true_iff in Hok.
        apply (header_elsewhere k k' w (proj1 Hkw) (proj1 Hok)); [|exact E].
        intros ->. apply Hfresh. apply in_map_iff.
        now exists (k', w').
Qed.

(** *** The whole document *)

Lemma fold_obj_set_written (data : list (jsstring * Written))
    (o : Obj JsNumber) :
  forallb (entry_ok Number) data = true ->
  NoDup (map fst o ++ map fst data) ->
  fold_left (fun o kw => obj_set (fst kw) (value_of (snd kw)) o) data o
  = o ++ record_of data.
Proof.
  revert o. induction data as [|[k w] data IH]; intros o Hok Hnd.
  - simpl. now rewrite app_nil_r.
  - simpl in Hok. apply andb_true_iff in Hok. destruct Hok as [Hkw Hok].
    unfold entry_ok in Hkw. apply andb_true_iff in Hkw.
    destruct (key_ok_facts k (proj1 Hkw)) as [K _].
    cbn [fold_left fst snd]. unfold obj_set. rewrite (k_not_proto _ K).
    assert (Hk : ~ In k (map fst o)).
    { intros Hin. simpl in Hnd. apply NoDup_remove_2 in Hnd. apply Hnd.
      apply in_or_app. now left. }
    rewrite (obj_update_fresh JsNumber k _ o Hk), IH; trivial.
    + unfold record_of. simpl. now rewrite <- app_assoc.
    + rewrite map_app. simpl. rewrite <- app_assoc. exact Hnd.
Qed.

Lemma lines_of_ok (kw : jsstring * Written) :
  entry_ok Number kw = true ->
  Forall line_ok (lines_of kw)
  /\ exists first rest, lines_of kw = first :: rest /\ no_lead first.
Proof.
  destruct kw as [k w]. unfold entry_ok. simpl fst. simpl snd.
  rewrite andb_true_iff. intros [Hk Hw].
  destruct (key_ok_facts k Hk) as [K _].
  assert (Hlead : forall rest, no_lead (k ++ rest)).
  { intros rest. apply no_lead_app;
      [apply (k_nonempty _ K) | apply (k_no_lead _ K)]. }
  assert (Hsingle :
    match w with W_list items => inline items | _ => true end = true ->
    Forall line_ok [k ++ COLON :: SPACE :: text_of w]
    /\ exists first rest,
         [k ++ COLON :: SPACE :: text_of w] = first :: rest
         /\ no_lead first).
  { intros I. destruct (written_text w Hw I) as [Ht _]. split.
    - constructor; [now apply line_ok_single | constructor].
    - eexists _, _. split; [reflexivity | apply Hlead]. }
  unfold lines_of. destruct w as [s|b|items]; try (now apply Hsingle).
  destruct (inline items) eqn:I; [now apply Hsingle|].
  simpl in Hw. unfold list_ok in Hw. rewrite I, andb_true_r in Hw. split.
  - constructor; [now apply line_ok_header|].
    apply Forall_map, Forall_forall. intros i Hi.
    apply line_ok_item, item_ok_facts.
    rewrite forallb_forall in Hw. now apply Hw.
  - eexists _, _. split; [reflexivity | apply Hlead].
Qed.

Lemma all_lines_ok (data : list (jsstring * Written)) :
  forallb (entry_ok Number) data = true ->
  Forall line_ok (flat_map lines_of data)
  /\ (data <> [] ->
      exists first rest,
        flat_map lines_of data = first :: rest /\ no_lead first).
Proof.
  intros H. split.
  - induction data as [|kw data IH]; [constructor|].
    simpl in H. apply andb_true_iff in H. destruct H as [Hkw H].
    simpl. apply Forall_app. split; [apply (lines_of_ok kw Hkw) | now apply IH].
  - destruct data as [|kw data]; [congruence|]. intros _.
    simpl in H. apply andb_true_iff in H. destruct H as [Hkw _].
    destruct (lines_of_ok kw Hkw) as [_ [first [rest [E Hl]]]].
    exists first, (rest ++ flat_map lines_of data). simpl.
    now rewrite E.
Qed.

Lemma generated_written (data : list (jsstring * Written)) :
  forallb (entry_ok Number) data = true ->
  flat_map (entry_lines Number_toString) (record_of data)
  = flat_map lines_of data.
Proof.
  induction data as [|[k w] data IH]; [reflexivity|]. intros H.
  simpl in H. apply andb_true_iff in H. destruct H as [Hkw H].
  unfold entry_ok in Hkw. apply andb_true_iff in Hkw.
  unfold record_of in *. cbn [map flat_map fst snd].
  now rewrite (entry_lines_written k w (proj2 Hkw)), IH.
Qed.

(** The block of a record is read back as that record. *)
Lemma parse_block_written (data : list (jsstring * Written)) :
  forallb (entry_ok Number) data = true ->
  NoDup (map fst data) ->
  parse_block Number (trim (LF :: ended (flat_map lines_of data)))
  = Normal (record_of data).
Proof.
  intros Hok Hnd. destruct data as [|kw data]; [reflexivity|].
  destruct (all_lines_ok _ Hok) as [Hall Hfirst].
  destruct (Hfirst ltac:(discriminate)) as [first [rest [E Hl]]].
  set (ls := flat_map lines_of (kw :: data)) in *.
  assert (Hne : ls <> []) by (rewrite E; discriminate).
  assert (Hlead : no_lead (join [LF] ls)).
  { rewrite E. rewrite E in Hall.
    pose proof (Forall_inv Hall) as [Hf _].
    destruct rest; [exact Hl|].
    rewrite join_cons by discriminate. now apply no_lead_app. }
  assert (Htrail : no_trail (join [LF] ls)).
  { apply no_trail_join. apply (Forall_impl _ (P := line_ok)); [|exact Hall].
    now intros l [H1 [H2 _]]. }
  assert (Hyaml : trim (LF :: ended ls) = join [LF] ls).
  { rewrite (proj2 (ended_join ls) Hne).
    exact (trim_padded [LF] (join [LF] ls) [LF] eq_refl eq_refl
             Hlead Htrail). }
  rewrite Hyaml. unfold parse_block.
  assert (Hsplit : split LF (join [LF] ls) = ls).
  { apply split_join; [exact Hne|].
    apply (Forall_impl _ (P := line_ok)); [|exact Hall].
    now intros l [_ [_ [H3 _]]]. }
  rewrite Hsplit.
  assert (Hst : stands_for []
                  {| fm := @nil (jsstring * Value JsNumber);
                     currentKey := []; inArray := false;
                     arrayValues := [] |}) by now split.
  destruct (process_entries ls (kw :: data) [] _ [] Hok Hnd Hst eq_refl
              (fun _ _ H => H))
    as [st' [R [S1 S2]]].
  fold ls in R. rewrite R.
  rewrite (fold_obj_set_written (kw :: data) [] Hok Hnd) in S1.
  simpl app in S1. unfold flush in S1.
  destruct (inArray st') eqn:A.
  - destruct (arrayValues st') as [|v vs]; [congruence|]. simpl.
    simpl in S1. now rewrite S1.
  - simpl. now rewrite S1.
Qed.

(** Reading back the lines written for a record. *)
Lemma written_lines_read_back
    (data : list (jsstring * Written)) (text : jsstring) :
  NoDup (map fst data) ->
  forallb (entry_ok Number) data = true ->
  trim text = text ->
  parseFrontmatter Number
    (join [LF] ([str "---"] ++ flat_map lines_of data ++ [str "---"])
     ++ [LF; LF] ++ text)
  = {| frontmatter := Some (record_of data); body := text |}.
Proof.
  intros Hnd Hok Htext.
  set (ls := flat_map lines_of data).
  change ([str "---"] ++ ls ++ [str "---"])
    with (str "---" :: (ls ++ [str "---"])).
  rewrite join_cons
    by (intros E; apply app_eq_nil in E; destruct E; discriminate).
  rewrite join_then, <- !app_assoc.
  change ([LF] ++ ended ls ++ str "---" ++ [LF; LF] ++ text)
    with ((LF :: ended ls) ++ str "---" ++ LF :: LF :: text).
  set (rest := str "---" ++ LF :: LF :: text).
  destruct (all_lines_ok _ Hok) as [Hall _]. fold ls in Hall.
  assert (Hfind : find (str "---") (LF :: ended ls ++ rest)
                  = Some (S (List.length (ended ls)))).
  { rewrite find_skip; [|simpl; intuition discriminate | discriminate].
    unfold rest.
    rewrite (find_after_lines (str "---") ls (LF :: LF :: text));
      [reflexivity | simpl; intuition discriminate | discriminate |].
    apply (Forall_impl _ (P := line_ok)); [|exact Hall].
    now intros l [_ [_ [_ H4]]]. }
  assert (Hidx : indexOf (str "---")
                   (str "---" ++ (LF :: ended ls) ++ rest) 3
                 = Z.of_nat (3 + S (List.length (ended ls)))).
  { unfold indexOf. rewrite Nat.min_l by (rewrite length_app; simpl; lia).
    change 3 with (List.length (str "---")) at 1.
    rewrite skipn_app, skipn_all, Nat.sub_diag. cbn [skipn app].
    change ((LF :: ended ls) ++ rest) with (LF :: ended ls ++ rest).
    now rewrite Hfind. }
  unfold parseFrontmatter.
  rewrite startsWith_app. cbn [negb]. rewrite Hidx.
  destruct (Z.eqb_spec (Z.of_nat (3 + S (List.length (ended ls)))) (-1));
    [lia|].
  assert (Hblock : slice (str "---" ++ (LF :: ended ls) ++ rest) 3
                     (Z.of_nat (3 + S (List.length (ended ls))))
                   = LF :: ended ls).
  { exact (slice_middle (str "---") (LF :: ended ls) rest). }
  assert (Hbody : slice_from (str "---" ++ (LF :: ended ls) ++ rest)
                    (Z.of_nat (3 + S (List.length (ended ls))) + 3)
                  = LF :: LF :: text).
  { pose proof (slice_from_app
                  (str "---" ++ (LF :: ended ls) ++ str "---")
                  (LF :: LF :: text)) as E.
    rewrite <- !app_assoc in E. cbn [app] in E.
    unfold rest. cbn [app].
    match type of E with
    | slice_from _ ?i = _ =>
        replace (Z.of_nat (3 + S (List.length (ended ls))) + 3)%Z with i
          by (rewrite !length_app; simpl List.length;
              rewrite !length_app; simpl List.length; lia)
    end.
    exact E. }
  rewrite Hblock, Hbody. unfold ls.
  rewrite (parse_block_written data Hok Hnd).
  f_equal.
  destruct (trim_fixed_inv text Htext) as [Hl Ht].
  pose proof (trim_padded [LF; LF] text [] eq_refl eq_refl Hl Ht) as T.
  now rewrite app_nil_r in T.
Qed.


(** X5: a list with one short plain string is written like the string
    itself, so it comes back as a string, not as a list. *)
Theorem one_item_list_comes_back_as_string
    (k i text : jsstring) :
  key_ok k = true -> round_trip_value Number i = true ->
  List.length i < 20 -> trim text = text ->
  parseFrontmatter Number
    (createMarkdownContent Number_toString
       [(k, VArray [VString i])] text)
  = {| frontmatter := Some [(k, VString i)]; body := text |}.
Proof.
  intros Hk Hi Hlen Htext.
  pose proof (round_trip_value_facts JsNumber Number i Hi) as F.
  assert (Hq : needs_quotes i = false).
  { unfold needs_quotes.
    now rewrite (includes_single_false COLON), (includes_single_false HASH),
      (includes_single_false LF)
      by (apply (v_chars _ _ F); simpl; auto 10). }
  assert (Hok : forallb (entry_ok Number) [(k, W_string i)] = true).
  { simpl. unfold entry_ok. simpl. unfold string_ok.
    now rewrite Hk, Hq, Hi. }
  pose proof (written_lines_read_back [(k, W_string i)] text
                ltac:(repeat constructor; simpl; tauto) Hok Htext) as R.
  rewrite <- (generated_written [(k, W_string i)] Hok) in R.
  assert (E : createMarkdownContent Number_toString
                [(k, VArray [VString i])] text
              = createMarkdownContent Number_toString
                  (record_of [(k, W_string i)]) text).
  { unfold createMarkdownContent, generateFrontmatter, record_of.
    cbn [map flat_map fst snd value_of]. unfold entry_lines.
    unfold needs_quotes in Hq. rewrite Hq. simpl List.length.
    simpl forallb. apply Nat.ltb_lt in Hlen. rewrite Hlen. reflexivity. }
  rewrite E. exact R.
Qed.

Lemma dropped_lines (data : Obj JsNumber) :
  flat_map (entry_lines Number_toString) data
  = flat_map (entry_lines Number_toString)
      (filter (fun kv => negb (dropped kv)) data).
Proof.
  induction data as [|[k v] data IH]; [reflexivity|].
  cbn [filter flat_map]. unfold dropped at 1. simpl snd.
  destruct v as [| |s|b|n|items|json]; cbn [negb flat_map];
    try (now rewrite IH).
  destruct items; cbn [negb flat_map]; now rewrite IH.
Qed.

(** X6: entries whose value is undefined, null or an empty list leave no
    trace in the document. *)
Theorem dropped_entries_not_written (data : Obj JsNumber) (text : jsstring) :
  createMarkdownContent Number_toString data text
  = createMarkdownContent Number_toString
      (filter (fun kv => negb (dropped kv)) data) text.
Proof.
  unfold createMarkdownContent, generateFrontmatter.
  now rewrite <- dropped_lines.
Qed.

End WrittenFacts.


Lemma one_item_list_comes_back_as_string_witness :
  Frontmatter.parseFrontmatter Js.Number
    (Frontmatter.createMarkdownContent (fun _ : Js.Num => [])
       [(Js.str "tools",
         Frontmatter.VArray [Frontmatter.VString (Js.str "Read")])]
       (Js.str "Body"))
  = {| Frontmatter.frontmatter :=
         Some [(Js.str "tools", Frontmatter.VString (Js.str "Read"))];
       Frontmatter.body := Js.str "Body" |}.
Proof.
  apply (one_item_list_comes_back_as_string Js.Num Js.Number
           (fun _ : Js.Num => []) (Js.str "tools") (Js.str "Read")
           (Js.str "Body")).
  - reflexivity.
  - reflexivity.
  - simpl. lia.
  - reflexivity.
Defined.

Lemma parseFrontmatter_record_well_formed_witness :
  Written.stored_record
    [(Js.str "name",
      @Frontmatter.VString Js.Num (Js.str "reviewer"))].
Proof.
  apply (parseFrontmatter_record_well_formed Js.Num Js.Number
           (Frontmatter.document ["---"; "name: reviewer"; "---"; "Body"]%string)).
  reflexivity.
Defined.

(* ------------------------------------------------------------------------- *)
(** ** Searching *)
(* ------------------------------------------------------------------------- *)

Section SearchFacts.
Import Js Search.
Variable toLowerCase : jsstring -> jsstring.

Lemma startsWith_split (p s : jsstring) :
  startsWith p s = true -> exists r, s = p ++ r.
Proof.
  revert s. induction p as [|x p IH]; intros s H; [now exists s|].
  destruct s as [|y s]; [discriminate|]. simpl in H.
  apply andb_true_iff in H as [E H]. apply N.eqb_eq in E. subst y.
  destruct (IH s H) as [r ->]. now exists r.
Qed.

Lemma includes_occurrence (p a b : jsstring) :
  includes p (a ++ p ++ b) = true.
Proof.
  unfold includes. destruct (find_occurrence p a b) as [i [E _]].
  now rewrite E.
Qed.

Lemma includes_split (p s : jsstring) :
  includes p s = true -> exists a b, s = a ++ p ++ b.
Proof.
  unfold includes. destruct (find p s) as [n|] eqn:F; [|discriminate].
  intros _. destruct (find_Some_split p s n F) as [a [b [E _]]]. eauto.
Qed.

(** Every piece of the split stands in the string. *)
Lemma split_runs_piece (in_run : bool) (word s w : jsstring) :
  In w (split_runs in_run word s) -> exists a b, word ++ s = a ++ w ++ b.
Proof.
  revert in_run word. induction s as [|c rest IH]; intros in_run word H.
  - simpl in H. destruct H as [<-|[]]. exists [], []. reflexivity.
  - simpl in H. destruct (is_separator c).
    + assert (R : In w (split_runs true [] rest) ->
                  exists a b, word ++ c :: rest = a ++ w ++ b).
      { intros Hin. destruct (IH _ _ Hin) as [a [b E]]. simpl in E.
        exists (word ++ c :: a), b. rewrite E.
        now rewrite <- app_assoc. }
      destruct in_run; [auto|]. destruct H as [<-|H]; [|auto].
      exists [], (c :: rest). reflexivity.
    + destruct (IH _ _ H) as [a [b E]]. exists a, b. rewrite <- E.
      now rewrite <- app_assoc.
Qed.

(** A word of the text that starts with the query makes the query a
    substring of the text. *)
Lemma word_start_is_included (q t : jsstring) :
  existsb (startsWith q) (split_words t) = true -> includes q t = true.
Proof.
  intros H. apply existsb_exists in H as [w [Hin Hs]].
  destruct (split_runs_piece _ _ _ _ Hin) as [a [b E]]. simpl in E.
  destruct (startsWith_split _ _ Hs) as [r ->].
  rewrite E, <- app_assoc. apply includes_occurrence.
Qed.

(** *** Subsequences *)

Lemma subsequence_refl (q : jsstring) : subsequence q q.
Proof. induction q; constructor; assumption. Qed.

Lemma subsequence_prefix (q b : jsstring) : subsequence q (q ++ b).
Proof. induction q; simpl; constructor; assumption. Qed.

Lemma subsequence_app_l (q a t : jsstring) :
  subsequence q t -> subsequence q (a ++ t).
Proof. intros H. induction a; simpl; [assumption | now constructor]. Qed.

Lemma subsequence_tail (c : N) (q t : jsstring) :
  subsequence (c :: q) t -> subsequence q t.
Proof.
  intros H. remember (c :: q) as cq eqn:E. revert c q E.
  induction H as [t|d q' t H IH|d q' t H IH]; intros c q E.
  - discriminate.
  - injection E as -> ->. now constructor.
  - constructor. now apply (IH c).
Qed.

Lemma subsequence_empty_text (q : jsstring) : subsequence q [] -> q = [].
Proof. intros H. now inversion H. Qed.

Lemma subsequence_cons_eq (c : N) (q t : jsstring) :
  subsequence (c :: q) (c :: t) <-> subsequence q t.
Proof.
  split; [|now constructor]. intros H. inversion H; subst; [assumption|].
  now apply (subsequence_tail c).
Qed.

Lemma subsequence_cons_neq (c d : N) (q t : jsstring) :
  c <> d -> (subsequence (d :: q) (c :: t) <-> subsequence (d :: q) t).
Proof.
  intros Hne. split; [|now constructor]. intros H.
  inversion H; subst; [congruence | assumption].
Qed.

(** *** The scanning loop *)

Lemma skipn_nth_error {A} (l : list A) (i : nat) (x : A) :
  nth_error l i = Some x -> skipn i l = x :: skipn (S i) l.
Proof.
  revert i. induction l as [|y l IH]; intros [|i] H; try discriminate.
  - now injection H as ->.
  - simpl in H. simpl. now apply IH.
Qed.

(** The loop reaches the end of the query exactly when what is left of the
    query is a subsequence of what is left of the text. *)
Lemma scan_complete (q t : jsstring) (i m : nat) :
  i <= List.length q ->
  fst (scan q t i m) = List.length q <-> subsequence (skipn i q) t.
Proof.
  revert i m. induction t as [|c t IH]; intros i m Hi.
  - simpl. split.
    + intros ->. rewrite skipn_all. constructor.
    + intros H. apply subsequence_empty_text in H.
      apply (f_equal (@List.length N)) in H. rewrite length_skipn in H.
      simpl in H. lia.
  - simpl. destruct (nth_error q i) as [d|] eqn:E.
    + assert (Hlt : i < List.length q).
      { apply nth_error_Some. congruence. }
      rewrite (skipn_nth_error _ _ _ E).
      destruct (N.eqb_spec c d) as [->|Hne].
      * rewrite (IH (S i) (S m) Hlt). symmetry.
        apply subsequence_cons_eq.
      * rewrite (IH i m Hi), (skipn_nth_error _ _ _ E). symmetry.
        now apply subsequence_cons_neq.
    + apply nth_error_None in E. simpl.
      assert (i = List.length q) as -> by lia.
      rewrite skipn_all. split; [constructor | reflexivity].
Qed.

(** [matchCount] counts what [queryIndex] counts. *)
Lemma scan_counts (q t : jsstring) (i m : nat) :
  snd (scan q t i m) + i = fst (scan q t i m) + m.
Proof.
  revert i m. induction t as [|c t IH]; intros i m; simpl; [lia|].
  destruct (nth_error q i) as [d|]; [|simpl; lia].
  destruct (N.eqb c d); [|apply IH].
  pose proof (IH (S i) (S m)). lia.
Qed.

(** Each match uses up a unit of the text. *)
Lemma scan_bound (q t : jsstring) (i m : nat) :
  snd (scan q t i m) <= m + List.length t.
Proof.
  revert i m. induction t as [|c t IH]; intros i m; simpl; [lia|].
  destruct (nth_error q i) as [d|]; [|simpl; lia].
  destruct (N.eqb c d).
  - pose proof (IH (S i) (S m)). lia.
  - pose proof (IH i m). lia.
Qed.

Lemma scan_index (q t : jsstring) (i m : nat) :
  fst (scan q t i m) = GlobalSearch.scan q t i.
Proof.
  revert i m. induction t as [|c t IH]; intros i m; simpl; [reflexivity|].
  destruct (nth_error q i) as [d|]; [|reflexivity].
  destruct (N.eqb c d); apply IH.
Qed.

Lemma scan_whole (q t : jsstring) :
  fst (scan q t 0 0) = List.length q <-> subsequence q t.
Proof. apply (scan_complete q t 0 0). lia. Qed.

Lemma fuzzyMatch_nonempty_query (text query : jsstring) :
  query <> [] ->
  matches (fuzzyMatch toLowerCase text query) = true
  <-> subsequence (toLowerCase query) (toLowerCase text).
Proof.
  intros Hq. unfold fuzzyMatch. destruct query as [|x query]; [easy|].
  cbn [truthy negb].
  set (t := toLowerCase text). set (q := toLowerCase (x :: query)).
  destruct (eqb t q) eqn:E1.
  { apply eqb_eq in E1. rewrite E1. simpl. split; [|reflexivity].
    intros _. apply subsequence_refl. }
  destruct (startsWith q t) eqn:E2.
  { destruct (startsWith_split _ _ E2) as [r ->]. simpl.
    split; [|reflexivity]. intros _. apply subsequence_prefix. }
  destruct (includes q t) eqn:E3.
  { destruct (includes_split _ _ E3) as [a [b ->]]. simpl.
    split; [|reflexivity]. intros _.
    apply subsequence_app_l, subsequence_prefix. }
  destruct (existsb (startsWith q) (split_words t)) eqn:E4.
  { apply word_start_is_included in E4. congruence. }
  pose proof (scan_whole q t) as S.
  destruct (scan q t 0 0) as [queryIndex matchCount]. simpl in S.
  destruct (Nat.eqb_spec queryIndex (List.length q)) as [E5|E5]; simpl.
  - split; [|reflexivity]. intros _. now apply S.
  - split; [discriminate|]. intros H. now apply S in H.
Qed.

Lemma fuzzyMatch_scores (text query : jsstring) :
  let r := fuzzyMatch toLowerCase text query in
  (matches r = false /\ score r = 0%Z)
  \/ (matches r = true /\ query = [] /\ score r = 0%Z)
  \/ (matches r = true /\ query <> [] /\ (20 <= score r <= 100)%Z).
Proof.
  unfold fuzzyMatch. destruct query as [|x query]; [simpl; auto|].
  cbn [truthy negb].
  set (t := toLowerCase text). set (q := toLowerCase (x :: query)).
  assert (Hq : x :: query <> []) by discriminate.
  assert (R : forall n : Z, (20 <= n <= 100)%Z ->
              let r := {| matches := true; score := n |} in
              (matches r = false /\ score r = 0%Z)
              \/ (matches r = true /\ x :: query = [] /\ score r = 0%Z)
              \/ (matches r = true /\ x :: query <> []
                  /\ (20 <= score r <= 100)%Z)).
  { intros n Hn. cbn [matches score]. auto 10. }
  destruct (eqb t q); [apply R; lia|].
  destruct (startsWith q t); [apply R; lia|].
  destruct (includes q t); [apply R; lia|].
  destruct (existsb (startsWith q) (split_words t)); [apply R; lia|].
  pose proof (scan_bound q t 0 0) as C.
  destruct (scan q t 0 0) as [queryIndex matchCount]. cbn [fst snd] in C.
  destruct (Nat.eqb queryIndex (List.length q)); [apply R; lia|].
  cbn [matches score]. auto.
Qed.

(** X7: the store's [fuzzyMatch] matches exactly when the query is empty or
    its lowered form can be read in the lowered text from left to right,
    possibly with gaps.  The earlier tests (equal, prefix, substring, word
    start) only decide the score. *)
Theorem fuzzyMatch_matches_subsequence (text query : jsstring) :
  matches (fuzzyMatch toLowerCase text query) = true
  <-> query = [] \/ subsequence (toLowerCase query) (toLowerCase text).
Proof.
  destruct query as [|x query]; [simpl; tauto|].
  rewrite fuzzyMatch_nonempty_query by discriminate.
  split; [auto|]. now intros [H|H].
Qed.

(** X8: the scores of the store's [fuzzyMatch].  No match has score 0, the
    empty query matches with score 0, and every other match has score 100,
    90, 70 or a score from 20 to 50: the score 60 of the word-start test is
    never given, since a text with a word that starts with the query
    contains the query and has passed the substring test before. *)
Theorem fuzzyMatch_score_values (text query : jsstring) :
  let r := fuzzyMatch toLowerCase text query in
  r = {| matches := false; score := 0 |}
  \/ (query = [] /\ r = {| matches := true; score := 0 |})
  \/ (query <> [] /\ matches r = true
      /\ (20 <= score r <= 50 \/ score r = 70 \/ score r = 90
          \/ score r = 100))%Z.
Proof.
  unfold fuzzyMatch. destruct query as [|x query]; [simpl; auto|].
  cbn [truthy negb].
  set (t := toLowerCase text). set (q := toLowerCase (x :: query)).
  assert (Hq : x :: query <> []) by discriminate.
  destruct (eqb t q); [simpl; auto 10|].
  destruct (startsWith q t); [simpl; auto 10|].
  destruct (includes q t) eqn:E3; [simpl; auto 10|].
  destruct (existsb (startsWith q) (split_words t)) eqn:E4.
  { apply word_start_is_included in E4. congruence. }
  pose proof (scan_bound q t 0 0) as C.
  destruct (scan q t 0 0) as [queryIndex matchCount]. cbn [fst snd] in C.
  destruct (Nat.eqb queryIndex (List.length q)); cbn [matches score]; [|auto].
  right. right. split; [exact Hq|]. split; [reflexivity|]. left. lia.
Qed.

(** X9: the [fuzzyMatch] of the search dialog and the [fuzzyMatch] of the
    store return the same result on every text and query: the store's
    [matchCount] always equals [queryIndex], which the dialog uses. *)
Theorem fuzzyMatch_copies_agree (text query : jsstring) :
  GlobalSearch.fuzzyMatch toLowerCase text query
  = fuzzyMatch toLowerCase text query.
Proof.
  unfold GlobalSearch.fuzzyMatch, fuzzyMatch.
  destruct (negb (truthy query)); [reflexivity|].
  set (t := toLowerCase text). set (q := toLowerCase query).
  destruct (eqb t q); [reflexivity|].
  destruct (startsWith q t); [reflexivity|].
  destruct (includes q t); [reflexivity|].
  destruct (existsb (startsWith q) (split_words t)); [reflexivity|].
  pose proof (scan_counts q t 0 0) as C.
  pose proof (scan_index q t 0 0) as I.
  destruct (scan q t 0 0) as [queryIndex matchCount]. simpl in C, I.
  rewrite <- I. assert (matchCount = queryIndex) as -> by lia.
  reflexivity.
Qed.

(** X10: [matchesSearch] matches an item exactly when the trimmed search
    query is empty or its lowered form is a subsequence of the lowered
    name, description (when the item has a non-empty one) or path. *)
Theorem matchesSearch_matches_subsequence
    (searchQuery : jsstring) (item : CommandPaletteItem) :
  matches (matchesSearch toLowerCase searchQuery item) = true
  <-> trim searchQuery = []
      \/ exists text, In text (searched item)
           /\ subsequence (toLowerCase (trim searchQuery))
                (toLowerCase text).
Proof.
  unfold matchesSearch, searched.
  destruct (trim searchQuery) as [|x query] eqn:T; [simpl; tauto|].
  cbn [truthy negb]. set (q := x :: query).
  assert (Hq : q <> []) by discriminate.
  pose proof (fun text => fuzzyMatch_nonempty_query text q Hq) as F.
  destruct (matches (fuzzyMatch toLowerCase (name item) q)) eqn:M1.
  { simpl. split; [|reflexivity]. intros _. right. exists (name item).
    split; [now left | now apply F]. }
  assert (N1 : ~ subsequence (toLowerCase q) (toLowerCase (name item))).
  { intros H. apply F in H. congruence. }
  assert (P : forall extra : list jsstring,
             (forall text, In text extra ->
                           ~ subsequence (toLowerCase q) (toLowerCase text)) ->
             matches
               (if matches (fuzzyMatch toLowerCase (path item) q)
                then {| matches := true;
                        score := score (fuzzyMatch toLowerCase (path item) q)
                                 - 20 |}
                else {| matches := false; score := 0 |}) = true
             <-> x :: query = []
                 \/ exists text, In text (name item :: extra ++ [path item])
                      /\ subsequence (toLowerCase q) (toLowerCase text)).
  { intros extra Hextra.
    destruct (matches (fuzzyMatch toLowerCase (path item) q)) eqn:M3; simpl.
    - split; [|reflexivity]. intros _. right. exists (path item). split.
      + right. apply in_or_app. right. now left.
      + now apply F.
    - split; [discriminate|]. intros [H|[text [[<-|Hin] Hs]]].
      + discriminate.
      + contradiction.
      + exfalso. apply in_app_or in Hin as [Hin|[<-|[]]].
        * now apply (Hextra text).
        * apply F in Hs. congruence. }
  destruct (description item) as [d|]; [|apply (P []); now intros ? []].
  destruct (truthy d); [|apply (P []); now intros ? []].
  destruct (matches (fuzzyMatch toLowerCase d q)) eqn:M2.
  { simpl. split; [|reflexivity]. intros _. right. exists d.
    split; [right; now left | now apply F]. }
  apply (P [d]). intros text [<-|[]] H. apply F in H. congruence.
Qed.

(** X11: the scores of [matchesSearch]: an item that does not match has
    score 0 and a matching item has a score from 0 to 100, so the
    deductions for a match by description or by path never make a score
    negative. *)
Theorem matchesSearch_score_range
    (searchQuery : jsstring) (item : CommandPaletteItem) :
  let r := matchesSearch toLowerCase searchQuery item in
  r = {| matches := false; score := 0 |}
  \/ (matches r = true /\ (0 <= score r <= 100)%Z).
Proof.
  unfold matchesSearch.
  destruct (trim searchQuery) as [|x query] eqn:T; [simpl; right; lia|].
  cbn [truthy negb]. set (q := x :: query).
  assert (S : forall text,
             matches (fuzzyMatch toLowerCase text q) = true ->
             (20 <= score (fuzzyMatch toLowerCase text q) <= 100)%Z).
  { intros text M. pose proof (fuzzyMatch_scores text q) as H.
    simpl in H. destruct H as [[H _]|[[_ [H _]]|[_ [_ H]]]];
      [congruence | discriminate | exact H]. }
  destruct (matches (fuzzyMatch toLowerCase (name item) q)) eqn:M1.
  { right. simpl. split; [reflexivity|]. specialize (S _ M1). lia. }
  assert (P : let r :=
                if matches (fuzzyMatch toLowerCase (path item) q)
                then {| matches := true;
                        score := score (fuzzyMatch toLowerCase (path item) q)
                                 - 20 |}
                else {| matches := false; score := 0 |} in
              r = {| matches := false; score := 0 |}
              \/ (matches r = true /\ (0 <= score r <= 100)%Z)).
  { destruct (matches (fuzzyMatch toLowerCase (path item) q)) eqn:M3;
      simpl; [|auto].
    right. split; [reflexivity|]. specialize (S _ M3). lia. }
  destruct (description item) as [d|]; [|exact P].
  destruct (truthy d); [|exact P].
  destruct (matches (fuzzyMatch toLowerCase d q)) eqn:M2; [|exact P].
  right. simpl. split; [reflexivity|]. specialize (S _ M2). lia.
Qed.

End SearchFacts.

(* ------------------------------------------------------------------------- *)
(** ** Keyboard navigation *)
(* ------------------------------------------------------------------------- *)

Section KeyboardFacts.
Import Keyboard.
Local Open Scope Z_scope.

Lemma press_down (n : Z) (key : string) (i : Z) :
  moves_down key = true ->
  press n key i = if i <? n - 1 then i + 1 else 0.
Proof.
  unfold moves_down, press, handleKeyDown. intros H.
  cbn [negb]. now rewrite H.
Qed.

Lemma down_is_not_up (key : string) :
  moves_up key = true -> moves_down key = false.
Proof.
  unfold moves_up, moves_down. intros H.
  apply orb_true_iff in H as [H|H]; apply String.eqb_eq in H; now subst.
Qed.

Lemma press_up (n : Z) (key : string) (i : Z) :
  moves_up key = true ->
  press n key i = if i >? 0 then i - 1 else n - 1.
Proof.
  intros H. pose proof (down_is_not_up key H) as D.
  unfold moves_up, moves_down in *. unfold press, handleKeyDown.
  cbn [negb]. now rewrite D, H.
Qed.

(** X12: on a non-empty list with the index in range, the keys that move
    down and the keys that move up keep the index in range, wrap around at
    the ends, and undo each other. *)
Theorem arrows_wrap_and_invert (itemCount selectedIndex : Z)
    (down up : string) :
  moves_down down = true -> moves_up up = true ->
  0 <= selectedIndex < itemCount ->
  let d := press itemCount down selectedIndex in
  let u := press itemCount up selectedIndex in
  0 <= d < itemCount /\ 0 <= u < itemCount
  /\ d = (selectedIndex + 1) mod itemCount
  /\ u = (selectedIndex - 1) mod itemCount
  /\ press itemCount up d = selectedIndex
  /\ press itemCount down u = selectedIndex.
Proof.
  intros Hd Hu Hi d u. unfold d, u.
  rewrite (press_down itemCount down selectedIndex Hd).
  rewrite (press_up itemCount up selectedIndex Hu).
  rewrite (press_up itemCount up (if selectedIndex <? itemCount - 1 then selectedIndex + 1 else 0) Hu).
  rewrite (press_down itemCount down (if selectedIndex >? 0 then selectedIndex - 1 else itemCount - 1) Hd).
  assert (M : forall x q r, 0 <= r < itemCount -> x = itemCount * q + r ->
                           r = x mod itemCount).
  { intros x q r Hr Hx. now apply (Z.mod_unique_pos x itemCount q r). }
  destruct (Z.ltb_spec selectedIndex (itemCount - 1)) as [L|L];
    destruct (Z.gtb_spec selectedIndex 0) as [G|G].
  - split; [lia|]. split; [lia|]. split; [apply (M _ 0); lia|].
    split; [apply (M _ 0); lia|]. split.
    + destruct (Z.gtb_spec (selectedIndex + 1) 0); lia.
    + destruct (Z.ltb_spec (selectedIndex - 1) (itemCount - 1)); lia.
  - split; [lia|]. split; [lia|]. split; [apply (M _ 0); lia|].
    split; [apply (M _ (-1)); lia|]. split.
    + destruct (Z.gtb_spec (selectedIndex + 1) 0); lia.
    + destruct (Z.ltb_spec (itemCount - 1) (itemCount - 1)); lia.
  - split; [lia|]. split; [lia|]. split; [apply (M _ 1); lia|].
    split; [apply (M _ 0); lia|]. split.
    + destruct (Z.gtb_spec 0 0); lia.
    + destruct (Z.ltb_spec (selectedIndex - 1) (itemCount - 1)); lia.
  - split; [lia|]. split; [lia|]. split; [apply (M _ 1); lia|].
    split; [apply (M _ (-1)); lia|]. split.
    + destruct (Z.gtb_spec 0 0); lia.
    + destruct (Z.ltb_spec (itemCount - 1) (itemCount - 1)); lia.
Qed.

(** X13: the handler calls [onSelect] only for the key Enter, only when
    enabled, only with the current index, and only when that index is in
    range: never with the index -1 that moving up on an empty list
    gives. *)
Theorem onSelect_only_in_range (isEnabled : bool) (itemCount selectedIndex : Z)
    (has_onEscape : bool) (key : string) (index : Z) :
  In (onSelect index)
     (handleKeyDown isEnabled itemCount selectedIndex has_onEscape key) ->
  isEnabled = true /\ key = "Enter"%string /\ index = selectedIndex
  /\ 0 <= index < itemCount.
Proof.
  unfold handleKeyDown. destruct isEnabled; cbn [negb]; [|intros []].
  destruct (String.eqb key "ArrowDown" || String.eqb key "j")%bool.
  { intros [H|[H|[]]]; discriminate. }
  destruct (String.eqb key "ArrowUp" || String.eqb key "k")%bool.
  { intros [H|[H|[]]]; discriminate. }
  destruct (String.eqb_spec key "Enter") as [->|Hne].
  - destruct (Z.geb_spec selectedIndex 0) as [G|G];
      destruct (Z.ltb_spec selectedIndex itemCount) as [L|L]; cbn [andb];
      intros [H|H]; try discriminate; try destruct H as [H|[]];
      try (now destruct H).
    injection H as <-. repeat split; lia.
  - destruct (String.eqb key "Escape"); [|intros []].
    destruct has_onEscape; intros [H|H]; try discriminate;
      try destruct H as [H|[]]; try discriminate; now destruct H.
Qed.

End KeyboardFacts.

(* ------------------------------------------------------------------------- *)
(** ** Health issues *)
(* ------------------------------------------------------------------------- *)

Section HealthFacts.
Import Health.

Lemma count_app (sev : HealthIssueSeverity) (a b : list HealthIssue) :
  count sev (a ++ b) = count sev a + count sev b.
Proof. unfold count. now rewrite filter_app, length_app. Qed.

Lemma count_flat_map {A} (sev : HealthIssueSeverity)
    (f : A -> list HealthIssue) (l : list A) :
  count sev (flat_map f l)
  = list_sum (map (fun x => count sev (f x)) l).
Proof.
  induction l as [|x l IH]; [reflexivity|].
  cbn [flat_map map list_sum]. now rewrite count_app, IH.
Qed.

Lemma list_sum_indicator {A} (f : A -> bool) (l : list A) :
  list_sum (map (fun x => if f x then 1 else 0) l) = how_many f l.
Proof.
  unfold how_many. induction l as [|x l IH]; [reflexivity|].
  cbn [map list_sum filter]. destruct (f x); simpl; lia.
Qed.

Lemma list_sum_zero {A} (l : list A) :
  list_sum (map (fun _ => 0) l) = 0.
Proof. induction l; simpl; lia. Qed.

Lemma list_sum_one {A} (l : list A) :
  list_sum (map (fun _ => 1) l) = List.length l.
Proof. induction l; simpl; lia. Qed.

Lemma list_sum_ext {A} (f g : A -> nat) (l : list A) :
  (forall x, f x = g x) -> list_sum (map f l) = list_sum (map g l).
Proof. intros H. induction l; simpl; [reflexivity|]. now rewrite H, IHl. Qed.

Lemma count_no_desc (sev : HealthIssueSeverity) (prefix kind : string)
    (l : list Described) :
  count sev (flat_map (no_desc prefix kind) l)
  = match sev with
    | sev_info => how_many no_description l
    | _ => 0
    end.
Proof.
  rewrite count_flat_map.
  destruct sev.
  - rewrite <- (list_sum_zero l). apply list_sum_ext. intros x.
    unfold no_desc. now destruct (no_description x).
  - rewrite <- (list_sum_zero l). apply list_sum_ext. intros x.
    unfold no_desc. now destruct (no_description x).
  - rewrite <- list_sum_indicator. apply list_sum_ext. intros x.
    unfold no_desc. now destruct (no_description x).
Qed.

(** The number of issues of each severity, by what raises them. *)
Lemma counts_by_source (i : Inputs) :
  count sev_error (find_issues i)
  = how_many (fun s => negb (target_exists s)) (symlinks i)
  /\ count sev_warning (find_issues i)
     = List.length (duplicates i) + how_many bypasses (agents i)
  /\ count sev_info (find_issues i)
     = how_many no_description (agents i)
       + how_many no_description (skills i)
       + how_many no_description (commands i)
       + how_many nearly_empty (settings i).
Proof.
  unfold find_issues. rewrite !count_app, !count_no_desc.
  rewrite !count_flat_map.
  assert (S1 : forall sev,
             list_sum (map (fun x => count sev (broken_symlink x))
                         (symlinks i))
             = match sev with
               | sev_error =>
                   how_many (fun s => negb (target_exists s)) (symlinks i)
               | _ => 0
               end).
  { intros sev. destruct sev.
    - rewrite <- list_sum_indicator. apply list_sum_ext. intros x.
      unfold broken_symlink. now destruct (target_exists x).
    - rewrite <- (list_sum_zero (symlinks i)). apply list_sum_ext.
      intros x. unfold broken_symlink. now destruct (target_exists x).
    - rewrite <- (list_sum_zero (symlinks i)). apply list_sum_ext.
      intros x. unfold broken_symlink. now destruct (target_exists x). }
  assert (S2 : forall sev,
             list_sum (map (fun x => count sev (duplicate x))
                         (duplicates i))
             = match sev with
               | sev_warning => List.length (duplicates i)
               | _ => 0
               end).
  { intros sev. destruct sev.
    - rewrite <- (list_sum_zero (duplicates i)). now apply list_sum_ext.
    - rewrite <- list_sum_one. now apply list_sum_ext.
    - rewrite <- (list_sum_zero (duplicates i)). now apply list_sum_ext. }
  assert (S3 : forall sev,
             list_sum (map (fun x => count sev (agent_issues x)) (agents i))
             = match sev with
               | sev_error => 0
               | sev_warning => how_many bypasses (agents i)
               | sev_info => how_many no_description (agents i)
               end).
  { intros sev. destruct sev.
    - rewrite <- (list_sum_zero (agents i)). apply list_sum_ext.
      intros x. unfold agent_issues, no_desc.
      now destruct (no_description x), (bypasses x).
    - rewrite <- list_sum_indicator. apply list_sum_ext.
      intros x. unfold agent_issues, no_desc.
      now destruct (no_description x), (bypasses x).
    - rewrite <- list_sum_indicator. apply list_sum_ext.
      intros x. unfold agent_issues, no_desc.
      now destruct (no_description x), (bypasses x). }
  assert (S4 : forall sev,
             list_sum (map (fun x => count sev (empty_settings x))
                         (settings i))
             = match sev with
               | sev_info => how_many nearly_empty (settings i)
               | _ => 0
               end).
  { intros sev. destruct sev.
    - rewrite <- (list_sum_zero (settings i)). apply list_sum_ext.
      intros x. unfold empty_settings. now destruct (nearly_empty x).
    - rewrite <- (list_sum_zero (settings i)). apply list_sum_ext.
      intros x. unfold empty_settings. now destruct (nearly_empty x).
    - rewrite <- list_sum_indicator. apply list_sum_ext.
      intros x. unfold empty_settings. now destruct (nearly_empty x). }
  rewrite !S1, !S2, !S3, !S4. repeat split; lia.
Qed.

(** X14: the three counts of the summary add up to the total, whatever the
    store holds. *)
Theorem health_counts_add_up (i : Inputs) :
  let h := useHealthIssues i in
  totalCount h = errorCount h + warningCount h + infoCount h.
Proof.
  cbn. generalize (find_issues i). intros l. unfold count.
  induction l as [|x l IH]; [reflexivity|].
  cbn [filter List.length]. destruct (severity x); cbn; lia.
Qed.

(** X15: the counts by what raises the issues: errors are the broken
    symlinks; warnings are the duplicate groups and the agents that bypass
    permissions; the rest is information. *)
Theorem health_counts_by_source (i : Inputs) :
  let h := useHealthIssues i in
  errorCount h = how_many (fun s => negb (target_exists s)) (symlinks i)
  /\ warningCount h
     = List.length (duplicates i) + how_many bypasses (agents i)
  /\ infoCount h
     = how_many no_description (agents i)
       + how_many no_description (skills i)
       + how_many no_description (commands i)
       + how_many nearly_empty (settings i).
Proof. exact (counts_by_source i). Qed.

Lemma how_many_zero {A} (f : A -> bool) (l : list A) :
  how_many f l = 0 <-> existsb f l = false.
Proof.
  unfold how_many. induction l as [|x l IH]; [easy|].
  cbn [filter existsb]. destruct (f x); cbn; [easy | exact IH].
Qed.

Lemma forallb_existsb_negb {A} (f : A -> bool) (l : list A) :
  forallb f l = true <-> existsb (fun x => negb (f x)) l = false.
Proof.
  induction l as [|x l IH]; [easy|].
  cbn [forallb existsb]. destruct (f x); cbn; [exact IH | easy].
Qed.

(** X16: the summary is healthy exactly when every symlink has its target,
    there is no duplicate group and no agent bypasses permissions; missing
    descriptions and empty settings files do not count. *)
Theorem isHealthy_iff (i : Inputs) :
  isHealthy (useHealthIssues i) = true
  <-> forallb target_exists (symlinks i) = true
      /\ duplicates i = []
      /\ existsb bypasses (agents i) = false.
Proof.
  destruct (counts_by_source i) as [E [W _]].
  cbn [isHealthy useHealthIssues].
  rewrite E, W, andb_true_iff, !Nat.eqb_eq.
  rewrite forallb_existsb_negb, <- !how_many_zero. split.
  - intros [H1 H2]. split; [exact H1|].
    split; [apply length_zero_iff_nil; lia | lia].
  - intros [H1 [H2 H3]]. rewrite H2. cbn. lia.
Qed.

End HealthFacts.

Lemma arrows_wrap_and_invert_witness :
  (0 <= Keyboard.press 3 "ArrowDown" 2 < 3
   /\ 0 <= Keyboard.press 3 "k" 2 < 3
   /\ Keyboard.press 3 "ArrowDown" 2 = (2 + 1) mod 3
   /\ Keyboard.press 3 "k" 2 = (2 - 1) mod 3
   /\ Keyboard.press 3 "k" (Keyboard.press 3 "ArrowDown" 2) = 2
   /\ Keyboard.press 3 "ArrowDown" (Keyboard.press 3 "k" 2) = 2)%Z.
Proof.
  apply (arrows_wrap_and_invert 3 2 "ArrowDown" "k");
    [reflexivity | reflexivity | lia].
Defined.

Lemma onSelect_only_in_range_witness :
  true = true /\ "Enter"%string = "Enter"%string /\ 1%Z = 1%Z
  /\ (0 <= 1 < 3)%Z.
Proof.
  apply (onSelect_only_in_range true 3 1 false "Enter" 1).
  simpl. right. left. reflexivity.
Defined.

(* ------------------------------------------------------------------------- *)
(** ** More actions of the store *)
(* ------------------------------------------------------------------------- *)

Section StoreFacts.
Import AppStore Entities Store.

(** X17: [setActiveProject] is [setActiveView] for the project view followed
    by [setFilterProject]: the project filter is the only thing it does not
    reset.  The order matters: [setActiveView] after [setFilterProject]
    would drop the filter. *)
Theorem setActiveProject_is_view_then_filter
    (projectPath : string) (w : World) :
  setActiveProject projectPath w
  = setFilterProject (Some projectPath) (setActiveView project w)
  /\ filterProject
       (fst (setActiveView project
               (setFilterProject (Some projectPath) w))) = None.
Proof.
  destruct w as [s ls]. split.
  - unfold setActiveProject, setFilterProject, setActiveView, set,
      AppStore.set. reflexivity.
  - reflexivity.
Qed.

(** X18: selecting an entity in the search dialog leaves the dialog closed
    with its query cleared, the view of the entity's type active with
    search and filters reset, the panel open on the entity, and the
    entity's id first among the recent ones, in the store and in
    [localStorage]. *)
Theorem onSelect_opens_entity (entity : DisplayableEntity)
    (entityType : Duplicates.EntityType) (w : World) :
  let s := fst (GlobalSearch.onSelect entity entityType w) in
  isGlobalSearchOpen s = false
  /\ globalSearchQuery s = ""%string
  /\ activeView s = GlobalSearch.viewMap entityType
  /\ searchQuery s = ""%string
  /\ filterScope s = scope_all
  /\ filterProject s = None
  /\ selectedEntity s = Some entity
  /\ isPanelOpen s = true
  /\ hd_error (recentEntityIds s) = Some (entity_id entity)
  /\ ls_recentEntityIds (snd (GlobalSearch.onSelect entity entityType w))
     = Some (recentEntityIds s).
Proof. repeat split. Qed.




Lemma map_if_id {A} (p : A -> bool) (f : A -> A) (l : list A) :
  (forall x, p x = true -> f x = x) ->
  map (fun x => if p x then f x else x) l = l.
Proof.
  intros H. induction l as [|x l IH]; [reflexivity|]. simpl.
  rewrite IH. destruct (p x) eqn:E; [now rewrite H | reflexivity].
Qed.


(** *** Theme *)

(** X21: [toggleTheme] switches the theme, a second toggle restores it, and
    after each toggle the store, [localStorage] and the document's
    [data-theme] attribute hold the same theme. *)
Theorem toggleTheme_twice (p : Page) :
  let p1 := toggleTheme p in
  let p2 := toggleTheme p1 in
  store_theme p1 <> store_theme p
  /\ store_theme p2 = store_theme p
  /\ theme_in_sync p1 /\ theme_in_sync p2.
Proof.
  destruct p as [[s ls] dt tm].
  unfold theme_in_sync, toggleTheme, store_theme. cbn.
  destruct (theme s); cbn; (split; [discriminate|]); auto.
Qed.

(** *** Toasts *)

Lemma shown_removeToast (id' : string) (p : Page) :
  shown (removeToast id' p)
  = filter (fun t => differs (toast_id t) id') (shown p).
Proof. reflexivity. Qed.

Lemma all_timed_add (generated : string) (toast : ToastInput) (p : Page) :
  all_timed p -> all_timed (snd (addToast generated toast p)).
Proof.
  intros H t Hin Hauto. unfold shown in Hin. cbn in Hin.
  apply in_app_or in Hin as [Hin|[<-|[]]].
  - destruct (H t Hin Hauto) as [timer [Ht E]]. exists timer.
    split; [|exact E]. cbn. destruct (auto_removed toast); [|exact Ht].
    apply in_or_app. now left.
  - cbn in Hauto. cbn. rewrite Hauto.
    eexists. split; [apply in_or_app; right; left; reflexivity|].
    reflexivity.
Qed.

Lemma all_timed_remove (id' : string) (p : Page) :
  all_timed p -> all_timed (removeToast id' p).
Proof.
  intros H t Hin Hauto. rewrite shown_removeToast in Hin.
  apply filter_In in Hin as [Hin _]. exact (H t Hin Hauto).
Qed.

Lemma in_without_nth {A} (n : nat) (l : list A) (x y : A) :
  nth_error l n = Some y -> In x l -> x <> y ->
  In x (firstn n l ++ skipn (S n) l).
Proof.
  revert n. induction l as [|z l IH]; intros [|n] Hn Hin Hne;
    try discriminate.
  - simpl in Hn. injection Hn as ->. destruct Hin as [->|Hin];
      [congruence | exact Hin].
  - simpl in Hn. destruct Hin as [->|Hin]; [now left|].
    right. now apply IH.
Qed.

Lemma all_timed_fire (n : nat) (p : Page) :
  all_timed p -> all_timed (fire n p).
Proof.
  intros H. unfold fire. destruct (nth_error (timers p) n) as [tm|] eqn:E;
    [|exact H].
  intros t Hin Hauto. rewrite shown_removeToast in Hin.
  apply filter_In in Hin as [Hin Hd]. unfold shown in Hin. cbn in Hin.
  destruct (H t Hin Hauto) as [timer [Ht Et]]. exists timer.
  split; [|exact Et]. cbn. apply (in_without_nth n _ _ tm E Ht).
  intros ->. unfold differs in Hd. rewrite <- Et, String.eqb_refl in Hd.
  discriminate.
Qed.

(** X22: whatever toasts are added, dismissed by hand or removed by their
    timers, in any order and even with repeated ids, every toast on the
    page whose duration is not 0 has a pending timer that will remove it:
    no such toast stays for ever. *)
Theorem toasts_all_timed (events : list ToastEvent) :
  all_timed (toast_run events initial_page).
Proof.
  unfold toast_run.
  assert (G : forall p, all_timed p -> all_timed (fold_left toast_step events p)).
  { induction events as [|e events IH]; intros p Hp; [exact Hp|].
    simpl. apply IH. destruct e as [g t|i|n]; simpl.
    - now apply all_timed_add.
    - now apply all_timed_remove.
    - now apply all_timed_fire. }
  apply G. intros t [].
Qed.

Lemma without_last {A} (l : list A) (x : A) :
  firstn (List.length l) (l ++ [x]) ++ skipn (S (List.length l)) (l ++ [x])
  = l.
Proof.
  induction l as [|y l IH]; [reflexivity|].
  change (y :: (firstn (List.length l) (l ++ [x])
                ++ skipn (S (List.length l)) (l ++ [x])) = y :: l).
  now rewrite IH.
Qed.

Lemma filter_differs_fresh (id' : string) (l : list Toast) :
  ~ In id' (map toast_id l) ->
  filter (fun t => differs (toast_id t) id') l = l.
Proof.
  induction l as [|t l IH]; intros H; [reflexivity|]. simpl.
  unfold differs at 1. destruct (String.eqb_spec (toast_id t) id') as [E|E].
  - exfalso. apply H. now left.
  - simpl. rewrite IH; [reflexivity|]. intros Hin. apply H. now right.
Qed.

(** X23: a toast added under an id that no toast on the page has, with a
    duration other than 0, gets one timer, last in the queue, with its
    duration or 4000 ms when the duration is not given; when that timer
    fires, the toasts and the pending timers are exactly as before the
    toast was added. *)
Theorem addToast_then_timer (generated : string) (toast : ToastInput)
    (p : Page) :
  ~ In generated (map toast_id (shown p)) ->
  duration toast <> Some 0%Z ->
  let p1 := snd (addToast generated toast p) in
  let p2 := fire (List.length (timers p)) p1 in
  fst (addToast generated toast p) = generated
  /\ shown p1 = shown p ++ [ {| toast_id := generated; toast_input := toast |} ]
  /\ timers p1
     = timers p ++ [ {| delay := match duration toast with
                                 | Some d => d
                                 | None => 4000%Z
                                 end;
                        removes := generated |} ]
  /\ shown p2 = shown p
  /\ timers p2 = timers p.
Proof.
  intros Hfresh Hd p1 p2.
  assert (Ha : auto_removed toast = true).
  { unfold auto_removed. destruct (duration toast) as [[| |]|]; congruence. }
  assert (Hdur : duration_or_default (duration toast)
                 = match duration toast with
                   | Some d => d
                   | None => 4000%Z
                   end).
  { unfold duration_or_default.
    destruct (duration toast) as [[| |]|]; congruence. }
  assert (T1 : timers p1
               = timers p ++ [ {| delay := duration_or_default (duration toast);
                                  removes := generated |} ]).
  { unfold p1. cbn. now rewrite Ha. }
  split; [reflexivity|]. split; [reflexivity|].
  split; [now rewrite T1, Hdur|].
  unfold p2, fire. rewrite T1, nth_error_app2, Nat.sub_diag by lia.
  cbn [nth_error removes]. split.
  - rewrite shown_removeToast. unfold shown. cbn.
    rewrite filter_app. cbn [filter toast_id]. unfold differs at 2.
    rewrite String.eqb_refl. cbn. rewrite app_nil_r.
    now apply filter_differs_fresh.
  - unfold removeToast. cbn [timers]. apply without_last.
Qed.

End StoreFacts.

Lemma addToast_then_timer_witness :
  fst (Store.addToast "toast_1"
         {| Entities.toast_type := Entities.toast_success;
            Entities.title := "Saved"; Entities.message := None;
            Entities.duration := None |} Store.initial_page)
  = "toast_1"%string
  /\ Store.shown
       (snd (Store.addToast "toast_1"
               {| Entities.toast_type := Entities.toast_success;
                  Entities.title := "Saved"; Entities.message := None;
                  Entities.duration := None |} Store.initial_page))
     = Store.shown Store.initial_page
       ++ [ {| Entities.toast_id := "toast_1";
               Entities.toast_input :=
                 {| Entities.toast_type := Entities.toast_success;
                    Entities.title := "Saved"; Entities.message := None;
                    Entities.duration := None |} |} ]
  /\ Store.timers
       (snd (Store.addToast "toast_1"
               {| Entities.toast_type := Entities.toast_success;
                  Entities.title := "Saved"; Entities.message := None;
                  Entities.duration := None |} Store.initial_page))
     = Store.timers Store.initial_page
       ++ [ {| Store.delay := 4000; Store.removes := "toast_1" |} ]
  /\ Store.shown
       (Store.fire (List.length (Store.timers Store.initial_page))
          (snd (Store.addToast "toast_1"
                  {| Entities.toast_type := Entities.toast_success;
                     Entities.title := "Saved"; Entities.message := None;
                     Entities.duration := None |} Store.initial_page)))
     = Store.shown Store.initial_page
  /\ Store.timers
       (Store.fire (List.length (Store.timers Store.initial_page))
          (snd (Store.addToast "toast_1"
                  {| Entities.toast_type := Entities.toast_success;
                     Entities.title := "Saved"; Entities.message := None;
                     Entities.duration := None |} Store.initial_page)))
     = Store.timers Store.initial_page.
Proof.
  apply (addToast_then_timer "toast_1"
           {| Entities.toast_type := Entities.toast_success;
              Entities.title := "Saved"; Entities.message := None;
              Entities.duration := None |} Store.initial_page).
  - simpl. tauto.
  - discriminate.
Defined.

(* ------------------------------------------------------------------------- *)
(** ** Selecting projects in the bulk fix dialog *)
(* ------------------------------------------------------------------------- *)

Section FixSelectionFacts.
Import FixConfig FixSelection.
Variable backend : Backend.

(** X24: toggling a project twice gives back the dialog as it was, whether
    the dialog is frozen or not, and also when several rows share the
    path. *)
Theorem toggleProject_twice (p_path : string) (c : Component) :
  toggleProject p_path (toggleProject p_path c) = c.
Proof.
  unfold toggleProject.
  destruct (isFixing c || isDone c)%bool eqn:F; [now rewrite F|].
  cbn. rewrite F. cbn. destruct c as [ps f d cs r ts]. cbn. f_equal.
  rewrite map_map. rewrite <- (map_id ps) at 2. apply map_ext.
  intros [pa na cf se st me]. cbn.
  destruct (String.eqb pa p_path) eqn:E; cbn; [|now rewrite E].
  rewrite E. now rewrite negb_involutive.
Qed.

Lemma selected_after_fix (c : Component) :
  map selected (projectStates (click_fix backend c))
  = map selected (projectStates c).
Proof.
  destruct (filter selected (projectStates c)) as [|x l] eqn:F.
  - unfold click_fix, handleFixSelected. now rewrite F.
  - rewrite (click_fix_spec backend c) by (rewrite F; discriminate).
    cbn [projectStates]. rewrite map_map. apply map_ext. intros p.
    destruct (existsb _ _); [|reflexivity].
    unfold settled. destruct (backend (path p)) as [m|[m|]]; reflexivity.
Qed.

(** X25: once a fix has run on a non-empty selection the dialog is frozen:
    the selection is what it was before the run, and neither a click on a
    project nor on the select-all box changes anything any more. *)
Theorem dialog_frozen_after_fix (c : Component) (p_path : string) :
  filter selected (projectStates c) <> [] ->
  let c' := click_fix backend c in
  map selected (projectStates c') = map selected (projectStates c)
  /\ toggleProject p_path c' = c'
  /\ click_toggleAll c' = c'.
Proof.
  intros Hne c'. split; [apply selected_after_fix|].
  assert (D : isDone c' = true).
  { unfold c'. now rewrite (click_fix_spec backend c Hne). }
  unfold toggleProject, click_toggleAll, toggleAll.
  rewrite D, orb_true_r. now split.
Qed.

Lemma filter_with_selected_false (ps : list ProjectFixState) :
  filter selected (map (with_selected false) ps) = [].
Proof. induction ps as [|p ps IH]; [reflexivity | exact IH]. Qed.

Lemma filter_with_selected_true (ps : list ProjectFixState) :
  filter selected (map (with_selected true) ps)
  = map (with_selected true) ps.
Proof.
  induction ps as [|p ps IH]; [reflexivity|]. cbn. now rewrite IH.
Qed.

(** X26: on a dialog that is not frozen, a click on the select-all box
    deselects every project when all were selected and selects every
    project otherwise, so that afterwards the number of selected projects
    is 0 or the number of rows; the paths and the statuses of the rows are
    kept. *)
Theorem toggleAll_all_or_none (c : Component) :
  isFixing c = false -> isDone c = false ->
  let c' := click_toggleAll c in
  selectedCount c'
  = (if forallb selected (projectStates c) then 0
     else List.length (projectStates c))
  /\ map path (projectStates c') = map path (projectStates c)
  /\ map status (projectStates c') = map status (projectStates c).
Proof.
  intros Hf Hd c'.
  assert (P : projectStates c'
              = map (with_selected
                       (negb (forallb selected (projectStates c))))
                  (projectStates c)).
  { unfold c', click_toggleAll, toggleAll. now rewrite Hf, Hd. }
  rewrite P, !map_map. split; [|split; now apply map_ext].
  unfold selectedCount. rewrite P.
  destruct (forallb selected (projectStates c)); cbn [negb].
  - now rewrite filter_with_selected_false.
  - now rewrite filter_with_selected_true, length_map.
Qed.

End FixSelectionFacts.

Lemma dialog_frozen_after_fix_witness :
  let c := FixSelection.two_projects in
  let c' := FixConfig.click_fix (fun _ => FixConfig.Resolved "ok") c in
  map FixConfig.selected (FixConfig.projectStates c')
  = map FixConfig.selected (FixConfig.projectStates c)
  /\ FixConfig.toggleProject "/work/a" c' = c'
  /\ FixSelection.click_toggleAll c' = c'.
Proof.
  apply (dialog_frozen_after_fix (fun _ => FixConfig.Resolved "ok")
           FixSelection.two_projects "/work/a").
  discriminate.
Defined.

Lemma toggleAll_all_or_none_witness :
  let c := FixSelection.two_projects in
  let c' := FixSelection.click_toggleAll c in
  FixSelection.selectedCount c'
  = (if forallb FixConfig.selected (FixConfig.projectStates c) then 0
     else List.length (FixConfig.projectStates c))
  /\ map FixConfig.path (FixConfig.projectStates c')
     = map FixConfig.path (FixConfig.projectStates c)
  /\ map FixConfig.status (FixConfig.projectStates c')
     = map FixConfig.status (FixConfig.projectStates c).
Proof.
  apply (toggleAll_all_or_none FixSelection.two_projects); reflexivity.
Defined.

(* ------------------------------------------------------------------------- *)
(** ** Discovery and the sections cache *)
(* ------------------------------------------------------------------------- *)

Section DiscoveryFacts.
Import AppStore Entities Store.
Variable buildSections : Store.AppState -> list CommandPaletteSection.

(** X27: [discoverAll] never leaves the store loading.  When both backend
    calls resolve, the error is cleared, the collections, the home
    directory and the discovery time are those of the result, and no toast
    is shown.  When one of them rejects, the error is the message of the
    [Error] (or a fixed text), the collections and the discovery time are
    what they were, and one error toast is shown, with a timer of 5000
    ms. *)
Theorem discoverAll_outcomes (backend : Backend) (generated : string)
    (projectPaths : option (list string)) (p : Page) :
  let p' := discoverAll backend generated projectPaths p in
  isLoading (store p') = false
  /\ match attempt backend projectPaths with
     | resolves (homeDir, result) =>
         error (store p') = None
         /\ collections (store p') = result_collections result
         /\ homeDirectory (store p') = homeDir
         /\ globalConfigPath (store p') = global_config_path result
         /\ lastDiscovery (store p') = Some (discovered_at result)
         /\ shown p' = shown p
         /\ timers p' = timers p
     | rejects err =>
         error (store p')
         = Some match err with
                | ErrorObject m => m
                | OtherValue => "Failed to discover configurations"%string
                end
         /\ collections (store p') = collections (store p)
         /\ homeDirectory (store p') = homeDirectory (store p)
         /\ lastDiscovery (store p') = lastDiscovery (store p)
         /\ previousItemIds (store p') = previousItemIds (store p)
         /\ shown p' = shown p ++ [discovery_failed generated err]
         /\ timers p'
            = timers p ++ [ {| delay := 5000; removes := generated |} ]
     end.
Proof.
  destruct p as [[s ls] dt tm]. unfold discoverAll.
  destruct (attempt backend projectPaths) as [[homeDir result]|err].
  - cbn. repeat split.
  - cbn. repeat split.
Qed.

(** One action keeps the sections cache empty. *)
Lemma perform_keeps_cache (p : Page) (a : Action) :
  _cachedSections (store p) = None ->
  _cachedSections (store (perform buildSections p a)) = None.
Proof.
  destruct p as [[s ls] dt tm]. unfold store. cbn [world fst].
  intros H.
  destruct a; try (cbn; try exact H; reflexivity).
  - (* updateEntityContent *)
    destruct entityType; cbn; try exact H; reflexivity.
  - (* removeEntity *)
    destruct entityType; cbn; reflexivity.
  - (* discoverAll *)
    unfold perform, discoverAll.
    destruct (attempt backend projectPaths) as [[homeDir result]|err];
      cbn; try exact H; reflexivity.
  - (* refreshDiscovery *)
    unfold perform, refreshDiscovery, discoverAll.
    destruct (attempt backend _) as [[homeDir result]|err];
      cbn; try exact H; reflexivity.
  - (* a timer *)
    unfold perform, fire. cbn [timers].
    destruct (nth_error tm n); cbn; exact H.
Qed.

(** X28: no action of the store ever fills the sections cache: if it is
    null, as it is initially, it is null after any sequence of actions,
    discoveries and timers included.  [getSections] therefore always
    rebuilds the sections. *)
Theorem sections_cache_stays_empty
    (actions : list Action) (p : Page) :
  _cachedSections (store p) = None ->
  _cachedSections (store (run buildSections actions p)) = None
  /\ getSections buildSections (world (run buildSections actions p))
     = buildSections (store (run buildSections actions p)).
Proof.
  intros H.
  assert (G : _cachedSections (store (run buildSections actions p)) = None).
  { unfold run. revert p H. induction actions as [|a actions IH];
      intros p H; [exact H|].
    simpl. apply IH. now apply perform_keeps_cache. }
  split; [exact G|]. unfold getSections. unfold store in G. now rewrite G.
Qed.

(** X29: with the cache null, a discovery that succeeds once the list has
    animated empties the set of seen ids, so that afterwards [isNewItem]
    holds of every id: every item counts as new, also those that were
    there before. *)
Theorem rediscovery_marks_all_new (backend : Backend) (generated : string)
    (projectPaths : option (list string)) (p : Page)
    (homeDir : string) (result : DiscoveryResult) (id' : string) :
  _cachedSections (store p) = None ->
  hasInitiallyAnimated (store p) = true ->
  attempt backend projectPaths = resolves (homeDir, result) ->
  let p' := discoverAll backend generated projectPaths p in
  previousItemIds (store p') = []
  /\ isNewItem id' (world p') = true.
Proof.
  destruct p as [[s ls] dt tm]. unfold store. cbn [world fst].
  intros Hc Ha Hr. unfold discoverAll, isNewItem, store. cbn [world fst].
  rewrite Hr, Hc, Ha. cbn. rewrite Ha. now split.
Qed.

End DiscoveryFacts.

Lemma sections_cache_stays_empty_witness :
  let actions :=
    [ Store.do_discoverAll Store.working_backend "toast_1" None;
      Store.do_setSearchQuery "rev";
      Store.do_markItemsAsSeen ] in
  AppStore._cachedSections
    (Store.store (Store.run (fun _ => []) actions Store.initial_page)) = None
  /\ Store.getSections (fun _ => [])
       (Store.world (Store.run (fun _ => []) actions Store.initial_page))
     = [].
Proof.
  apply (sections_cache_stays_empty (fun _ => [])
           [ Store.do_discoverAll Store.working_backend
               "toast_1" None;
             Store.do_setSearchQuery "rev";
             Store.do_markItemsAsSeen ]
           Store.initial_page).
  reflexivity.
Defined.

Lemma rediscovery_marks_all_new_witness :
  AppStore.previousItemIds
    (Store.store
       (Store.discoverAll Store.working_backend "toast_1" None
          Store.animated_page)) = []
  /\ Store.isNewItem "agent-1"
       (Store.world
          (Store.discoverAll Store.working_backend "toast_1" None
             Store.animated_page)) = true.
Proof.
  apply (rediscovery_marks_all_new Store.working_backend "toast_1" None
           Store.animated_page "/home/u" Store.empty_result "agent-1");
    reflexivity.
Defined.
